(** * Eden renderer resource governance: budget controller, eviction engine,
      command-buffer pool

    Shallow embedding of
      - [src/video_core/renderer_opengl/gl_vram_manager.{h,cpp}]   (VRAMManager)
      - [src/video_core/renderer_opengl/gl_texture_gc.{h,cpp}]     (TextureGarbageCollector)
      - [src/video_core/renderer_opengl/gl_command_buffer_pool.{h,cpp}] (CommandBufferPool)

    Conventions.  [u32]/[u64] fields are integers in [Z]; every C++ operation
    that can wrap is written with its reduction modulo 2^32 or 2^64.  C++
    [float] is IEEE binary32, taken from the standard library's [SpecFloat]
    at precision 24 and maximal exponent 128.  Logging is dropped. *)

From Stdlib Require Import ZArith List Bool Lia SpecFloat.
From Stdlib Require Import Permutation Sorted.
Import ListNotations.
Local Open Scope Z_scope.

(** ** Fixed-width unsigned integers *)

Module Ints.

Definition u32 (z : Z) : Z := z mod 2 ^ 32.
Definition u64 (z : Z) : Z := z mod 2 ^ 64.

Definition is_u64 (z : Z) : Prop := 0 <= z < 2 ^ 64.

Definition MiB : Z := 1024 * 1024.

End Ints.
Import Ints.

(** ** IEEE binary32, the C++ [float] *)

Module Float32.

Definition prec : Z := 24.
Definition emax : Z := 128.

(** [static_cast<float>(x)] for an unsigned 64-bit [x]: round to nearest,
    ties to even. *)
Definition of_u64 (x : Z) : spec_float := binary_normalize prec emax x 0 false.

Definition div (x y : spec_float) : spec_float := SFdiv prec emax x y.

(** [x >= y] on floats: false as soon as one side is a NaN. *)
Definition geb (x y : spec_float) : bool := SFleb y x.

(** The binary32 value nearest to [n / d]; for exactly representable [n] and
    [d] this is what the decimal literal denotes ([0.60f] is
    [of_ratio 60 100]). *)
Definition of_ratio (n d : Z) : spec_float := div (of_u64 n) (of_u64 d).

End Float32.

(** ** Budget controller: [VRAMManager] *)

Module VRAM.

(** [enum class MemoryPressure { None, Low, Medium, High, Critical }]; the
    enumerators carry a prefix because [None] is taken. *)
Inductive MemoryPressure : Type :=
| MP_None | MP_Low | MP_Medium | MP_High | MP_Critical.

(** [static_cast<int>] of the enumerators, which is also how [>=] on the
    scoped enum compares them. *)
Definition pressure_rank (p : MemoryPressure) : Z :=
  match p with
  | MP_None => 0 | MP_Low => 1 | MP_Medium => 2 | MP_High => 3 | MP_Critical => 4
  end.

Definition pressure_eqb (p q : MemoryPressure) : bool :=
  pressure_rank p =? pressure_rank q.

Inductive DeviceTier : Type := LowEnd | MidRange | HighEnd | Flagship.

Record Config : Type := {
  vram_cap_bytes : Z;
  device_tier : DeviceTier;
  low_pressure_threshold : spec_float;
  medium_pressure_threshold : spec_float;
  high_pressure_threshold : spec_float;
  critical_pressure_threshold : spec_float;
  cleanup_threshold_bytes : Z;
  emergency_threshold_bytes : Z;
  enable_auto_cleanup : bool;
  enable_emergency_purge : bool;
  log_interval_frames : Z
}.

(** [GetRecommendedConfig(DeviceTier::MidRange)]: a default-initialised
    [Config] with the MidRange assignments (which repeat the defaults). *)
Definition GetRecommendedConfig_MidRange : Config := {|
  vram_cap_bytes := 1536 * 1024 * 1024;
  device_tier := MidRange;
  low_pressure_threshold := Float32.of_ratio 60 100;
  medium_pressure_threshold := Float32.of_ratio 75 100;
  high_pressure_threshold := Float32.of_ratio 85 100;
  critical_pressure_threshold := Float32.of_ratio 95 100;
  cleanup_threshold_bytes := 1280 * 1024 * 1024;
  emergency_threshold_bytes := 1460 * 1024 * 1024;
  enable_auto_cleanup := true;
  enable_emergency_purge := true;
  log_interval_frames := 300
|}.

(** The literals [60] and [120] that [ExecuteCleanup] / [ShouldCleanup] and
    [ExecuteEmergencyPurge] / [ShouldEmergencyPurge] compare the elapsed
    frames with. *)
Definition cleanup_min_interval : Z := 60.
Definition emergency_min_interval : Z := 120.

(** What a callback invocation leaves behind for an observer. *)
Inductive Event : Type :=
| CleanupCallbackRun (index : nat) (freed : Z)
| EmergencyCallbackRun (index : nat).

Definition is_cleanup_event (e : Event) : bool :=
  match e with CleanupCallbackRun _ _ => true | EmergencyCallbackRun _ => false end.

Definition is_emergency_event (e : Event) : bool :=
  match e with CleanupCallbackRun _ _ => false | EmergencyCallbackRun _ => true end.

Section Controller.

(** The host renderer's own state, on which the registered closures act.
    [CleanupCallback = std::function<u64()>] returns the bytes it freed;
    [EmergencyCallback = std::function<void()>] returns nothing. *)
Context {World : Type}.

Definition CleanupCallback : Type := World -> Z * World.
Definition EmergencyCallback : Type := World -> World.

Record VRAMManager : Type := {
  config_ : Config;
  current_usage_ : Z;
  peak_usage_ : Z;
  current_frame_ : Z;
  cleanup_callbacks_ : list CleanupCallback;
  emergency_callbacks_ : list EmergencyCallback;
  cleanup_count_ : Z;
  emergency_purge_count_ : Z;
  total_bytes_freed_ : Z;
  last_pressure_ : MemoryPressure;
  last_cleanup_frame_ : Z;
  last_emergency_frame_ : Z
}.

(** The controller together with the host state its callbacks mutate and the
    record of callback invocations so far (oldest first). *)
Record Machine : Type := {
  self : VRAMManager;
  host : World;
  calls : list Event
}.

(** [VRAMManager::VRAMManager(Config)] with the in-class member initialisers. *)
Definition construct (config : Config) : VRAMManager := {|
  config_ := config;
  current_usage_ := 0;
  peak_usage_ := 0;
  current_frame_ := 0;
  cleanup_callbacks_ := [];
  emergency_callbacks_ := [];
  cleanup_count_ := 0;
  emergency_purge_count_ := 0;
  total_bytes_freed_ := 0;
  last_pressure_ := MP_None;
  last_cleanup_frame_ := 0;
  last_emergency_frame_ := 0
|}.

Definition boot (config : Config) (w : World) : Machine :=
  {| self := construct config; host := w; calls := [] |}.

Definition on_self (f : VRAMManager -> VRAMManager) (s : Machine) : Machine :=
  {| self := f (self s); host := host s; calls := calls s |}.

Definition set_usage (usage peak : Z) (m : VRAMManager) : VRAMManager := {|
  config_ := config_ m;
  current_usage_ := usage;
  peak_usage_ := peak;
  current_frame_ := current_frame_ m;
  cleanup_callbacks_ := cleanup_callbacks_ m;
  emergency_callbacks_ := emergency_callbacks_ m;
  cleanup_count_ := cleanup_count_ m;
  emergency_purge_count_ := emergency_purge_count_ m;
  total_bytes_freed_ := total_bytes_freed_ m;
  last_pressure_ := last_pressure_ m;
  last_cleanup_frame_ := last_cleanup_frame_ m;
  last_emergency_frame_ := last_emergency_frame_ m
|}.

Definition set_current_frame (frame : Z) (m : VRAMManager) : VRAMManager := {|
  config_ := config_ m;
  current_usage_ := current_usage_ m;
  peak_usage_ := peak_usage_ m;
  current_frame_ := frame;
  cleanup_callbacks_ := cleanup_callbacks_ m;
  emergency_callbacks_ := emergency_callbacks_ m;
  cleanup_count_ := cleanup_count_ m;
  emergency_purge_count_ := emergency_purge_count_ m;
  total_bytes_freed_ := total_bytes_freed_ m;
  last_pressure_ := last_pressure_ m;
  last_cleanup_frame_ := last_cleanup_frame_ m;
  last_emergency_frame_ := last_emergency_frame_ m
|}.

Definition set_last_pressure (p : MemoryPressure) (m : VRAMManager) : VRAMManager := {|
  config_ := config_ m;
  current_usage_ := current_usage_ m;
  peak_usage_ := peak_usage_ m;
  current_frame_ := current_frame_ m;
  cleanup_callbacks_ := cleanup_callbacks_ m;
  emergency_callbacks_ := emergency_callbacks_ m;
  cleanup_count_ := cleanup_count_ m;
  emergency_purge_count_ := emergency_purge_count_ m;
  total_bytes_freed_ := total_bytes_freed_ m;
  last_pressure_ := p;
  last_cleanup_frame_ := last_cleanup_frame_ m;
  last_emergency_frame_ := last_emergency_frame_ m
|}.

Definition set_callbacks (cs : list CleanupCallback) (es : list EmergencyCallback)
    (m : VRAMManager) : VRAMManager := {|
  config_ := config_ m;
  current_usage_ := current_usage_ m;
  peak_usage_ := peak_usage_ m;
  current_frame_ := current_frame_ m;
  cleanup_callbacks_ := cs;
  emergency_callbacks_ := es;
  cleanup_count_ := cleanup_count_ m;
  emergency_purge_count_ := emergency_purge_count_ m;
  total_bytes_freed_ := total_bytes_freed_ m;
  last_pressure_ := last_pressure_ m;
  last_cleanup_frame_ := last_cleanup_frame_ m;
  last_emergency_frame_ := last_emergency_frame_ m
|}.

(** The three assignments that end [ExecuteCleanup]. *)
Definition record_cleanup (total_freed : Z) (m : VRAMManager) : VRAMManager := {|
  config_ := config_ m;
  current_usage_ := current_usage_ m;
  peak_usage_ := peak_usage_ m;
  current_frame_ := current_frame_ m;
  cleanup_callbacks_ := cleanup_callbacks_ m;
  emergency_callbacks_ := emergency_callbacks_ m;
  cleanup_count_ := u32 (cleanup_count_ m + 1);
  emergency_purge_count_ := emergency_purge_count_ m;
  total_bytes_freed_ := u64 (total_bytes_freed_ m + total_freed);
  last_pressure_ := last_pressure_ m;
  last_cleanup_frame_ := current_frame_ m;
  last_emergency_frame_ := last_emergency_frame_ m
|}.

(** The two assignments that end [ExecuteEmergencyPurge]. *)
Definition record_emergency (m : VRAMManager) : VRAMManager := {|
  config_ := config_ m;
  current_usage_ := current_usage_ m;
  peak_usage_ := peak_usage_ m;
  current_frame_ := current_frame_ m;
  cleanup_callbacks_ := cleanup_callbacks_ m;
  emergency_callbacks_ := emergency_callbacks_ m;
  cleanup_count_ := cleanup_count_ m;
  emergency_purge_count_ := u32 (emergency_purge_count_ m + 1);
  total_bytes_freed_ := total_bytes_freed_ m;
  last_pressure_ := last_pressure_ m;
  last_cleanup_frame_ := last_cleanup_frame_ m;
  last_emergency_frame_ := current_frame_ m
|}.

Definition RegisterCleanupCallback (callback : CleanupCallback) (s : Machine) : Machine :=
  on_self (fun m => set_callbacks (cleanup_callbacks_ m ++ [callback])
                                  (emergency_callbacks_ m) m) s.

Definition RegisterEmergencyCallback (callback : EmergencyCallback) (s : Machine) : Machine :=
  on_self (fun m => set_callbacks (cleanup_callbacks_ m)
                                  (emergency_callbacks_ m ++ [callback]) m) s.

Definition GetUsagePercentage (m : VRAMManager) : spec_float :=
  Float32.div (Float32.of_u64 (current_usage_ m))
              (Float32.of_u64 (vram_cap_bytes (config_ m))).

Definition CalculatePressure (m : VRAMManager) : MemoryPressure :=
  let usage := GetUsagePercentage m in
  if Float32.geb usage (critical_pressure_threshold (config_ m)) then MP_Critical
  else if Float32.geb usage (high_pressure_threshold (config_ m)) then MP_High
  else if Float32.geb usage (medium_pressure_threshold (config_ m)) then MP_Medium
  else if Float32.geb usage (low_pressure_threshold (config_ m)) then MP_Low
  else MP_None.

Definition GetMemoryPressure (m : VRAMManager) : MemoryPressure := CalculatePressure m.

Definition IsOverLimit (m : VRAMManager) : bool :=
  vram_cap_bytes (config_ m) <? current_usage_ m.

Definition GetAvailableVRAM (m : VRAMManager) : Z :=
  if vram_cap_bytes (config_ m) <=? current_usage_ m then 0
  else vram_cap_bytes (config_ m) - current_usage_ m.

Definition CanAllocate (size_bytes : Z) (m : VRAMManager) : bool :=
  u64 (current_usage_ m + size_bytes) <=? vram_cap_bytes (config_ m).

(** The loop over [cleanup_callbacks_]: each closure runs on the host state,
    its result is added to [total_freed] (a [u64]). *)
Fixpoint run_cleanup_callbacks (cbs : list CleanupCallback) (index : nat)
    (total_freed : Z) (w : World) : Z * World * list Event :=
  match cbs with
  | [] => (total_freed, w, [])
  | callback :: rest =>
      let '(freed, w1) := callback w in
      let '(total, w2, evs) :=
        run_cleanup_callbacks rest (S index) (u64 (total_freed + u64 freed)) w1 in
      (total, w2, CleanupCallbackRun index (u64 freed) :: evs)
  end.

Fixpoint run_emergency_callbacks (cbs : list EmergencyCallback) (index : nat)
    (w : World) : World * list Event :=
  match cbs with
  | [] => (w, [])
  | callback :: rest =>
      let '(w2, evs) := run_emergency_callbacks rest (S index) (callback w) in
      (w2, EmergencyCallbackRun index :: evs)
  end.

Definition ExecuteCleanup (s : Machine) : Machine :=
  let m := self s in
  if negb (enable_auto_cleanup (config_ m)) then s
  else if u32 (current_frame_ m - last_cleanup_frame_ m) <? cleanup_min_interval then s
  else
    let '(total_freed, w, evs) :=
      run_cleanup_callbacks (cleanup_callbacks_ m) 0%nat 0 (host s) in
    {| self := record_cleanup total_freed m; host := w; calls := calls s ++ evs |}.

Definition ExecuteEmergencyPurge (s : Machine) : Machine :=
  let m := self s in
  if negb (enable_emergency_purge (config_ m)) then s
  else if u32 (current_frame_ m - last_emergency_frame_ m) <? emergency_min_interval then s
  else
    let '(w, evs) := run_emergency_callbacks (emergency_callbacks_ m) 0%nat (host s) in
    let s1 := ExecuteCleanup {| self := m; host := w; calls := calls s ++ evs |} in
    on_self record_emergency s1.

Definition ShouldCleanup (m : VRAMManager) : bool :=
  enable_auto_cleanup (config_ m)
  && (cleanup_threshold_bytes (config_ m) <=? current_usage_ m)
  && (cleanup_min_interval <=? u32 (current_frame_ m - last_cleanup_frame_ m)).

Definition ShouldEmergencyPurge (m : VRAMManager) : bool :=
  enable_emergency_purge (config_ m)
  && (emergency_threshold_bytes (config_ m) <=? current_usage_ m)
  && (emergency_min_interval <=? u32 (current_frame_ m - last_emergency_frame_ m)).

Definition HandlePressureChange (new_pressure : MemoryPressure) (s : Machine) : Machine :=
  let s1 := if pressure_rank MP_High <=? pressure_rank new_pressure
            then ExecuteCleanup s else s in
  if pressure_eqb new_pressure MP_Critical then ExecuteEmergencyPurge s1 else s1.

Definition UpdateUsage (current_vram_bytes : Z) (s : Machine) : Machine :=
  let s0 := on_self (fun m =>
              set_usage current_vram_bytes
                (if peak_usage_ m <? current_vram_bytes
                 then current_vram_bytes else peak_usage_ m) m) s in
  let new_pressure := CalculatePressure (self s0) in
  let s1 := if pressure_eqb new_pressure (last_pressure_ (self s0)) then s0
            else on_self (set_last_pressure new_pressure)
                         (HandlePressureChange new_pressure s0) in
  let s2 := if ShouldCleanup (self s1) then ExecuteCleanup s1 else s1 in
  if ShouldEmergencyPurge (self s2) then ExecuteEmergencyPurge s2 else s2.

Definition RequestCleanup (s : Machine) : Machine := ExecuteCleanup s.

Definition ForceEmergencyPurge (s : Machine) : Machine := ExecuteEmergencyPurge s.

(** [current_frame_++]; the log line printed every [log_interval_frames]
    frames reads [GetStats] and leaves the state alone. *)
Definition TickFrame (s : Machine) : Machine :=
  on_self (fun m => set_current_frame (u32 (current_frame_ m + 1)) m) s.

(** *** Sequences of calls on the controller *)

Inductive Call : Type :=
| CallUpdateUsage (current_vram_bytes : Z)
| CallTickFrame
| CallRequestCleanup
| CallForceEmergencyPurge
| CallRegisterCleanup (callback : CleanupCallback)
| CallRegisterEmergency (callback : EmergencyCallback).

Definition perform (c : Call) (s : Machine) : Machine :=
  match c with
  | CallUpdateUsage bytes => UpdateUsage bytes s
  | CallTickFrame => TickFrame s
  | CallRequestCleanup => RequestCleanup s
  | CallForceEmergencyPurge => ForceEmergencyPurge s
  | CallRegisterCleanup callback => RegisterCleanupCallback callback s
  | CallRegisterEmergency callback => RegisterEmergencyCallback callback s
  end.

Definition run (cs : list Call) (s : Machine) : Machine :=
  fold_left (fun st c => perform c st) cs s.

Definition is_tick (c : Call) : bool :=
  match c with CallTickFrame => true | _ => false end.

(** Number of frame boundaries crossed by a sequence of calls. *)
Definition ticks_in (cs : list Call) : nat := length (filter is_tick cs).

(** *** What the properties below speak about *)

(** The two tests that [ExecuteCleanup] and [ExecuteEmergencyPurge] make
    before doing anything: the enable flag and the elapsed-frames gate. *)
Definition cleanup_gate_open (m : VRAMManager) : bool :=
  enable_auto_cleanup (config_ m)
  && (cleanup_min_interval <=? u32 (current_frame_ m - last_cleanup_frame_ m)).

Definition emergency_gate_open (m : VRAMManager) : bool :=
  enable_emergency_purge (config_ m)
  && (emergency_min_interval <=? u32 (current_frame_ m - last_emergency_frame_ m)).

(** One pass over the registered callbacks of [m], started on host state [w]. *)
Definition cleanup_pass (m : VRAMManager) (w : World) : Z * World * list Event :=
  run_cleanup_callbacks (cleanup_callbacks_ m) 0%nat 0 w.

Definition emergency_pass (m : VRAMManager) (w : World) : World * list Event :=
  run_emergency_callbacks (emergency_callbacks_ m) 0%nat w.

(** [quiet s s']: going from [s] to [s'] ran no cleanup: configuration, frame
    counter and cleanup bookkeeping are those of [s], and every event added
    is an emergency callback. *)
Definition quiet (s s' : Machine) : Prop :=
  config_ (self s') = config_ (self s)
  /\ current_frame_ (self s') = current_frame_ (self s)
  /\ last_cleanup_frame_ (self s') = last_cleanup_frame_ (self s)
  /\ cleanup_count_ (self s') = cleanup_count_ (self s)
  /\ exists evs, calls s' = calls s ++ evs /\ forallb is_emergency_event evs = true.

(** A MidRange controller with callbacks [cs] and [es] registered that has
    been ticked up to [frame] without ever being fed a usage. *)
Definition idle_at (frame : Z) (cs : list CleanupCallback)
    (es : list EmergencyCallback) (w : World) : Machine :=
  {| self := set_current_frame frame
               (set_callbacks cs es (construct GetRecommendedConfig_MidRange));
     host := w; calls := [] |}.

(** The fields of a MidRange controller that the rising-usage scenario
    follows. *)
Record shape (m : VRAMManager)
    (frame last_cleanup last_emergency cleanups purges : Z)
    (pressure : MemoryPressure) (cs : list CleanupCallback)
    (es : list EmergencyCallback) : Prop := {
  shape_config : config_ m = GetRecommendedConfig_MidRange;
  shape_frame : current_frame_ m = frame;
  shape_last_cleanup : last_cleanup_frame_ m = last_cleanup;
  shape_last_emergency : last_emergency_frame_ m = last_emergency;
  shape_cleanups : cleanup_count_ m = cleanups;
  shape_purges : emergency_purge_count_ m = purges;
  shape_pressure : last_pressure_ m = pressure;
  shape_cleanup_callbacks : cleanup_callbacks_ m = cs;
  shape_emergency_callbacks : emergency_callbacks_ m = es
}.

End Controller.

Arguments VRAMManager : clear implicits.
Arguments Machine : clear implicits.
Arguments CleanupCallback : clear implicits.
Arguments EmergencyCallback : clear implicits.
Arguments Call : clear implicits.

(** [CalculatePressure] reads the configuration and the current usage only. *)
Definition pressure_of (config : Config) (usage : Z) : MemoryPressure :=
  CalculatePressure (World := unit) (set_usage usage usage (construct config)).

(** A host whose state counts the callbacks it has served, with one callback
    of each kind registered on a newly constructed MidRange controller. *)
Definition sample_cleanup : CleanupCallback nat := fun w => (64 * MiB, S w).
Definition sample_emergency : EmergencyCallback nat := fun w => (w + 100)%nat.

Definition fresh_midrange : Machine nat :=
  RegisterEmergencyCallback sample_emergency
    (RegisterCleanupCallback sample_cleanup (boot GetRecommendedConfig_MidRange 0%nat)).

(** One frame of a host that keeps reporting 1300 MiB and asks for a cleanup
    by hand as well. *)
Definition busy_frame : list (Call nat) :=
  [CallUpdateUsage (1300 * MiB); CallRequestCleanup; CallTickFrame].

(** *** More to speak about *)

(** The byte counts returned by the cleanup callbacks of a trace, added up. *)
Definition freed_in (evs : list Event) : Z :=
  fold_right (fun e acc =>
                match e with
                | CleanupCallbackRun _ freed => freed + acc
                | EmergencyCallbackRun _ => acc
                end) 0 evs.

Definition event_index (e : Event) : nat :=
  match e with CleanupCallbackRun i _ => i | EmergencyCallbackRun i => i end.

Section Observers.
Context {World : Type}.

(** [hush s s']: going from [s] to [s'] ran no emergency purge:
    configuration, frame counter and purge bookkeeping are those of [s], and
    every event added is a cleanup callback. *)
Definition hush (s s' : Machine World) : Prop :=
  config_ (self s') = config_ (self s)
  /\ current_frame_ (self s') = current_frame_ (self s)
  /\ last_emergency_frame_ (self s') = last_emergency_frame_ (self s)
  /\ emergency_purge_count_ (self s') = emergency_purge_count_ (self s)
  /\ exists evs, calls s' = calls s ++ evs /\ forallb is_cleanup_event evs = true.

(** [once_cleanup s s']: between [s] and [s'], within one frame, the cleanup
    callbacks were either not run, or run in one pass (each once, in
    registration order) that closed the cleanup gate. *)
Definition once_cleanup (s s' : Machine World) : Prop :=
  config_ (self s') = config_ (self s)
  /\ current_frame_ (self s') = current_frame_ (self s)
  /\ cleanup_callbacks_ (self s') = cleanup_callbacks_ (self s)
  /\ exists evs, calls s' = calls s ++ evs
     /\ ((last_cleanup_frame_ (self s') = last_cleanup_frame_ (self s)
          /\ filter is_cleanup_event evs = [])
         \/ (last_cleanup_frame_ (self s') = current_frame_ (self s')
             /\ map event_index (filter is_cleanup_event evs)
                = seq 0 (length (cleanup_callbacks_ (self s))))).

(** The same for the emergency callbacks. *)
Definition once_emergency (s s' : Machine World) : Prop :=
  config_ (self s') = config_ (self s)
  /\ current_frame_ (self s') = current_frame_ (self s)
  /\ emergency_callbacks_ (self s') = emergency_callbacks_ (self s)
  /\ exists evs, calls s' = calls s ++ evs
     /\ ((last_emergency_frame_ (self s') = last_emergency_frame_ (self s)
          /\ filter is_emergency_event evs = [])
         \/ (last_emergency_frame_ (self s') = current_frame_ (self s')
             /\ map event_index (filter is_emergency_event evs)
                = seq 0 (length (emergency_callbacks_ (self s))))).


End Observers.

(** A configuration with its two enable flags set by the host. *)
Definition with_switches (auto_cleanup emergency_purge : bool) (c : Config) : Config := {|
  vram_cap_bytes := vram_cap_bytes c;
  device_tier := device_tier c;
  low_pressure_threshold := low_pressure_threshold c;
  medium_pressure_threshold := medium_pressure_threshold c;
  high_pressure_threshold := high_pressure_threshold c;
  critical_pressure_threshold := critical_pressure_threshold c;
  cleanup_threshold_bytes := cleanup_threshold_bytes c;
  emergency_threshold_bytes := emergency_threshold_bytes c;
  enable_auto_cleanup := auto_cleanup;
  enable_emergency_purge := emergency_purge;
  log_interval_frames := log_interval_frames c
|}.

(** The host of [fresh_midrange] on a MidRange controller with the given
    switches, ticked up to frame 200. *)
Definition switched_midrange (auto_cleanup emergency_purge : bool) : Machine nat :=
  Nat.iter 200 TickFrame
    (RegisterEmergencyCallback sample_emergency
       (RegisterCleanupCallback sample_cleanup
          (boot (with_switches auto_cleanup emergency_purge
                   GetRecommendedConfig_MidRange) 0%nat))).

(** *** [DetectDeviceTier]

    What the function finds in [/proc/meminfo]: the file cannot be opened,
    or the loop over its lines ends with [mem_total_kb] (0 when no line
    starts with [MemTotal:] or its number does not parse). *)
Inductive MemInfo : Type :=
| MemInfoUnreadable
| MemTotalKb (mem_total_kb : Z).

Definition DetectDeviceTier (meminfo : MemInfo) : DeviceTier :=
  match meminfo with
  | MemInfoUnreadable => MidRange
  | MemTotalKb mem_total_kb =>
      let mem_total_mb := mem_total_kb / 1024 in
      if mem_total_mb <=? 3072 then LowEnd
      else if mem_total_mb <=? 4608 then MidRange
      else if mem_total_mb <=? 6656 then HighEnd
      else Flagship
  end.

(** [static_cast<int>] of the [DeviceTier] enumerators. *)
Definition tier_rank (t : DeviceTier) : Z :=
  match t with LowEnd => 0 | MidRange => 1 | HighEnd => 2 | Flagship => 3 end.

End VRAM.

(** ** Reusable-buffer pool: [CommandBufferPool] *)

Module Pool.

Record Config : Type := {
  initial_pool_size : Z;
  max_pool_size : Z;
  buffer_size : Z;
  auto_expand : bool;
  auto_shrink : bool;
  shrink_delay_frames : Z
}.

(** [Config{}]: the in-class defaults. *)
Definition default_config : Config := {|
  initial_pool_size := 16;
  max_pool_size := 64;
  buffer_size := 1024 * 1024;
  auto_expand := true;
  auto_shrink := true;
  shrink_delay_frames := 300
|}.

(** A [BufferPtr] is a [std::shared_ptr<CommandBuffer>]; the pool only ever
    compares the pointees' addresses ([.get() == .get()]), so a non-null
    pointer is represented by the identity of the [CommandBuffer] it points
    to: the ordinal of the [CreateBuffer] call that made it.  [None] is the
    null pointer.  The byte region and the write cursor of a buffer are not
    represented: no pool operation reads them. *)
Definition BufferId : Type := Z.
Definition BufferPtr : Type := option BufferId.

Record CommandBufferPool : Type := {
  config_ : Config;
  available_buffers_ : list BufferId;   (* std::queue, front first *)
  all_buffers_ : list BufferId;         (* std::vector *)
  total_acquisitions_ : Z;
  total_releases_ : Z;
  pool_expansions_ : Z;
  pool_shrinks_ : Z;
  current_frame_ : Z;
  last_shrink_frame_ : Z;
  next_allocation_id_ : Z
}.

Record Stats : Type := {
  total_buffers : Z;
  available_buffers : Z;
  active_buffers : Z;
  total_memory_mb : Z;
  total_acquisitions : Z;
  total_releases : Z;
  pool_expansions : Z;
  pool_shrinks : Z;
  current_frame : Z
}.

Definition size {A : Type} (l : list A) : Z := Z.of_nat (length l).

Definition with_buffers (avail all : list BufferId) (next : Z)
    (p : CommandBufferPool) : CommandBufferPool := {|
  config_ := config_ p;
  available_buffers_ := avail;
  all_buffers_ := all;
  total_acquisitions_ := total_acquisitions_ p;
  total_releases_ := total_releases_ p;
  pool_expansions_ := pool_expansions_ p;
  pool_shrinks_ := pool_shrinks_ p;
  current_frame_ := current_frame_ p;
  last_shrink_frame_ := last_shrink_frame_ p;
  next_allocation_id_ := next
|}.

Definition with_counters (acq rel exp shr : Z) (p : CommandBufferPool)
    : CommandBufferPool := {|
  config_ := config_ p;
  available_buffers_ := available_buffers_ p;
  all_buffers_ := all_buffers_ p;
  total_acquisitions_ := acq;
  total_releases_ := rel;
  pool_expansions_ := exp;
  pool_shrinks_ := shr;
  current_frame_ := current_frame_ p;
  last_shrink_frame_ := last_shrink_frame_ p;
  next_allocation_id_ := next_allocation_id_ p
|}.

Definition with_frames (frame last_shrink : Z) (p : CommandBufferPool)
    : CommandBufferPool := {|
  config_ := config_ p;
  available_buffers_ := available_buffers_ p;
  all_buffers_ := all_buffers_ p;
  total_acquisitions_ := total_acquisitions_ p;
  total_releases_ := total_releases_ p;
  pool_expansions_ := pool_expansions_ p;
  pool_shrinks_ := pool_shrinks_ p;
  current_frame_ := frame;
  last_shrink_frame_ := last_shrink;
  next_allocation_id_ := next_allocation_id_ p
|}.

(** [CreateBuffer]: a fresh [CommandBuffer]; returns it and bumps
    [next_allocation_id_]. *)
Definition CreateBuffer (p : CommandBufferPool) : BufferId * CommandBufferPool :=
  (next_allocation_id_ p,
   with_buffers (available_buffers_ p) (all_buffers_ p) (next_allocation_id_ p + 1) p).

(** One iteration of the loops of [InitializePool] and [ExpandPool]. *)
Definition add_available_buffer (p : CommandBufferPool) : CommandBufferPool :=
  let '(buffer, p1) := CreateBuffer p in
  with_buffers (available_buffers_ p1 ++ [buffer]) (all_buffers_ p1 ++ [buffer])
               (next_allocation_id_ p1) p1.

Definition InitializePool (p : CommandBufferPool) : CommandBufferPool :=
  Nat.iter (Z.to_nat (initial_pool_size (config_ p))) add_available_buffer p.

(** [CommandBufferPool::CommandBufferPool(Config)]. *)
Definition construct (config : Config) : CommandBufferPool :=
  InitializePool {|
    config_ := config;
    available_buffers_ := [];
    all_buffers_ := [];
    total_acquisitions_ := 0;
    total_releases_ := 0;
    pool_expansions_ := 0;
    pool_shrinks_ := 0;
    current_frame_ := 0;
    last_shrink_frame_ := 0;
    next_allocation_id_ := 0
  |}.

Definition count_acquisition (p : CommandBufferPool) : CommandBufferPool :=
  with_counters (u64 (total_acquisitions_ p + 1)) (total_releases_ p)
                (pool_expansions_ p) (pool_shrinks_ p) p.

Definition count_release (p : CommandBufferPool) : CommandBufferPool :=
  with_counters (total_acquisitions_ p) (u64 (total_releases_ p + 1))
                (pool_expansions_ p) (pool_shrinks_ p) p.

Definition count_expansion (p : CommandBufferPool) : CommandBufferPool :=
  with_counters (total_acquisitions_ p) (total_releases_ p)
                (u64 (pool_expansions_ p + 1)) (pool_shrinks_ p) p.

Definition count_shrink (p : CommandBufferPool) : CommandBufferPool :=
  with_counters (total_acquisitions_ p) (total_releases_ p)
                (pool_expansions_ p) (u64 (pool_shrinks_ p + 1)) p.

Definition AcquireBuffer (p : CommandBufferPool) : BufferId * CommandBufferPool :=
  match available_buffers_ p with
  | buffer :: rest =>
      (buffer,
       count_acquisition (with_buffers rest (all_buffers_ p) (next_allocation_id_ p) p))
  | [] =>
      let '(buffer, p1) := CreateBuffer p in
      if auto_expand (config_ p) && (size (all_buffers_ p) <? max_pool_size (config_ p))
      then (buffer,
            count_acquisition
              (count_expansion
                 (with_buffers (available_buffers_ p1) (all_buffers_ p1 ++ [buffer])
                               (next_allocation_id_ p1) p1)))
      else (buffer, count_acquisition p1)
  end.

(** The linear search of [ReleaseBuffer] through [all_buffers_]. *)
Definition is_pool_buffer (buffer : BufferId) (p : CommandBufferPool) : bool :=
  existsb (Z.eqb buffer) (all_buffers_ p).

Definition ReleaseBuffer (buffer : BufferPtr) (p : CommandBufferPool) : CommandBufferPool :=
  match buffer with
  | None => p
  | Some b =>
      count_release
        (if is_pool_buffer b p
         then with_buffers (available_buffers_ p ++ [b]) (all_buffers_ p)
                           (next_allocation_id_ p) p
         else p)
  end.

Definition ExpandPool (count : Z) (p : CommandBufferPool) : CommandBufferPool :=
  let new_total := u64 (size (all_buffers_ p) + count) in
  let count :=
    if max_pool_size (config_ p) <? new_total
    then u64 (max_pool_size (config_ p) - size (all_buffers_ p))
    else count in
  count_expansion (Nat.iter (Z.to_nat count) add_available_buffer p).

(** The removal loop of [ShrinkPool]: [i < to_remove && !available_buffers_.empty()],
    each round pops the front of the queue and erases every element of
    [all_buffers_] that points to the same buffer. *)
Fixpoint remove_excess (to_remove : nat) (avail all : list BufferId)
    : list BufferId * list BufferId :=
  match to_remove, avail with
  | S k, buffer :: rest =>
      remove_excess k rest (filter (fun b => negb (b =? buffer)) all)
  | _, _ => (avail, all)
  end.

Definition ShrinkPool (p : CommandBufferPool) : CommandBufferPool :=
  let available_count := size (available_buffers_ p) in
  let target_available := initial_pool_size (config_ p) / 2 in
  if available_count <=? target_available then p
  else
    let to_remove := available_count - target_available in
    let '(avail, all) :=
      remove_excess (Z.to_nat to_remove) (available_buffers_ p) (all_buffers_ p) in
    let p1 := count_shrink (with_buffers avail all (next_allocation_id_ p) p) in
    with_frames (current_frame_ p1) (current_frame_ p1) p1.

Definition ShouldExpand (p : CommandBufferPool) : bool :=
  match available_buffers_ p with
  | [] => size (all_buffers_ p) <? max_pool_size (config_ p)
  | _ :: _ => false
  end.

Definition ShouldShrink (p : CommandBufferPool) : bool :=
  if u32 (current_frame_ p - last_shrink_frame_ p) <? shrink_delay_frames (config_ p)
  then false
  else
    let available_count := size (available_buffers_ p) in
    let total_count := size (all_buffers_ p) in
    (initial_pool_size (config_ p) <? total_count)
    && (u64 (total_count * 3) / 4 <? available_count).

(** [current_frame_++], then the auto-shrink test; the periodic log line
    only reads [GetStats]. *)
Definition TickFrame (p : CommandBufferPool) : CommandBufferPool :=
  let p1 := with_frames (u32 (current_frame_ p + 1)) (last_shrink_frame_ p) p in
  if auto_shrink (config_ p1) && ShouldShrink p1 then ShrinkPool p1 else p1.

Definition GetStats (p : CommandBufferPool) : Stats :=
  let total := size (all_buffers_ p) in
  let avail := size (available_buffers_ p) in
  {| total_buffers := total;
     available_buffers := avail;
     active_buffers := u64 (total - avail);
     total_memory_mb := u64 (total * buffer_size (config_ p)) / (1024 * 1024);
     total_acquisitions := total_acquisitions_ p;
     total_releases := total_releases_ p;
     pool_expansions := pool_expansions_ p;
     pool_shrinks := pool_shrinks_ p;
     current_frame := current_frame_ p |}.

(** *** A caller of the pool

    The handles a caller holds between [AcquireBuffer] and [ReleaseBuffer]
    are not pool state; they are kept beside it to speak about "active"
    buffers. *)
Record Client : Type := {
  pool : CommandBufferPool;
  held : list BufferId
}.

Inductive Call : Type :=
| CallAcquire
| CallRelease (buffer : BufferPtr)
| CallExpand (count : Z)
| CallShrink
| CallTick.

Definition drop_handle (b : BufferId) (hs : list BufferId) : list BufferId :=
  filter (fun h => negb (h =? b)) hs.

Definition perform (c : Call) (s : Client) : Client :=
  match c with
  | CallAcquire =>
      let '(b, p) := AcquireBuffer (pool s) in {| pool := p; held := b :: held s |}
  | CallRelease None => {| pool := ReleaseBuffer None (pool s); held := held s |}
  | CallRelease (Some b) =>
      {| pool := ReleaseBuffer (Some b) (pool s); held := drop_handle b (held s) |}
  | CallExpand n => {| pool := ExpandPool n (pool s); held := held s |}
  | CallShrink => {| pool := ShrinkPool (pool s); held := held s |}
  | CallTick => {| pool := TickFrame (pool s); held := held s |}
  end.

Definition run (cs : list Call) (s : Client) : Client :=
  fold_left (fun st c => perform c st) cs s.

Definition start (config : Config) : Client :=
  {| pool := construct config; held := [] |}.

(** A call respects the hand-over discipline when a released handle is one
    the caller holds (so nothing is released twice). *)
Definition disciplined (c : Call) (s : Client) : bool :=
  match c with
  | CallRelease (Some b) => existsb (Z.eqb b) (held s)
  | _ => true
  end.

Fixpoint all_disciplined (cs : list Call) (s : Client) : bool :=
  match cs with
  | [] => true
  | c :: rest => disciplined c s && all_disciplined rest (perform c s)
  end.

(** Held handles that point into the tracked set: the "active" buffers. *)
Definition active_handles (s : Client) : list BufferId :=
  filter (fun h => is_pool_buffer h (pool s)) (held s).

(** *** What conservation speaks about *)

(** The tracked buffers among the handles [held]. *)
Definition tracked_among (all held : list BufferId) : list BufferId :=
  filter (fun h => existsb (Z.eqb h) all) held.

(** The bookkeeping that holds between the queue, the vector, the handles
    out with callers and the allocation counter as long as callers release
    only what they hold. *)
Record conserved (avail all held : list BufferId) (next : Z) : Prop := {
  conserved_all : NoDup all;
  conserved_avail : NoDup avail;
  conserved_held : NoDup held;
  conserved_incl : forall b, In b avail -> In b all;
  conserved_apart : forall b, In b avail -> ~ In b held;
  conserved_fresh_all : forall b, In b all -> b < next;
  conserved_fresh_held : forall b, In b held -> b < next;
  conserved_count :
    length all = (length avail + length (tracked_among all held))%nat
}.

Definition client_conserved (s : Client) : Prop :=
  conserved (available_buffers_ (pool s)) (all_buffers_ (pool s)) (held s)
            (next_allocation_id_ (pool s)).

(** The growth-and-release scenario: twenty acquisitions on the default
    pool, every handle released again. *)
Definition acquire_20 : list Call := repeat CallAcquire 20.

Definition release_all (s : Client) : list Call :=
  map (fun b => CallRelease (Some b)) (held s).

Definition grown_and_released : Client :=
  let s := run acquire_20 (start default_config) in run (release_all s) s.

(** Releasing the same handle twice. *)
Definition double_release : list Call :=
  [CallAcquire; CallRelease (Some 0); CallRelease (Some 0)].

(** *** More about call sequences *)

Definition is_tick (c : Call) : bool :=
  match c with CallTick => true | _ => false end.

(** Number of frame boundaries crossed by a sequence of calls. *)
Definition ticks_in (cs : list Call) : nat := length (filter is_tick cs).

Definition is_manual_shrink (c : Call) : bool :=
  match c with CallShrink => true | _ => false end.

(** An [ExpandPool] argument for which [all_buffers_.size() + count] does not
    wrap around. *)
Definition expands_moderately (c : Call) : bool :=
  match c with
  | CallExpand count => (0 <=? count) && (count <? 2 ^ 63)
  | _ => true
  end.

(** [cool p0 k p]: going from [p0] to [p] crossed [k] frame boundaries
    without a shrink: configuration and shrink bookkeeping are those of
    [p0], and every buffer tracked by [p0] is still tracked. *)
Definition cool (p0 : CommandBufferPool) (k : nat) (p : CommandBufferPool) : Prop :=
  config_ p = config_ p0
  /\ last_shrink_frame_ p = last_shrink_frame_ p0
  /\ pool_shrinks_ p = pool_shrinks_ p0
  /\ incl (all_buffers_ p0) (all_buffers_ p)
  /\ forall c, u32 (current_frame_ p - c) = u32 (current_frame_ p0 + Z.of_nat k - c).

(** *** [CommandBuffer]

    The object a handle points to: a byte vector and a write cursor.
    [Reserve] and [Capacity] only concern the vector's capacity, which the
    standard library chooses, and are left out. *)
Record CommandBuffer : Type := {
  data_ : list Byte.byte;         (* std::vector<u8> *)
  position_ : Z;                  (* size_t *)
  allocation_id_ : Z
}.

(** [data_.resize(n)]: cut down to [n] bytes, or filled up with zero bytes. *)
Definition resize (n : Z) (d : list Byte.byte) : list Byte.byte :=
  firstn (Z.to_nat n) d ++ repeat Byte.x00 (Z.to_nat n - length d).

(** [CommandBuffer::CommandBuffer(size)] *)
Definition new_CommandBuffer (size : Z) : CommandBuffer :=
  {| data_ := resize size []; position_ := 0; allocation_id_ := 0 |}.

Definition Size (b : CommandBuffer) : Z := size (data_ b).
Definition Position (b : CommandBuffer) : Z := position_ b.

Definition Reset (b : CommandBuffer) : CommandBuffer :=
  {| data_ := data_ b; position_ := 0; allocation_id_ := allocation_id_ b |}.

Definition HasSpace (size : Z) (b : CommandBuffer) : bool :=
  u64 (position_ b + size) <=? Size b.

Definition RemainingSpace (b : CommandBuffer) : Z :=
  u64 (Size b - position_ b).

(** [std::memcpy(data_.data() + offset, src, size)] for a destination range
    that lies inside the vector (outside of it the C++ behaviour is
    undefined). *)
Definition memcpy (dst : list Byte.byte) (offset : Z) (src : list Byte.byte)
    : list Byte.byte :=
  firstn (Z.to_nat offset) dst ++ src
  ++ skipn (Z.to_nat offset + length src) dst.

(** [Write(data, size)], the source range given as the list of its bytes. *)
Definition Write (src : list Byte.byte) (b : CommandBuffer) : CommandBuffer :=
  let n := size src in
  let d :=
    if HasSpace n b then data_ b
    else resize (Z.max (u64 (Size b * 2)) (u64 (position_ b + n))) (data_ b) in
  {| data_ := memcpy d (position_ b) src;
     position_ := u64 (position_ b + n);
     allocation_id_ := allocation_id_ b |}.

(** Several [Write] calls in a row. *)
Definition WriteAll (chunks : list (list Byte.byte)) (b : CommandBuffer)
    : CommandBuffer :=
  fold_left (fun st chunk => Write chunk st) chunks b.

(** The bytes below the write cursor. *)
Definition written (b : CommandBuffer) : list Byte.byte :=
  firstn (Z.to_nat (position_ b)) (data_ b).

Definition cursor_in_bounds (b : CommandBuffer) : Prop :=
  0 <= position_ b <= Size b.

End Pool.

(** ** Eviction engine: [TextureGarbageCollector] *)

Module TextureGC.

Record Config : Type := {
  unused_frame_threshold : Z;
  aggressive_mode : bool;
  aggressive_threshold : Z;
  memory_pressure_mb : Z;
  max_vram_target_mb : Z
}.

(** [Config{}]: the in-class defaults. *)
Definition default_config : Config := {|
  unused_frame_threshold := 60;
  aggressive_mode := true;
  aggressive_threshold := 30;
  memory_pressure_mb := 512;
  max_vram_target_mb := 1024
|}.

(** [VideoCommon::ImageId], a 32-bit slot index. *)
Definition ImageId : Type := Z.

Record TextureInfo : Type := {
  size_bytes : Z;
  last_used_frame : Z;
  is_render_target : bool;
  usage_count : Z
}.

(** [tracked_textures_] is a [std::unordered_map<ImageId, TextureInfo>].
    Its contents are kept as an association list with one entry per key,
    in the order in which a range-[for] over the map visits them: that order
    is the implementation's choice, and both [GetTexturesToPurge] and
    [ForceCleanup] depend on it. *)
Definition Registry : Type := list (ImageId * TextureInfo).

Record TextureGarbageCollector : Type := {
  config_ : Config;
  current_frame_ : Z;
  current_vram_usage_ : Z;
  tracked_textures_ : Registry;
  total_textures_purged_ : Z;
  total_vram_freed_ : Z
}.

Record Stats : Type := {
  total_textures : Z;
  total_vram_mb : Z;
  textures_purged : Z;
  vram_freed_mb : Z;
  current_frame : Z
}.

(** [tracked_textures_.find(id)] *)
Fixpoint find (id : ImageId) (r : Registry) : option TextureInfo :=
  match r with
  | [] => None
  | (k, info) :: rest => if k =? id then Some info else find id rest
  end.

(** [tracked_textures_[id] = info]: an existing node keeps its place and gets
    the new value; a new node is linked in at the head of the element list
    (where the common standard libraries put a node whose bucket was empty). *)
Fixpoint replace (id : ImageId) (info : TextureInfo) (r : Registry) : Registry :=
  match r with
  | [] => []
  | (k, old) :: rest =>
      if k =? id then (k, info) :: rest else (k, old) :: replace id info rest
  end.

Definition assign (id : ImageId) (info : TextureInfo) (r : Registry) : Registry :=
  match find id r with
  | Some _ => replace id info r
  | None => (id, info) :: r
  end.

(** [tracked_textures_.erase(it)] for the iterator [find(id)] returned. *)
Fixpoint erase (id : ImageId) (r : Registry) : Registry :=
  match r with
  | [] => []
  | (k, info) :: rest => if k =? id then rest else (k, info) :: erase id rest
  end.

Definition construct (config : Config) : TextureGarbageCollector := {|
  config_ := config;
  current_frame_ := 0;
  current_vram_usage_ := 0;
  tracked_textures_ := [];
  total_textures_purged_ := 0;
  total_vram_freed_ := 0
|}.

Definition with_frame (frame : Z) (g : TextureGarbageCollector)
    : TextureGarbageCollector := {|
  config_ := config_ g;
  current_frame_ := frame;
  current_vram_usage_ := current_vram_usage_ g;
  tracked_textures_ := tracked_textures_ g;
  total_textures_purged_ := total_textures_purged_ g;
  total_vram_freed_ := total_vram_freed_ g
|}.

Definition with_tracked (usage : Z) (r : Registry) (g : TextureGarbageCollector)
    : TextureGarbageCollector := {|
  config_ := config_ g;
  current_frame_ := current_frame_ g;
  current_vram_usage_ := usage;
  tracked_textures_ := r;
  total_textures_purged_ := total_textures_purged_ g;
  total_vram_freed_ := total_vram_freed_ g
|}.

Definition with_purge_stats (purged freed : Z) (g : TextureGarbageCollector)
    : TextureGarbageCollector := {|
  config_ := config_ g;
  current_frame_ := current_frame_ g;
  current_vram_usage_ := current_vram_usage_ g;
  tracked_textures_ := tracked_textures_ g;
  total_textures_purged_ := purged;
  total_vram_freed_ := freed
|}.

(** [current_frame_++]; the periodic log line only reads [GetStats]. *)
Definition TickFrame (g : TextureGarbageCollector) : TextureGarbageCollector :=
  with_frame (u32 (current_frame_ g + 1)) g.

Definition MarkTextureUsed (image_id : ImageId) (g : TextureGarbageCollector)
    : TextureGarbageCollector :=
  match find image_id (tracked_textures_ g) with
  | Some info =>
      with_tracked (current_vram_usage_ g)
        (replace image_id
           {| size_bytes := size_bytes info;
              last_used_frame := current_frame_ g;
              is_render_target := is_render_target info;
              usage_count := u32 (usage_count info + 1) |}
           (tracked_textures_ g)) g
  | None => g
  end.

Definition RegisterTexture (image_id : ImageId) (size : Z) (render_target : bool)
    (g : TextureGarbageCollector) : TextureGarbageCollector :=
  let info := {| size_bytes := size;
                 last_used_frame := current_frame_ g;
                 is_render_target := render_target;
                 usage_count := 1 |} in
  with_tracked (u64 (current_vram_usage_ g + size))
               (assign image_id info (tracked_textures_ g)) g.

Definition UnregisterTexture (image_id : ImageId) (g : TextureGarbageCollector)
    : TextureGarbageCollector :=
  match find image_id (tracked_textures_ g) with
  | Some info =>
      with_tracked (u64 (current_vram_usage_ g - size_bytes info))
                   (erase image_id (tracked_textures_ g)) g
  | None => g
  end.

Definition IsMemoryPressureHigh (g : TextureGarbageCollector) : bool :=
  let vram_mb := current_vram_usage_ g / 1024 / 1024 in
  (memory_pressure_mb (config_ g) <? vram_mb)
  || (max_vram_target_mb (config_ g) <? vram_mb).

Definition UpdateMemoryUsage (current_vram_bytes : Z) (g : TextureGarbageCollector)
    : TextureGarbageCollector :=
  with_tracked current_vram_bytes (tracked_textures_ g) g.

Definition GetEffectiveThreshold (g : TextureGarbageCollector) : Z :=
  if aggressive_mode (config_ g) && IsMemoryPressureHigh g
  then aggressive_threshold (config_ g)
  else unused_frame_threshold (config_ g).

Definition ShouldPurgeTexture (g : TextureGarbageCollector) (info : TextureInfo)
    (frames_unused : Z) : bool :=
  let threshold := GetEffectiveThreshold g in
  if frames_unused <? threshold then false
  else if is_render_target info then u32 (threshold * 2) <? frames_unused
  else if 100 <? usage_count info then u32 (threshold + 30) <? frames_unused
  else if IsMemoryPressureHigh g then threshold / 2 <? frames_unused
  else threshold <=? frames_unused.

(** [std::sort] with a "comes before" predicate.  The standard leaves the
    relative order of equivalent elements open; the order taken here is the
    one insertion sort produces (equivalent elements keep their order), which
    is also what libstdc++ does for ranges of at most 16 elements; a range
    whose elements are all equivalent is left as it is by any sort that moves
    elements only when the predicate says so. *)
Section Sort.
Context {A : Type} (before : A -> A -> bool).

Fixpoint insert_sorted (x : A) (l : list A) : list A :=
  match l with
  | [] => [x]
  | y :: rest => if before y x then y :: insert_sorted x rest else x :: y :: rest
  end.

Definition sort (l : list A) : list A := fold_right insert_sorted [] l.

End Sort.

(** The lambda of [SortTexturesByPriority].  [tracked_textures_.at(id)] throws
    for an untracked id; the ids sorted are always tracked, and an untracked
    one is given a zero record here. *)
Definition info_at (r : Registry) (id : ImageId) : TextureInfo :=
  match find id r with
  | Some info => info
  | None => {| size_bytes := 0; last_used_frame := 0;
               is_render_target := false; usage_count := 0 |}
  end.

Definition priority_before (r : Registry) (a b : ImageId) : bool :=
  let info_a := info_at r a in
  let info_b := info_at r b in
  if negb (Bool.eqb (is_render_target info_a) (is_render_target info_b))
  then negb (is_render_target info_a) && is_render_target info_b
  else if negb (size_bytes info_a =? size_bytes info_b)
  then size_bytes info_b <? size_bytes info_a
  else usage_count info_a <? usage_count info_b.

Definition SortTexturesByPriority (g : TextureGarbageCollector) (textures : list ImageId)
    : list ImageId :=
  sort (priority_before (tracked_textures_ g)) textures.

Definition frames_unused_of (g : TextureGarbageCollector) (info : TextureInfo) : Z :=
  u32 (current_frame_ g - last_used_frame info).

(** The statistics loop closing [GetTexturesToPurge]. *)
Fixpoint count_purged (r : Registry) (ids : list ImageId) (purged freed : Z) : Z * Z :=
  match ids with
  | [] => (purged, freed)
  | id :: rest =>
      match find id r with
      | Some info => count_purged r rest (u64 (purged + 1)) (u64 (freed + size_bytes info))
      | None => count_purged r rest purged freed
      end
  end.

Definition GetTexturesToPurge (g : TextureGarbageCollector)
    : list ImageId * TextureGarbageCollector :=
  let selected :=
    map fst (filter (fun e => ShouldPurgeTexture g (snd e) (frames_unused_of g (snd e)))
                    (tracked_textures_ g)) in
  let sorted := SortTexturesByPriority g selected in
  let to_purge :=
    if IsMemoryPressureHigh g && (10 <? Z.of_nat (length sorted))
    then firstn 50 sorted else sorted in
  let '(purged, freed) :=
    count_purged (tracked_textures_ g) to_purge
                 (total_textures_purged_ g) (total_vram_freed_ g) in
  (to_purge, with_purge_stats purged freed g).

(** The candidate loop of [ForceCleanup]; [freed] is a [u64]. *)
Fixpoint force_loop (candidates : list (ImageId * Z)) (freed target_bytes : Z)
    (g : TextureGarbageCollector) : Z * TextureGarbageCollector :=
  match candidates with
  | [] => (freed, g)
  | (image_id, _) :: rest =>
      if target_bytes <=? freed then (freed, g)
      else
        match find image_id (tracked_textures_ g) with
        | Some info =>
            force_loop rest (u64 (freed + size_bytes info)) target_bytes
                       (UnregisterTexture image_id g)
        | None => force_loop rest freed target_bytes g
        end
  end.

Definition force_candidates (g : TextureGarbageCollector) : list (ImageId * Z) :=
  map (fun e => (fst e, frames_unused_of g (snd e)))
      (filter (fun e => negb (is_render_target (snd e))
                        && (10 <? frames_unused_of g (snd e)))
              (tracked_textures_ g)).

Definition ForceCleanup (target_free_mb : Z) (g : TextureGarbageCollector)
    : TextureGarbageCollector :=
  let candidates :=
    sort (fun a b : ImageId * Z => snd b <? snd a) (force_candidates g) in
  let target_bytes := u64 (target_free_mb * 1024 * 1024) in
  snd (force_loop candidates 0 target_bytes g).

Definition GetStats (g : TextureGarbageCollector) : Stats := {|
  total_textures := Z.of_nat (length (tracked_textures_ g));
  total_vram_mb := current_vram_usage_ g / 1024 / 1024;
  textures_purged := total_textures_purged_ g;
  vram_freed_mb := total_vram_freed_ g / 1024 / 1024;
  current_frame := current_frame_ g
|}.

(** Sum of the sizes of the tracked textures, as a plain integer. *)
Definition tracked_bytes (r : Registry) : Z :=
  fold_right (fun e acc => size_bytes (snd e) + acc) 0 r.

(** The registry holds at most one entry per id, as a map does. *)
Definition unique_keys (r : Registry) : Prop := NoDup (map fst r).

(** *** Scenarios *)

(** One 600 MiB texture registered on a default engine and left unused for
    twenty frames: the estimate (600 MiB) is above [memory_pressure_mb]. *)
Definition one_cold_texture : TextureGarbageCollector :=
  Nat.iter 20 TickFrame (RegisterTexture 1 (600 * MiB) false (construct default_config)).



(** A texture that is not a render target. *)
Definition plain_texture (size last_used uses : Z) : TextureInfo :=
  {| size_bytes := size; last_used_frame := last_used;
     is_render_target := false; usage_count := uses |}.

(** *** Call sequences

    The public entry points, as a host drives them one after another. *)
Inductive Call : Type :=
| CallTickFrame
| CallMarkTextureUsed (image_id : ImageId)
| CallRegisterTexture (image_id : ImageId) (size : Z) (render_target : bool)
| CallUnregisterTexture (image_id : ImageId)
| CallGetTexturesToPurge
| CallForceCleanup (target_free_mb : Z)
| CallUpdateMemoryUsage (current_vram_bytes : Z).

Definition perform (c : Call) (g : TextureGarbageCollector) : TextureGarbageCollector :=
  match c with
  | CallTickFrame => TickFrame g
  | CallMarkTextureUsed id => MarkTextureUsed id g
  | CallRegisterTexture id size rt => RegisterTexture id size rt g
  | CallUnregisterTexture id => UnregisterTexture id g
  | CallGetTexturesToPurge => snd (GetTexturesToPurge g)
  | CallForceCleanup mb => ForceCleanup mb g
  | CallUpdateMemoryUsage bytes => UpdateMemoryUsage bytes g
  end.

Definition run (cs : list Call) (g : TextureGarbageCollector) : TextureGarbageCollector :=
  fold_left (fun st c => perform c st) cs g.

Definition is_tracked (id : ImageId) (g : TextureGarbageCollector) : bool :=
  match find id (tracked_textures_ g) with Some _ => true | None => false end.

(** A call keeps the estimate in the engine's own hands when it registers
    only ids that are not tracked at that moment and does not overwrite the
    estimate from outside. *)
Definition self_accounted (c : Call) (g : TextureGarbageCollector) : bool :=
  match c with
  | CallRegisterTexture id _ _ => negb (is_tracked id g)
  | CallUpdateMemoryUsage _ => false
  | _ => true
  end.

Fixpoint all_self_accounted (cs : list Call) (g : TextureGarbageCollector) : bool :=
  match cs with
  | [] => true
  | c :: rest => self_accounted c g && all_self_accounted rest (perform c g)
  end.

(** The test of the candidate loop of [ForceCleanup]. *)
Definition force_eligible (g : TextureGarbageCollector) (info : TextureInfo) : bool :=
  negb (is_render_target info) && (10 <? frames_unused_of g info).

(** The estimate agrees with the registry. *)
Definition accounted (g : TextureGarbageCollector) : Prop :=
  current_vram_usage_ g = u64 (tracked_bytes (tracked_textures_ g)).

(** "[a] is not to come after [b]" for the lambda of
    [SortTexturesByPriority]: the lambda does not put [b] before [a]. *)
Definition priority_ordered (r : Registry) (a b : ImageId) : Prop :=
  priority_before r b a = false.

(** A small engine for the examples: two plain textures and a render target
    registered at frame 0 on a default engine, then two hundred idle frames. *)
Definition mixed_textures : TextureGarbageCollector :=
  Nat.iter 200 TickFrame
    (RegisterTexture 3 (8 * MiB) true
       (RegisterTexture 2 (2 * MiB) false
          (RegisterTexture 1 (4 * MiB) false (construct default_config)))).

(** Sum of the sizes recorded for the ids of a list. *)
Definition listed_bytes (r : Registry) (ids : list ImageId) : Z :=
  fold_right (fun id acc => size_bytes (info_at r id) + acc) 0 ids.

(** The selection test of [GetTexturesToPurge], on a registry entry. *)
Definition purgeable (g : TextureGarbageCollector) (e : ImageId * TextureInfo) : bool :=
  ShouldPurgeTexture g (snd e) (frames_unused_of g (snd e)).

End TextureGC.

(** ** Rounding to binary32, as integer arithmetic

    The shift-and-round of [SpecFloat.binary_round_aux] on a truncated
    positive number: mantissa [m], round bit [r] and sticky bit [s] are
    packed into one integer, on which every step is monotone. *)

Module Rounding.

(** [4 * m + 2 * r + s]: the position of a number among the multiples of a
    quarter of a unit in the last place, up to the three inexact places
    (below half, half, above half). *)
Definition code (m : Z) (r s : bool) : Z :=
  4 * m + (if r then 2 else 0) + (if s then 1 else 0).

Definition code_of_record (mrs : shr_record) : Z :=
  code (shr_m mrs) (shr_r mrs) (shr_s mrs).

Definition code_of_loc (m : Z) (l : location) : Z :=
  code_of_record (shr_record_of_loc m l).

(** [shr_1] on codes: one bit of the mantissa moves into the round bit. *)
Definition shr1_code (c : Z) : Z :=
  2 * (c / 4) + (if c mod 4 =? 0 then 0 else 1).

(** [round_nearest_even] on codes. *)
Definition rne_code (c : Z) : Z :=
  c / 4 + (if c mod 4 =? 3 then 1
           else if c mod 4 =? 2 then (c / 4) mod 2 else 0).

(** A rounded 24-bit mantissa [M] in [2^23, 2^24] with its exponent, brought
    back to 24 bits when the rounding carried. *)
Definition normal (M E : Z) : Z * Z :=
  if M <? 2 ^ 24 then (M, E) else (2 ^ 23, E + 1).

Definition finite (p : Z * Z) : spec_float :=
  S754_finite false (Z.to_pos (fst p)) (snd p).

(** Mantissa [m] at exponent [e] is below or equal to [m'] at [e'], for
    24-bit mantissas. *)
Definition lex_le (p p' : Z * Z) : Prop :=
  snd p < snd p' \/ (snd p = snd p' /\ fst p <= fst p').

(** A 24-bit mantissa. *)
Definition mantissa24 (m : Z) : Prop := 2 ^ 23 <= m < 2 ^ 24.

(** The code of the quotient [N / D] with the place of its remainder. *)
Definition rank_rem (r D : Z) : Z :=
  if r =? 0 then 0
  else match 2 * r ?= D with Lt => 1 | Eq => 2 | Gt => 3 end.

Definition divcode (N D : Z) : Z := 4 * (N / D) + rank_rem (N mod D) D.

(** The code of the integer [a] with [d] binary digits, at the scale at
    which it has 24 bits before the point. *)
Definition u64_code (a d : Z) : Z :=
  if d <=? 24 then 4 * (a * 2 ^ (24 - d))
  else Nat.iter (Z.to_nat (d - 24)) shr1_code (4 * a).

(** Numerator and exponent of the quotient of two 24-bit mantissas, scaled
    so that the quotient has 24 bits before the point. *)
Definition quotient_scale (m1 e1 m2 e2 : Z) : Z * Z :=
  if m1 <? m2 then (m1 * 2 ^ 24, e1 - e2 - 24) else (m1 * 2 ^ 23, e1 - e2 - 23).

(** [static_cast<float>(a)] for [0 < a < 2^64], as a mantissa with its
    exponent. *)
Definition u64_pair (a : Z) : Z * Z :=
  normal (rne_code (u64_code a (Zdigits2 a))) (Zdigits2 a - 24).

(** The quotient of two positive normal floats, as a mantissa with its
    exponent. *)
Definition quotient_pair (p q : Z * Z) : Z * Z :=
  normal (rne_code (divcode (fst (quotient_scale (fst p) (snd p) (fst q) (snd q)))
                            (fst q)))
         (snd (quotient_scale (fst p) (snd p) (fst q) (snd q))).

End Rounding.

Module VRAMFacts.
Import VRAM.

Section Gates.
Context {World : Type}.
Implicit Types (s : Machine World) (m : VRAMManager World).

Lemma ExecuteCleanup_closed s :
  cleanup_gate_open (self s) = false -> ExecuteCleanup s = s.
Proof.
  unfold cleanup_gate_open, ExecuteCleanup. intros H.
  destruct (enable_auto_cleanup (config_ (self s))); simpl in *; [|reflexivity].
  destruct (Z.leb_spec cleanup_min_interval
              (u32 (current_frame_ (self s) - last_cleanup_frame_ (self s)))); [discriminate|].
  destruct (Z.ltb_spec (u32 (current_frame_ (self s) - last_cleanup_frame_ (self s)))
              cleanup_min_interval); [reflexivity|lia].
Qed.

Lemma ExecuteCleanup_open s :
  cleanup_gate_open (self s) = true ->
  ExecuteCleanup s =
    {| self := record_cleanup (fst (fst (cleanup_pass (self s) (host s)))) (self s);
       host := snd (fst (cleanup_pass (self s) (host s)));
       calls := calls s ++ snd (cleanup_pass (self s) (host s)) |}.
Proof.
  unfold cleanup_gate_open, ExecuteCleanup, cleanup_pass. intros H.
  apply andb_true_iff in H. destruct H as [He Hg]. rewrite He. simpl.
  apply Z.leb_le in Hg.
  destruct (Z.ltb_spec (u32 (current_frame_ (self s) - last_cleanup_frame_ (self s)))
              cleanup_min_interval); [lia|].
  destruct (run_cleanup_callbacks _ _ _ _) as [[t w] e]. reflexivity.
Qed.

Lemma ExecuteEmergencyPurge_closed s :
  emergency_gate_open (self s) = false -> ExecuteEmergencyPurge s = s.
Proof.
  unfold emergency_gate_open, ExecuteEmergencyPurge. intros H.
  destruct (enable_emergency_purge (config_ (self s))); simpl in *; [|reflexivity].
  destruct (Z.leb_spec emergency_min_interval
              (u32 (current_frame_ (self s) - last_emergency_frame_ (self s)))); [discriminate|].
  destruct (Z.ltb_spec (u32 (current_frame_ (self s) - last_emergency_frame_ (self s)))
              emergency_min_interval); [reflexivity|lia].
Qed.

Lemma ExecuteEmergencyPurge_open s :
  emergency_gate_open (self s) = true ->
  ExecuteEmergencyPurge s =
    on_self record_emergency
      (ExecuteCleanup {| self := self s;
                         host := fst (emergency_pass (self s) (host s));
                         calls := calls s ++ snd (emergency_pass (self s) (host s)) |}).
Proof.
  unfold emergency_gate_open, ExecuteEmergencyPurge, emergency_pass. intros H.
  apply andb_true_iff in H. destruct H as [He Hg]. rewrite He. simpl.
  apply Z.leb_le in Hg.
  destruct (Z.ltb_spec (u32 (current_frame_ (self s) - last_emergency_frame_ (self s)))
              emergency_min_interval); [lia|].
  destruct (run_emergency_callbacks _ _ _) as [w e]. reflexivity.
Qed.

Lemma run_cleanup_callbacks_events cbs : forall i t (w : World),
  forallb is_cleanup_event (snd (run_cleanup_callbacks cbs i t w)) = true
  /\ length (snd (run_cleanup_callbacks cbs i t w)) = length cbs.
Proof.
  induction cbs as [|cb rest IH]; intros i t w; simpl; [auto|].
  destruct (cb w) as [freed w1].
  specialize (IH (S i) (u64 (t + u64 freed)) w1).
  destruct (run_cleanup_callbacks rest (S i) (u64 (t + u64 freed)) w1) as [[t' w2] evs].
  simpl in *. destruct IH as [IH1 IH2]. split; [assumption|congruence].
Qed.

Lemma run_emergency_callbacks_events cbs : forall i (w : World),
  forallb is_emergency_event (snd (run_emergency_callbacks cbs i w)) = true
  /\ length (snd (run_emergency_callbacks cbs i w)) = length cbs.
Proof.
  induction cbs as [|cb rest IH]; intros i w; simpl; [auto|].
  specialize (IH (S i) (cb w)).
  destruct (run_emergency_callbacks rest (S i) (cb w)) as [w2 evs].
  simpl in *. destruct IH as [IH1 IH2]. split; [assumption|congruence].
Qed.


Lemma quiet_refl s : quiet s s.
Proof.
  repeat split. exists []. now rewrite app_nil_r.
Qed.

Lemma quiet_trans s1 s2 s3 : quiet s1 s2 -> quiet s2 s3 -> quiet s1 s3.
Proof.
  intros (A1 & A2 & A3 & A4 & e1 & A5 & A6) (B1 & B2 & B3 & B4 & e2 & B5 & B6).
  repeat split; try congruence.
  exists (e1 ++ e2). rewrite B5, A5, app_assoc, forallb_app, A6, B6. auto.
Qed.

Lemma gate_closed_of_quiet s s' :
  quiet s s' -> cleanup_gate_open (self s') = cleanup_gate_open (self s).
Proof.
  intros (A1 & A2 & A3 & _). unfold cleanup_gate_open. now rewrite A1, A2, A3.
Qed.

Lemma quiet_ExecuteCleanup s :
  cleanup_gate_open (self s) = false -> quiet s (ExecuteCleanup s).
Proof.
  intros H. rewrite ExecuteCleanup_closed by assumption. apply quiet_refl.
Qed.

Lemma quiet_ExecuteEmergencyPurge s :
  cleanup_gate_open (self s) = false -> quiet s (ExecuteEmergencyPurge s).
Proof.
  intros H. destruct (emergency_gate_open (self s)) eqn:G.
  - rewrite ExecuteEmergencyPurge_open by assumption.
    rewrite ExecuteCleanup_closed by exact H.
    repeat split. simpl. eexists. split; [reflexivity|].
    apply run_emergency_callbacks_events.
  - rewrite ExecuteEmergencyPurge_closed by assumption. apply quiet_refl.
Qed.

Lemma quiet_on_self_keep (f : VRAMManager World -> VRAMManager World) s :
  (forall m, config_ (f m) = config_ m /\ current_frame_ (f m) = current_frame_ m
             /\ last_cleanup_frame_ (f m) = last_cleanup_frame_ m
             /\ cleanup_count_ (f m) = cleanup_count_ m) ->
  quiet s (on_self f s).
Proof.
  intros H. destruct (H (self s)) as (A & B & C & D).
  repeat split; simpl; try assumption. exists []. now rewrite app_nil_r.
Qed.

Lemma quiet_HandlePressureChange p s :
  cleanup_gate_open (self s) = false -> quiet s (HandlePressureChange p s).
Proof.
  intros H. unfold HandlePressureChange.
  assert (Q1 : quiet s (if pressure_rank MP_High <=? pressure_rank p
                        then ExecuteCleanup s else s)).
  { destruct (_ <=? _); [now apply quiet_ExecuteCleanup | apply quiet_refl]. }
  destruct (pressure_eqb p MP_Critical); [|exact Q1].
  eapply quiet_trans; [exact Q1|].
  apply quiet_ExecuteEmergencyPurge. now rewrite (gate_closed_of_quiet _ _ Q1).
Qed.

Lemma ShouldCleanup_closed m :
  cleanup_gate_open m = false -> ShouldCleanup m = false.
Proof.
  unfold cleanup_gate_open, ShouldCleanup. intros H.
  destruct (enable_auto_cleanup (config_ m)); simpl in *; [|reflexivity].
  rewrite H. apply andb_false_r.
Qed.

Lemma quiet_UpdateUsage bytes s :
  cleanup_gate_open (self s) = false -> quiet s (UpdateUsage bytes s).
Proof.
  intros H. unfold UpdateUsage.
  set (s0 := on_self _ s).
  assert (Q0 : quiet s s0) by (apply quiet_on_self_keep; intros m; repeat split).
  set (np := CalculatePressure (self s0)).
  set (s1 := if pressure_eqb np (last_pressure_ (self s0)) then s0 else _).
  assert (Q1 : quiet s s1).
  { subst s1. destruct (pressure_eqb _ _); [exact Q0|].
    eapply quiet_trans; [exact Q0|].
    eapply quiet_trans.
    - apply quiet_HandlePressureChange. now rewrite (gate_closed_of_quiet _ _ Q0).
    - apply quiet_on_self_keep; intros m; repeat split. }
  rewrite ShouldCleanup_closed by (now rewrite (gate_closed_of_quiet _ _ Q1)).
  destruct (ShouldEmergencyPurge (self s1)); [|exact Q1].
  eapply quiet_trans; [exact Q1|].
  apply quiet_ExecuteEmergencyPurge. now rewrite (gate_closed_of_quiet _ _ Q1).
Qed.

Lemma u32_tick cur last :
  u32 (u32 (cur + 1) - last) = u32 (u32 (cur - last) + 1).
Proof.
  unfold u32. rewrite Zminus_mod_idemp_l, Zplus_mod_idemp_l. f_equal. lia.
Qed.

Lemma gate_closed_below m k :
  u32 (current_frame_ m - last_cleanup_frame_ m) = Z.of_nat k ->
  (k < 60)%nat -> cleanup_gate_open m = false.
Proof.
  intros E Hk. unfold cleanup_gate_open, cleanup_min_interval. rewrite E.
  destruct (Z.leb_spec 60 (Z.of_nat k)); [lia|]. apply andb_false_r.
Qed.

(** One call made [k < 60] frames after the cleanup at [last_cleanup_frame_]. *)
Lemma perform_within_interval (c : Call World) s k :
  u32 (current_frame_ (self s) - last_cleanup_frame_ (self s)) = Z.of_nat k ->
  (k + ticks_in [c] < 60)%nat ->
  u32 (current_frame_ (self (perform c s)) - last_cleanup_frame_ (self (perform c s)))
    = Z.of_nat (k + ticks_in [c])
  /\ last_cleanup_frame_ (self (perform c s)) = last_cleanup_frame_ (self s)
  /\ cleanup_count_ (self (perform c s)) = cleanup_count_ (self s)
  /\ exists evs, calls (perform c s) = calls s ++ evs
                 /\ forallb is_emergency_event evs = true.
Proof.
  intros E Hk.
  assert (G : cleanup_gate_open (self s) = false)
    by (apply (gate_closed_below _ k); [assumption|lia]).
  assert (from_quiet : forall s', ticks_in [c] = 0%nat -> quiet s s' ->
    u32 (current_frame_ (self s') - last_cleanup_frame_ (self s'))
      = Z.of_nat (k + ticks_in [c])
    /\ last_cleanup_frame_ (self s') = last_cleanup_frame_ (self s)
    /\ cleanup_count_ (self s') = cleanup_count_ (self s)
    /\ exists evs, calls s' = calls s ++ evs
                   /\ forallb is_emergency_event evs = true).
  { intros s' T (A1 & A2 & A3 & A4 & A5). rewrite T, Nat.add_0_r, A2, A3. auto. }
  destruct c; simpl perform.
  - apply from_quiet; [reflexivity|]. now apply quiet_UpdateUsage.
  - unfold TickFrame. simpl. rewrite u32_tick, E.
    repeat split.
    + unfold ticks_in in *. simpl in *. unfold u32.
      rewrite Z.mod_small; lia.
    + exists []. now rewrite app_nil_r.
  - apply from_quiet; [reflexivity|]. now apply quiet_ExecuteCleanup.
  - apply from_quiet; [reflexivity|]. now apply quiet_ExecuteEmergencyPurge.
  - apply from_quiet; [reflexivity|].
    apply quiet_on_self_keep; intros m; repeat split.
  - apply from_quiet; [reflexivity|].
    apply quiet_on_self_keep; intros m; repeat split.
Qed.

Lemma ticks_in_cons (c : Call World) cs :
  ticks_in (c :: cs) = (ticks_in [c] + ticks_in cs)%nat.
Proof.
  unfold ticks_in. simpl. destruct (is_tick c); reflexivity.
Qed.

Lemma run_within_interval (cs : list (Call World)) : forall s k,
  u32 (current_frame_ (self s) - last_cleanup_frame_ (self s)) = Z.of_nat k ->
  (k + ticks_in cs < 60)%nat ->
  last_cleanup_frame_ (self (run cs s)) = last_cleanup_frame_ (self s)
  /\ cleanup_count_ (self (run cs s)) = cleanup_count_ (self s)
  /\ exists evs, calls (run cs s) = calls s ++ evs
                 /\ forallb is_emergency_event evs = true.
Proof.
  induction cs as [|c cs IH]; intros s k E Hk.
  - simpl. repeat split. exists []. now rewrite app_nil_r.
  - rewrite ticks_in_cons in Hk.
    destruct (perform_within_interval c s k E) as (E1 & L1 & C1 & e1 & P1 & F1); [lia|].
    destruct (IH (perform c s) _ E1) as (L2 & C2 & e2 & P2 & F2); [lia|].
    change (run (c :: cs) s) with (run cs (perform c s)).
    repeat split; try congruence.
    exists (e1 ++ e2). rewrite P2, P1, app_assoc, forallb_app, F1, F2. auto.
Qed.

(** C5.  Once a cleanup has executed at frame [f], no call sequence that
    crosses fewer than [cleanup_min_interval] (60) frame boundaries invokes a
    cleanup callback again: whatever usages are reported and however often
    cleanup is requested in between, the cleanup count and the frame of the
    last cleanup stay put and every callback that runs is an emergency
    callback. *)
Theorem C5_no_cleanup_before_min_interval (s0 : Machine World) (cs : list (Call World)) :
  cleanup_gate_open (self s0) = true ->
  Z.of_nat (ticks_in cs) < cleanup_min_interval ->
  let s := ExecuteCleanup s0 in
  last_cleanup_frame_ (self s) = current_frame_ (self s0)
  /\ cleanup_count_ (self (run cs s)) = cleanup_count_ (self s)
  /\ exists evs, calls (run cs s) = calls s ++ evs
                 /\ forallb is_emergency_event evs = true.
Proof.
  intros G Hk s. subst s. rewrite (ExecuteCleanup_open s0 G).
  split; [reflexivity|].
  unfold cleanup_min_interval in Hk.
  destruct (run_within_interval cs
              {| self := record_cleanup (fst (fst (cleanup_pass (self s0) (host s0)))) (self s0);
                 host := snd (fst (cleanup_pass (self s0) (host s0)));
                 calls := calls s0 ++ snd (cleanup_pass (self s0) (host s0)) |} 0%nat)
    as (L & C & evs & P & F).
  - simpl. now rewrite Z.sub_diag.
  - lia.
  - split; [exact C|]. exists evs. split; assumption.
Qed.

End Gates.
End VRAMFacts.

Module VRAMScenario.
Import VRAM VRAMFacts.

Section Scenario.
Context {World : Type}.
Implicit Types (s : Machine World) (m : VRAMManager World).

Lemma u32_small z : 0 <= z < 2 ^ 32 -> u32 z = z.
Proof. intros H. unfold u32. apply Z.mod_small. exact H. Qed.

Lemma CalculatePressure_pressure_of m :
  CalculatePressure m = pressure_of (config_ m) (current_usage_ m).
Proof. reflexivity. Qed.

Lemma MidRange_pressure_800 : pressure_of GetRecommendedConfig_MidRange (800 * MiB) = MP_None.
Proof. vm_compute. reflexivity. Qed.
Lemma MidRange_pressure_1300 : pressure_of GetRecommendedConfig_MidRange (1300 * MiB) = MP_Medium.
Proof. vm_compute. reflexivity. Qed.
Lemma MidRange_pressure_1470 : pressure_of GetRecommendedConfig_MidRange (1470 * MiB) = MP_Critical.
Proof. vm_compute. reflexivity. Qed.

(** [UpdateUsage] once the new pressure level is known. *)
Lemma UpdateUsage_at s bytes peak p :
  (if peak_usage_ (self s) <? bytes then bytes else peak_usage_ (self s)) = peak ->
  pressure_of (config_ (self s)) bytes = p ->
  UpdateUsage bytes s =
    let s0 := on_self (set_usage bytes peak) s in
    let s1 := if pressure_eqb p (last_pressure_ (self s)) then s0
              else on_self (set_last_pressure p) (HandlePressureChange p s0) in
    let s2 := if ShouldCleanup (self s1) then ExecuteCleanup s1 else s1 in
    if ShouldEmergencyPurge (self s2) then ExecuteEmergencyPurge s2 else s2.
Proof.
  intros <- <-. reflexivity.
Qed.

Lemma ShouldCleanup_below m :
  current_usage_ m < cleanup_threshold_bytes (config_ m) -> ShouldCleanup m = false.
Proof.
  intros H. unfold ShouldCleanup.
  destruct (Z.leb_spec (cleanup_threshold_bytes (config_ m)) (current_usage_ m)); [lia|].
  now rewrite andb_false_r.
Qed.

Lemma ShouldEmergencyPurge_below m :
  current_usage_ m < emergency_threshold_bytes (config_ m) -> ShouldEmergencyPurge m = false.
Proof.
  intros H. unfold ShouldEmergencyPurge.
  destruct (Z.leb_spec (emergency_threshold_bytes (config_ m)) (current_usage_ m)); [lia|].
  now rewrite andb_false_r.
Qed.

Lemma ShouldCleanup_above m :
  cleanup_threshold_bytes (config_ m) <= current_usage_ m ->
  ShouldCleanup m = cleanup_gate_open m.
Proof.
  intros H. unfold ShouldCleanup, cleanup_gate_open.
  destruct (Z.leb_spec (cleanup_threshold_bytes (config_ m)) (current_usage_ m)); [|lia].
  now rewrite andb_true_r.
Qed.

Lemma ShouldEmergencyPurge_above m :
  emergency_threshold_bytes (config_ m) <= current_usage_ m ->
  ShouldEmergencyPurge m = emergency_gate_open m.
Proof.
  intros H. unfold ShouldEmergencyPurge, emergency_gate_open.
  destruct (Z.leb_spec (emergency_threshold_bytes (config_ m)) (current_usage_ m)); [|lia].
  now rewrite andb_true_r.
Qed.

Lemma cleanup_gate_at m d :
  enable_auto_cleanup (config_ m) = true ->
  u32 (current_frame_ m - last_cleanup_frame_ m) = d ->
  cleanup_gate_open m = (cleanup_min_interval <=? d).
Proof. intros E <-. unfold cleanup_gate_open. now rewrite E. Qed.

Lemma emergency_gate_at m d :
  enable_emergency_purge (config_ m) = true ->
  u32 (current_frame_ m - last_emergency_frame_ m) = d ->
  emergency_gate_open m = (emergency_min_interval <=? d).
Proof. intros E <-. unfold emergency_gate_open. now rewrite E. Qed.

Lemma step_800 s f lc le n k cs es :
  shape (self s) f lc le n k MP_None cs es ->
  let s' := UpdateUsage (800 * MiB) s in
  shape (self s') f lc le n k MP_None cs es /\ host s' = host s /\ calls s' = calls s.
Proof.
  intros [Hc Hf Hlc Hle Hn Hk Hp Hcs Hes] s'. subst s'.
  rewrite (UpdateUsage_at s _ _ MP_None eq_refl)
    by (rewrite Hc; exact MidRange_pressure_800).
  cbv zeta. rewrite Hp. change (pressure_eqb MP_None MP_None) with true. cbv iota.
  set (s0 := on_self _ s).
  rewrite (ShouldCleanup_below (self s0))
    by (unfold s0; cbn [self on_self set_usage config_ current_usage_];
        rewrite Hc; vm_compute; reflexivity).
  rewrite (ShouldEmergencyPurge_below (self s0))
    by (unfold s0; cbn [self on_self set_usage config_ current_usage_];
        rewrite Hc; vm_compute; reflexivity).
  repeat split; assumption.
Qed.

Lemma step_tick s f lc le n k p cs es :
  shape (self s) f lc le n k p cs es ->
  shape (self (TickFrame s)) (u32 (f + 1)) lc le n k p cs es
  /\ host (TickFrame s) = host s /\ calls (TickFrame s) = calls s.
Proof.
  intros [Hc Hf Hlc Hle Hn Hk Hp Hcs Hes].
  repeat split; try assumption. cbn. now rewrite Hf.
Qed.

Lemma step_1300 s f lc le n k cs es :
  shape (self s) f lc le n k MP_None cs es ->
  cleanup_min_interval <= u32 (f - lc) ->
  let s' := UpdateUsage (1300 * MiB) s in
  shape (self s') f f le (u32 (n + 1)) k MP_Medium cs es
  /\ host s' = snd (fst (run_cleanup_callbacks cs 0%nat 0 (host s)))
  /\ calls s' = calls s ++ snd (run_cleanup_callbacks cs 0%nat 0 (host s)).
Proof.
  intros [Hc Hf Hlc Hle Hn Hk Hp Hcs Hes] Hgate s'. subst s'.
  rewrite (UpdateUsage_at s _ _ MP_Medium eq_refl)
    by (rewrite Hc; exact MidRange_pressure_1300).
  cbv zeta. rewrite Hp. change (pressure_eqb MP_Medium MP_None) with false. cbv iota.
  change (HandlePressureChange MP_Medium ?x) with x.
  set (s1 := on_self (set_last_pressure MP_Medium) _).
  assert (G : cleanup_gate_open (self s1) = true).
  { rewrite (cleanup_gate_at (self s1) (u32 (f - lc))).
    - now apply Z.leb_le.
    - unfold s1. cbn [self on_self set_last_pressure set_usage config_]. now rewrite Hc.
    - unfold s1. cbn [self on_self set_last_pressure set_usage current_frame_
                      last_cleanup_frame_]. now rewrite Hf, Hlc. }
  rewrite (ShouldCleanup_above (self s1))
    by (unfold s1; cbn [self on_self set_last_pressure set_usage config_ current_usage_];
        rewrite Hc; vm_compute; discriminate).
  rewrite G, (ExecuteCleanup_open s1 G).
  rewrite ShouldEmergencyPurge_below
    by (unfold s1; cbn [self on_self set_last_pressure set_usage record_cleanup
                        config_ current_usage_];
        rewrite Hc; vm_compute; reflexivity).
  unfold cleanup_pass, s1.
  cbn [self host calls on_self set_last_pressure set_usage record_cleanup
       cleanup_callbacks_].
  rewrite Hcs.
  repeat split; cbn; try assumption; congruence.
Qed.

Lemma step_1470 s f lc le n k cs es :
  shape (self s) f lc le n k MP_Medium cs es ->
  u32 (f - lc) < cleanup_min_interval ->
  emergency_min_interval <= u32 (f - le) ->
  let s' := UpdateUsage (1470 * MiB) s in
  shape (self s') f lc f n (u32 (k + 1)) MP_Critical cs es
  /\ host s' = fst (run_emergency_callbacks es 0%nat (host s))
  /\ calls s' = calls s ++ snd (run_emergency_callbacks es 0%nat (host s)).
Proof.
  intros [Hc Hf Hlc Hle Hn Hk Hp Hcs Hes] Hcg Heg s'. subst s'.
  rewrite (UpdateUsage_at s _ _ MP_Critical eq_refl)
    by (rewrite Hc; exact MidRange_pressure_1470).
  cbv zeta. rewrite Hp. change (pressure_eqb MP_Critical MP_Medium) with false. cbv iota.
  change (HandlePressureChange MP_Critical ?x)
    with (ExecuteEmergencyPurge (ExecuteCleanup x)).
  set (s0 := on_self _ s).
  assert (G0 : cleanup_gate_open (self s0) = false).
  { rewrite (cleanup_gate_at (self s0) (u32 (f - lc))).
    - apply Z.leb_gt. exact Hcg.
    - unfold s0. cbn [self on_self set_usage config_]. now rewrite Hc.
    - unfold s0. cbn [self on_self set_usage current_frame_ last_cleanup_frame_].
      now rewrite Hf, Hlc. }
  assert (E0 : emergency_gate_open (self s0) = true).
  { rewrite (emergency_gate_at (self s0) (u32 (f - le))).
    - now apply Z.leb_le.
    - unfold s0. cbn [self on_self set_usage config_]. now rewrite Hc.
    - unfold s0. cbn [self on_self set_usage current_frame_ last_emergency_frame_].
      now rewrite Hf, Hle. }
  rewrite (ExecuteCleanup_closed s0 G0), (ExecuteEmergencyPurge_open s0 E0).
  rewrite ExecuteCleanup_closed by exact G0.
  set (s1 := on_self (set_last_pressure MP_Critical) _).
  assert (G1 : cleanup_gate_open (self s1) = false) by exact G0.
  assert (E1 : emergency_gate_open (self s1) = false).
  { rewrite (emergency_gate_at (self s1) 0).
    - reflexivity.
    - unfold s1, s0. cbn [self on_self set_last_pressure record_emergency set_usage config_].
      now rewrite Hc.
    - unfold s1, s0. cbn [self on_self set_last_pressure record_emergency set_usage
                          current_frame_ last_emergency_frame_].
      now rewrite Z.sub_diag. }
  rewrite (ShouldCleanup_closed (self s1) G1).
  rewrite (ShouldEmergencyPurge_above (self s1))
    by (unfold s1, s0; cbn [self on_self set_last_pressure record_emergency set_usage
                           config_ current_usage_];
        rewrite Hc; vm_compute; discriminate).
  rewrite E1.
  unfold s1, s0, emergency_pass.
  cbn [self host calls on_self set_last_pressure set_usage record_emergency
       emergency_callbacks_].
  rewrite Hes.
  repeat split; cbn; try assumption; congruence.
Qed.

Lemma shape_idle_at f0 cs es (w : World) :
  shape (self (idle_at f0 cs es w)) f0 0 0 0 0 MP_None cs es.
Proof. constructor; reflexivity. Qed.

(** C1 (amended).  A MidRange controller that has never cleaned up or purged
    and whose frame counter has reached [f0 >= 120] is fed 800, 1300 and
    1470 MiB in three consecutive frames.  The 800 MiB step invokes nothing;
    the 1300 MiB step runs exactly one cleanup (every cleanup callback once,
    in registration order); the 1470 MiB step runs exactly one emergency
    purge (every emergency callback once) and no cleanup callback: the
    cleanup pass inside the purge is held back by the 60-frame gate, the
    cleanup having run one frame earlier. *)
Theorem C1_midrange_rising_usage_after_startup cs es (w : World) f0 :
  120 <= f0 < 2 ^ 32 - 2 ->
  let s0 := idle_at f0 cs es w in
  let s1 := UpdateUsage (800 * MiB) s0 in
  let s2 := UpdateUsage (1300 * MiB) (TickFrame s1) in
  let s3 := UpdateUsage (1470 * MiB) (TickFrame s2) in
  (calls s1 = []
   /\ cleanup_count_ (self s1) = 0 /\ emergency_purge_count_ (self s1) = 0)
  /\ (calls s2 = snd (cleanup_pass (self s0) w)
      /\ cleanup_count_ (self s2) = 1 /\ emergency_purge_count_ (self s2) = 0)
  /\ (calls s3 = calls s2 ++ snd (emergency_pass (self s0) (host s2))
      /\ cleanup_count_ (self s3) = 1 /\ emergency_purge_count_ (self s3) = 1).
Proof.
  intros Hf s0 s1 s2 s3.
  destruct (step_800 s0 _ _ _ _ _ _ _ (shape_idle_at f0 cs es w)) as (S1 & H1 & C1).
  fold s1 in S1, H1, C1.
  destruct (step_tick s1 _ _ _ _ _ _ _ _ S1) as (S1' & H1' & C1').
  rewrite (u32_small (f0 + 1)) in S1' by lia.
  destruct (step_1300 (TickFrame s1) _ _ _ _ _ _ _ S1') as (S2 & H2 & C2).
  { rewrite Z.sub_0_r, u32_small by lia. unfold cleanup_min_interval. lia. }
  fold s2 in S2, H2, C2.
  destruct (step_tick s2 _ _ _ _ _ _ _ _ S2) as (S2' & H2' & C2').
  replace (u32 (f0 + 1 + 1)) with (f0 + 2) in S2' by (rewrite u32_small; lia).
  destruct (step_1470 (TickFrame s2) _ _ _ _ _ _ _ S2') as (S3 & H3 & C3).
  { replace (f0 + 2 - (f0 + 1)) with 1 by lia. vm_compute. reflexivity. }
  { rewrite Z.sub_0_r, u32_small by lia. unfold emergency_min_interval. lia. }
  fold s3 in S3, H3, C3.
  rewrite H1', H1 in C2. rewrite C1', C1 in C2. change (calls s0) with (@nil Event) in C2.
  change (host s0) with w in C2. cbn [app] in C2.
  rewrite C2' in C3. rewrite H2' in C3.
  destruct S1 as [_ _ _ _ N1 K1 _ _ _].
  destruct S2 as [_ _ _ _ N2 K2 _ _ _].
  destruct S3 as [_ _ _ _ N3 K3 _ _ _].
  repeat split; assumption.
Qed.

End Scenario.

(** C1, counterexample.  On a newly constructed MidRange controller the same
    three frames run no cleanup and no purge at all: both gates measure the
    elapsed frames from frame 0. *)
Lemma C1_fresh_controller_counterexample :
  let s1 := UpdateUsage (800 * MiB) fresh_midrange in
  let s2 := UpdateUsage (1300 * MiB) (TickFrame s1) in
  let s3 := UpdateUsage (1470 * MiB) (TickFrame s2) in
  (cleanup_count_ (self s2) = 0 /\ emergency_purge_count_ (self s3) = 0 /\ calls s3 = [])
  /\ ~ (cleanup_count_ (self s2) = 1 /\ emergency_purge_count_ (self s3) = 1).
Proof.
  vm_compute. split; [repeat split | intros [H _]; discriminate H].
Qed.

(** C1 (amended), at [f0 = 120] with one callback of each kind. *)
Lemma C1_midrange_rising_usage_witness :
  120 <= 120 < 2 ^ 32 - 2
  /\ let s0 := idle_at 120 [sample_cleanup] [sample_emergency] 0%nat in
     let s1 := UpdateUsage (800 * MiB) s0 in
     let s2 := UpdateUsage (1300 * MiB) (TickFrame s1) in
     let s3 := UpdateUsage (1470 * MiB) (TickFrame s2) in
     (calls s1 = []
      /\ cleanup_count_ (self s1) = 0 /\ emergency_purge_count_ (self s1) = 0)
     /\ (calls s2 = snd (cleanup_pass (self s0) 0%nat)
         /\ cleanup_count_ (self s2) = 1 /\ emergency_purge_count_ (self s2) = 0)
     /\ (calls s3 = calls s2 ++ snd (emergency_pass (self s0) (host s2))
         /\ cleanup_count_ (self s3) = 1 /\ emergency_purge_count_ (self s3) = 1).
Proof.
  split; [lia|].
  apply (C1_midrange_rising_usage_after_startup
           [sample_cleanup] [sample_emergency] 0%nat 120). lia.
Defined.


(** C5, on 59 frames of a host that reports 1300 MiB and requests a cleanup
    by hand in every frame. *)
Lemma C5_no_cleanup_before_min_interval_witness :
  let s0 := idle_at 100 [sample_cleanup] [sample_emergency] 0%nat in
  let cs := concat (repeat busy_frame 59) in
  cleanup_gate_open (self s0) = true
  /\ Z.of_nat (ticks_in cs) < cleanup_min_interval
  /\ (let s := ExecuteCleanup s0 in
      last_cleanup_frame_ (self s) = current_frame_ (self s0)
      /\ cleanup_count_ (self (run cs s)) = cleanup_count_ (self s)
      /\ exists evs, calls (run cs s) = calls s ++ evs
                     /\ forallb is_emergency_event evs = true).
Proof.
  intros s0 cs.
  assert (G : cleanup_gate_open (self s0) = true) by (vm_compute; reflexivity).
  assert (T : Z.of_nat (ticks_in cs) < cleanup_min_interval) by (vm_compute; reflexivity).
  split; [exact G|]. split; [exact T|].
  exact (C5_no_cleanup_before_min_interval s0 cs G T).
Defined.

End VRAMScenario.

Module PoolFacts.
Import Pool.

Lemma existsb_eqb_In b l : existsb (Z.eqb b) l = true <-> In b l.
Proof.
  rewrite existsb_exists. split.
  - intros (x & Hx & E). apply Z.eqb_eq in E. now subst.
  - intros H. exists b. split; [assumption|apply Z.eqb_refl].
Qed.

Lemma existsb_eqb_notin b l : ~ In b l -> existsb (Z.eqb b) l = false.
Proof.
  intros H. destruct (existsb (Z.eqb b) l) eqn:E; [|reflexivity].
  apply existsb_eqb_In in E. contradiction.
Qed.

Lemma filter_other_notin b l :
  ~ In b l -> filter (fun x => negb (x =? b)) l = l.
Proof.
  induction l as [|x l IH]; simpl; intros H; [reflexivity|].
  destruct (Z.eqb_spec x b) as [->|N]; simpl.
  - exfalso. apply H. now left.
  - f_equal. apply IH. intros I. apply H. now right.
Qed.

Lemma filter_other_length b l :
  NoDup l -> In b l -> S (length (filter (fun x => negb (x =? b)) l)) = length l.
Proof.
  induction 1 as [|x l Hx Hl IH]; simpl; intros I; [contradiction|].
  destruct (Z.eqb_spec x b) as [->|N]; simpl.
  - now rewrite filter_other_notin.
  - destruct I as [->|I]; [contradiction|]. now rewrite IH.
Qed.

Lemma filter_other_In b x l :
  In x (filter (fun y => negb (y =? b)) l) <-> In x l /\ x <> b.
Proof.
  rewrite filter_In. split; intros [H1 H2]; split; try assumption.
  - intros ->. now rewrite Z.eqb_refl in H2.
  - now destruct (Z.eqb_spec x b).
Qed.

Lemma tracked_among_same all all' held :
  (forall h, In h held -> (In h all' <-> In h all)) ->
  tracked_among all' held = tracked_among all held.
Proof.
  intros H. unfold tracked_among. apply filter_ext_in. intros h Hh.
  destruct (existsb (Z.eqb h) all) eqn:E.
  - apply existsb_eqb_In. apply H; [assumption|]. now apply existsb_eqb_In.
  - destruct (existsb (Z.eqb h) all') eqn:E'; [|reflexivity].
    apply existsb_eqb_In in E'. apply H in E'; [|assumption].
    apply existsb_eqb_In in E'. congruence.
Qed.

Lemma tracked_among_drop_untracked all b l :
  ~ In b all -> tracked_among all (drop_handle b l) = tracked_among all l.
Proof.
  intros Na. unfold tracked_among, drop_handle.
  induction l as [|x l IH]; simpl; [reflexivity|].
  destruct (Z.eqb_spec x b) as [->|N]; simpl.
  - rewrite (existsb_eqb_notin _ _ Na). apply IH.
  - destruct (existsb (Z.eqb x) all); simpl; [f_equal|]; apply IH.
Qed.

Lemma filter_swap {A : Type} (f g : A -> bool) (l : list A) :
  filter f (filter g l) = filter g (filter f l).
Proof.
  induction l as [|x l IH]; simpl; [reflexivity|].
  destruct (g x) eqn:G, (f x) eqn:F; simpl; rewrite ?G, ?F, IH; reflexivity.
Qed.

Section Steps.
Variables (avail all held : list BufferId) (next : Z).
Hypothesis C : conserved avail all held next.

Lemma next_not_tracked : ~ In next all.
Proof. intros I. apply (conserved_fresh_all _ _ _ _ C) in I. lia. Qed.

Lemma next_not_held : ~ In next held.
Proof. intros I. apply (conserved_fresh_held _ _ _ _ C) in I. lia. Qed.

Lemma next_not_available : ~ In next avail.
Proof. intros I. apply next_not_tracked. now apply (conserved_incl _ _ _ _ C). Qed.

Lemma tracked_among_grow : tracked_among (all ++ [next]) held = tracked_among all held.
Proof.
  apply tracked_among_same. intros h Hh. rewrite in_app_iff. simpl.
  split; [|tauto]. intros [I|[E|[]]]; [assumption|].
  subst h. exfalso. now apply next_not_held.
Qed.

(** One round of [InitializePool] or [ExpandPool]. *)
Lemma conserved_add_available :
  conserved (avail ++ [next]) (all ++ [next]) held (next + 1).
Proof.
  destruct C as [Ha Hv Hh Hi Hd Fa Fh Hc].
  constructor.
  - apply NoDup_app; [assumption|repeat constructor; simpl; tauto|].
    intros x Hx [<-|[]]. elim next_not_tracked; assumption.
  - apply NoDup_app; [assumption|repeat constructor; simpl; tauto|].
    intros x Hx [<-|[]]. elim next_not_available; assumption.
  - assumption.
  - intros b. rewrite !in_app_iff. intros [I|I]; [left; auto|now right].
  - intros b. rewrite in_app_iff. intros [I|[<-|[]]]; [auto|apply next_not_held].
  - intros b. rewrite in_app_iff. intros [I|[<-|[]]]; [apply Fa in I|]; lia.
  - intros b I. apply Fh in I. lia.
  - rewrite tracked_among_grow, !length_app. simpl. lia.
Qed.

(** [AcquireBuffer] when the pool grows by the buffer it hands out. *)
Lemma conserved_acquire_expand :
  conserved avail (all ++ [next]) (next :: held) (next + 1).
Proof.
  destruct C as [Ha Hv Hh Hi Hd Fa Fh Hc].
  constructor.
  - apply NoDup_app; [assumption|repeat constructor; simpl; tauto|].
    intros x Hx [<-|[]]. elim next_not_tracked; assumption.
  - assumption.
  - constructor; [apply next_not_held|assumption].
  - intros b I. rewrite in_app_iff. left. auto.
  - intros b I [<-|I']; [now apply next_not_available|now apply (Hd b)].
  - intros b. rewrite in_app_iff. intros [I|[<-|[]]]; [apply Fa in I|]; lia.
  - intros b [<-|I]; [|apply Fh in I]; lia.
  - unfold tracked_among. simpl.
    replace (existsb (Z.eqb next) (all ++ [next])) with true
      by (symmetry; apply existsb_eqb_In, in_app_iff; right; now left).
    fold (tracked_among (all ++ [next]) held).
    rewrite tracked_among_grow, length_app. simpl. lia.
Qed.

(** [AcquireBuffer] when it hands out a temporary buffer. *)
Lemma conserved_acquire_temporary :
  conserved avail all (next :: held) (next + 1).
Proof.
  destruct C as [Ha Hv Hh Hi Hd Fa Fh Hc].
  constructor; try assumption.
  - constructor; [apply next_not_held|assumption].
  - intros b I [<-|I']; [now apply next_not_available|now apply (Hd b)].
  - intros b I. apply Fa in I. lia.
  - intros b [<-|I]; [|apply Fh in I]; lia.
  - unfold tracked_among. simpl.
    rewrite (existsb_eqb_notin _ _ next_not_tracked). exact Hc.
Qed.

Lemma conserved_release_tracked b :
  In b held -> In b all ->
  conserved (avail ++ [b]) all (drop_handle b held) next.
Proof.
  intros Ih Ia. destruct C as [Ha Hv Hh Hi Hd Fa Fh Hc].
  assert (Nb : ~ In b avail) by (intros I; now apply (Hd b)).
  constructor; try assumption.
  - apply NoDup_app; [assumption|repeat constructor; simpl; tauto|].
    intros x Hx [<-|[]]. contradiction.
  - now apply NoDup_filter.
  - intros x. rewrite in_app_iff. intros [I|[<-|[]]]; auto.
  - intros x. unfold drop_handle. rewrite in_app_iff, filter_other_In.
    intros [I|[<-|[]]] [I' N]; [now apply (Hd x)|congruence].
  - intros x. unfold drop_handle. rewrite filter_other_In. intros [I _]. auto.
  - rewrite length_app. simpl.
    assert (E : S (length (tracked_among all (drop_handle b held)))
                = length (tracked_among all held)).
    { unfold tracked_among, drop_handle.
      rewrite filter_swap. apply filter_other_length.
      - now apply NoDup_filter.
      - apply filter_In. split; [assumption|now apply existsb_eqb_In]. }
    lia.
Qed.

Lemma conserved_release_untracked b :
  ~ In b all -> conserved avail all (drop_handle b held) next.
Proof.
  intros Na. destruct C as [Ha Hv Hh Hi Hd Fa Fh Hc].
  constructor; try assumption.
  - now apply NoDup_filter.
  - intros x I. unfold drop_handle. rewrite filter_other_In. intros [I' _].
    now apply (Hd x).
  - intros x. unfold drop_handle. rewrite filter_other_In. intros [I _]. auto.
  - now rewrite tracked_among_drop_untracked.
Qed.

End Steps.

(** [AcquireBuffer] when the queue has a buffer to hand out. *)
Lemma conserved_acquire_available b rest all held next :
  conserved (b :: rest) all held next -> conserved rest all (b :: held) next.
Proof.
  intros [Ha Hv Hh Hi Hd Fa Fh Hc].
  inversion Hv as [|? ? Nb Hrest]; subst.
  constructor; try assumption.
  - constructor; [apply Hd; now left|assumption].
  - intros x I. apply Hi. now right.
  - intros x I [<-|I']; [contradiction|]. apply (Hd x); [now right|assumption].
  - intros x [<-|I]; [apply Fa, Hi; now left|now apply Fh].
  - unfold tracked_among. simpl.
    replace (existsb (Z.eqb b) all) with true
      by (symmetry; apply existsb_eqb_In, Hi; now left).
    cbn [length] in *. fold (tracked_among all held). lia.
Qed.

(** The removal loop of [ShrinkPool]. *)
Lemma conserved_remove_excess held next k : forall avail all,
  conserved avail all held next ->
  conserved (fst (remove_excess k avail all)) (snd (remove_excess k avail all))
            held next
  /\ length (fst (remove_excess k avail all)) = (length avail - k)%nat.
Proof.
  induction k as [|k IH]; intros avail all C.
  - simpl. split; [assumption|lia].
  - destruct avail as [|b rest]; [simpl; split; [assumption|reflexivity]|].
    change (remove_excess (S k) (b :: rest) all)
      with (remove_excess k rest (filter (fun x => negb (x =? b)) all)).
    destruct (IH rest (filter (fun x => negb (x =? b)) all)) as [C' L]; [|split; [exact C'|simpl; lia]].
    destruct C as [Ha Hv Hh Hi Hd Fa Fh Hc].
    inversion Hv as [|? ? Nb Hrest]; subst.
    assert (Ib : In b all) by (apply Hi; now left).
    assert (Nh : ~ In b held) by (apply Hd; now left).
    constructor; try assumption.
    + now apply NoDup_filter.
    + intros x I. apply filter_other_In. split; [apply Hi; now right|].
      intros ->. contradiction.
    + intros x I. apply (Hd x). now right.
    + intros x I. apply filter_other_In in I. apply Fa. tauto.
    + pose proof (filter_other_length b all Ha Ib) as E.
      rewrite (tracked_among_same all (filter (fun x => negb (x =? b)) all) held).
      * cbn [length] in Hc. apply eq_add_S. exact (eq_trans E Hc).
      * intros h Hh'. rewrite filter_other_In. split; [tauto|].
        intros I. split; [assumption|]. intros ->. contradiction.
Qed.

Lemma add_available_buffer_fields p :
  available_buffers_ (add_available_buffer p)
    = available_buffers_ p ++ [next_allocation_id_ p]
  /\ all_buffers_ (add_available_buffer p) = all_buffers_ p ++ [next_allocation_id_ p]
  /\ next_allocation_id_ (add_available_buffer p) = next_allocation_id_ p + 1.
Proof. repeat split. Qed.

Lemma conserved_iter n p held :
  conserved (available_buffers_ p) (all_buffers_ p) held (next_allocation_id_ p) ->
  let p' := Nat.iter n add_available_buffer p in
  conserved (available_buffers_ p') (all_buffers_ p') held (next_allocation_id_ p').
Proof.
  intros C. induction n as [|n IH]; [exact C|].
  cbv zeta in *.
  change (Nat.iter (S n) add_available_buffer p)
    with (add_available_buffer (Nat.iter n add_available_buffer p)).
  destruct (add_available_buffer_fields (Nat.iter n add_available_buffer p))
    as (-> & -> & ->).
  now apply conserved_add_available.
Qed.

Lemma start_conserved config : client_conserved (start config).
Proof.
  unfold client_conserved, start, construct, InitializePool. simpl.
  apply conserved_iter. simpl.
  constructor; simpl; try constructor; try contradiction; reflexivity.
Qed.

Lemma ShrinkPool_conserved s :
  client_conserved s -> client_conserved {| pool := ShrinkPool (pool s); held := held s |}.
Proof.
  unfold client_conserved, ShrinkPool. intros C. simpl.
  destruct (_ <=? _); [exact C|].
  destruct (conserved_remove_excess (held s) (next_allocation_id_ (pool s))
              (Z.to_nat (size (available_buffers_ (pool s))
                         - initial_pool_size (config_ (pool s)) / 2))
              _ _ C) as [C' _].
  destruct (remove_excess _ _ _) as [avail all]. exact C'.
Qed.

Lemma perform_conserved c s :
  disciplined c s = true -> client_conserved s -> client_conserved (perform c s).
Proof.
  intros D C. destruct c as [|[b|]|n| |]; simpl.
  - unfold AcquireBuffer.
    destruct (available_buffers_ (pool s)) as [|b rest] eqn:E.
    + unfold client_conserved in C. rewrite E in C.
      destruct (auto_expand _ && _); unfold client_conserved; simpl; rewrite ?E.
      * now apply conserved_acquire_expand.
      * now apply conserved_acquire_temporary.
    + unfold client_conserved in *. simpl. rewrite E in C.
      now apply conserved_acquire_available.
  - simpl in D. apply existsb_eqb_In in D.
    unfold client_conserved in *. unfold ReleaseBuffer, is_pool_buffer. simpl.
    destruct (existsb (Z.eqb b) (all_buffers_ (pool s))) eqn:E; simpl.
    + apply conserved_release_tracked; [assumption..|now apply existsb_eqb_In].
    + apply conserved_release_untracked; [assumption|].
      intros I. apply existsb_eqb_In in I. congruence.
  - exact C.
  - unfold client_conserved in *. unfold ExpandPool. simpl.
    now apply conserved_iter.
  - now apply ShrinkPool_conserved.
  - unfold TickFrame.
    set (p1 := with_frames _ _ (pool s)).
    destruct (auto_shrink (config_ p1) && ShouldShrink p1); [|exact C].
    apply (ShrinkPool_conserved {| pool := p1; held := held s |}). exact C.
Qed.

Lemma run_conserved cs : forall s,
  all_disciplined cs s = true -> client_conserved s -> client_conserved (run cs s).
Proof.
  induction cs as [|c cs IH]; intros s D C; [exact C|].
  simpl in D. apply andb_true_iff in D. destruct D as [D1 D2].
  apply (IH (perform c s) D2). now apply perform_conserved.
Qed.

(** C6 (amended).  In every state reached from a newly constructed pool by
    [AcquireBuffer], [ReleaseBuffer], [ExpandPool], [ShrinkPool] and
    [TickFrame] calls in which [ReleaseBuffer] is only given null or a handle
    the caller holds, the statistics satisfy available + active = total, the
    available count does not exceed the total, and the active count is the
    number of tracked buffers out with callers. *)
Theorem C6_pool_conservation_for_disciplined_callers (config : Config) (cs : list Call) :
  all_disciplined cs (start config) = true ->
  is_u64 (size (all_buffers_ (pool (run cs (start config))))) ->
  let s := run cs (start config) in
  let stats := GetStats (pool s) in
  available_buffers stats + active_buffers stats = total_buffers stats
  /\ available_buffers stats <= total_buffers stats
  /\ active_buffers stats = size (active_handles s).
Proof.
  intros D B s stats.
  pose proof (run_conserved cs (start config) D (start_conserved config)) as C.
  fold s in C, B. destruct C as [_ _ _ _ _ _ _ Hc].
  change (tracked_among (all_buffers_ (pool s)) (held s)) with (active_handles s) in Hc.
  subst stats. unfold GetStats, size in *. simpl.
  assert (E : u64 (Z.of_nat (length (all_buffers_ (pool s)))
                   - Z.of_nat (length (available_buffers_ (pool s))))
              = Z.of_nat (length (active_handles s))).
  { unfold u64. unfold is_u64 in B. rewrite Z.mod_small; lia. }
  rewrite E. lia.
Qed.

(** C6, counterexample.  Releasing one acquired buffer twice puts it into the
    queue twice: 17 available buffers against 16 tracked ones, and an active
    count that has wrapped around. *)
Lemma C6_double_release_counterexample :
  let s := run double_release (start default_config) in
  let stats := GetStats (pool s) in
  available_buffers stats = 17 /\ total_buffers stats = 16
  /\ ~ (available_buffers stats + active_buffers stats = total_buffers stats)
  /\ ~ (available_buffers stats <= total_buffers stats).
Proof.
  vm_compute. repeat split; intros H; [discriminate H | apply H; reflexivity].
Qed.

(** C6 (amended), on the growth-and-release scenario followed by a manual
    expansion, a manual shrink, an acquisition and a frame. *)
Lemma C6_pool_conservation_witness :
  let cs := acquire_20 ++ release_all (run acquire_20 (start default_config))
            ++ [CallExpand 3; CallShrink; CallAcquire; CallTick] in
  all_disciplined cs (start default_config) = true
  /\ is_u64 (size (all_buffers_ (pool (run cs (start default_config)))))
  /\ (let s := run cs (start default_config) in
      let stats := GetStats (pool s) in
      available_buffers stats + active_buffers stats = total_buffers stats
      /\ available_buffers stats <= total_buffers stats
      /\ active_buffers stats = size (active_handles s)).
Proof.
  intros cs.
  assert (D : all_disciplined cs (start default_config) = true)
    by (vm_compute; reflexivity).
  assert (B : is_u64 (size (all_buffers_ (pool (run cs (start default_config))))))
    by (vm_compute; split; [discriminate|reflexivity]).
  split; [exact D|]. split; [exact B|].
  exact (C6_pool_conservation_for_disciplined_callers default_config cs D B).
Defined.

(** C4, the code at the scenario of the claim.  Default pool (16 initial
    buffers), grown to 20 by twenty acquisitions, all twenty released: the
    300th [TickFrame] shrinks the tracked total to 8, half the initial pool
    size, instead of stopping at 16. *)
Theorem C4_auto_shrink_goes_below_initial_pool_size :
  let before := GetStats (pool grown_and_released) in
  let after := GetStats (pool (run (repeat CallTick 300) grown_and_released)) in
  initial_pool_size default_config = 16
  /\ total_buffers before = 20 /\ available_buffers before = 20
  /\ total_buffers (GetStats (pool (run (repeat CallTick 299) grown_and_released))) = 20
  /\ total_buffers after = 8 /\ available_buffers after = 8
  /\ pool_shrinks after = 1.
Proof.
  vm_compute. repeat split.
Qed.

End PoolFacts.

Module TextureGCFacts.
Import TextureGC.

Lemma find_replace_same id info r old :
  find id r = Some old -> find id (replace id info r) = Some info.
Proof.
  induction r as [|[k v] r IH]; simpl; [discriminate|].
  destruct (Z.eqb_spec k id) as [->|N]; simpl.
  - now rewrite Z.eqb_refl.
  - destruct (Z.eqb_spec k id); [contradiction|]. exact IH.
Qed.

Lemma find_not_in id r : ~ In id (map fst r) -> find id r = None.
Proof.
  induction r as [|[k v] r IH]; simpl; [reflexivity|].
  intros H. destruct (Z.eqb_spec k id) as [->|N]; [tauto|].
  apply IH. tauto.
Qed.

Lemma map_fst_replace id info r : map fst (replace id info r) = map fst r.
Proof.
  induction r as [|[k v] r IH]; simpl; [reflexivity|].
  destruct (k =? id); simpl; [reflexivity|now rewrite IH].
Qed.

Lemma find_erase_same id r :
  unique_keys r -> find id (erase id r) = None.
Proof.
  unfold unique_keys.
  induction r as [|[k v] r IH]; simpl; [reflexivity|].
  intros U. inversion U as [|? ? Nk Ur]; subst.
  destruct (Z.eqb_spec k id) as [->|N]; simpl.
  - now apply find_not_in.
  - destruct (Z.eqb_spec k id); [contradiction|]. now apply IH.
Qed.

Lemma tracked_bytes_replace id info r old :
  find id r = Some old ->
  tracked_bytes (replace id info r)
    = tracked_bytes r - size_bytes old + size_bytes info.
Proof.
  unfold tracked_bytes.
  induction r as [|[k v] r IH]; simpl; [discriminate|].
  destruct (Z.eqb_spec k id) as [->|N]; simpl.
  - intros [= ->]. lia.
  - intros H. rewrite (IH H). lia.
Qed.

Lemma tracked_bytes_erase id r old :
  find id r = Some old ->
  tracked_bytes (erase id r) = tracked_bytes r - size_bytes old.
Proof.
  unfold tracked_bytes.
  induction r as [|[k v] r IH]; simpl; [discriminate|].
  destruct (Z.eqb_spec k id) as [->|N]; simpl.
  - intros [= ->]. lia.
  - intros H. rewrite (IH H). lia.
Qed.

(** C10.  Registering an id that is already tracked with size [s_old]
    replaces its record (size [s_new], last used now, use count 1) and adds
    the whole of [s_new] to the running estimate; after unregistering the id
    the estimate is back at its old value although the old record is gone, so
    the excess of the estimate over the sum of the tracked sizes has grown by
    [s_old] (from 0 to [s_old] when the two agreed before). *)
Theorem C10_reregistration_inflates_estimate
    (g : TextureGarbageCollector) (id : ImageId) (old : TextureInfo)
    (s_new : Z) (pinned : bool) :
  unique_keys (tracked_textures_ g) ->
  is_u64 (current_vram_usage_ g) ->
  find id (tracked_textures_ g) = Some old ->
  let g1 := RegisterTexture id s_new pinned g in
  let g2 := UnregisterTexture id g1 in
  find id (tracked_textures_ g1)
    = Some {| size_bytes := s_new; last_used_frame := current_frame_ g;
              is_render_target := pinned; usage_count := 1 |}
  /\ map fst (tracked_textures_ g1) = map fst (tracked_textures_ g)
  /\ current_vram_usage_ g1 = u64 (current_vram_usage_ g + s_new)
  /\ find id (tracked_textures_ g2) = None
  /\ current_vram_usage_ g2 - tracked_bytes (tracked_textures_ g2)
     = current_vram_usage_ g - tracked_bytes (tracked_textures_ g) + size_bytes old.
Proof.
  intros U B F g1 g2.
  set (info := {| size_bytes := s_new; last_used_frame := current_frame_ g;
                  is_render_target := pinned; usage_count := 1 |}).
  assert (T1 : tracked_textures_ g1 = replace id info (tracked_textures_ g))
    by (unfold g1, RegisterTexture, assign; simpl; now rewrite F).
  assert (F1 : find id (tracked_textures_ g1) = Some info)
    by (rewrite T1; now apply (find_replace_same _ _ _ old)).
  assert (E2 : g2 = with_tracked (u64 (current_vram_usage_ g1 - s_new))
                      (erase id (tracked_textures_ g1)) g1)
    by (unfold g2, UnregisterTexture; now rewrite F1).
  assert (V1 : current_vram_usage_ g1 = u64 (current_vram_usage_ g + s_new))
    by reflexivity.
  clearbody g1 g2. subst g2.
  cbn [tracked_textures_ current_vram_usage_ with_tracked].
  split; [exact F1|]. split; [rewrite T1; apply map_fst_replace|].
  split; [exact V1|]. split.
  - apply find_erase_same.
    unfold unique_keys. rewrite T1, map_fst_replace. exact U.
  - rewrite (tracked_bytes_erase _ _ _ F1), T1, (tracked_bytes_replace _ _ _ _ F), V1.
    unfold u64 in *. subst info. cbn [size_bytes]. rewrite Zminus_mod_idemp_l.
    replace (current_vram_usage_ g + s_new - s_new) with (current_vram_usage_ g) by lia.
    unfold is_u64 in B. rewrite Z.mod_small by exact B. lia.
Qed.

(** C10, on a registry of two textures. *)
Lemma C10_reregistration_witness :
  let g := RegisterTexture 7 (4 * MiB) false
             (RegisterTexture 5 (16 * MiB) true (construct default_config)) in
  unique_keys (tracked_textures_ g)
  /\ is_u64 (current_vram_usage_ g)
  /\ find 7 (tracked_textures_ g) = Some (plain_texture (4 * MiB) 0 1)
  /\ (let g1 := RegisterTexture 7 (9 * MiB) true g in
      let g2 := UnregisterTexture 7 g1 in
      find 7 (tracked_textures_ g1)
        = Some {| size_bytes := 9 * MiB; last_used_frame := current_frame_ g;
                  is_render_target := true; usage_count := 1 |}
      /\ map fst (tracked_textures_ g1) = map fst (tracked_textures_ g)
      /\ current_vram_usage_ g1 = u64 (current_vram_usage_ g + 9 * MiB)
      /\ find 7 (tracked_textures_ g2) = None
      /\ current_vram_usage_ g2 - tracked_bytes (tracked_textures_ g2)
         = current_vram_usage_ g - tracked_bytes (tracked_textures_ g)
           + size_bytes (plain_texture (4 * MiB) 0 1)).
Proof.
  intros g.
  assert (U : unique_keys (tracked_textures_ g)).
  { unfold unique_keys. simpl. repeat constructor; simpl; intuition discriminate. }
  assert (B : is_u64 (current_vram_usage_ g))
    by (vm_compute; split; [discriminate|reflexivity]).
  assert (F : find 7 (tracked_textures_ g) = Some (plain_texture (4 * MiB) 0 1))
    by reflexivity.
  split; [exact U|]. split; [exact B|]. split; [exact F|].
  exact (C10_reregistration_inflates_estimate g 7 _ (9 * MiB) true U B F).
Defined.

(** Under the pressure predicate the "more aggressive" test of
    [ShouldPurgeTexture] is reached only by textures that already passed
    [frames_unused >= threshold]. *)
Lemma ShouldPurgeTexture_under_pressure g info frames_unused :
  IsMemoryPressureHigh g = true ->
  is_render_target info = false ->
  usage_count info <= 100 ->
  ShouldPurgeTexture g info frames_unused
    = (GetEffectiveThreshold g <=? frames_unused)
      && (GetEffectiveThreshold g / 2 <? frames_unused).
Proof.
  intros P R Hu. unfold ShouldPurgeTexture. rewrite P, R.
  destruct (Z.ltb_spec frames_unused (GetEffectiveThreshold g)) as [L|L].
  - destruct (Z.leb_spec (GetEffectiveThreshold g) frames_unused); [lia|reflexivity].
  - destruct (Z.leb_spec (GetEffectiveThreshold g) frames_unused); [|lia].
    destruct (Z.ltb_spec 100 (usage_count info)); [lia|reflexivity].
Qed.

(** C2, the code at a failing input.  Under the pressure predicate, a
    non-pinned texture used once and unused for 20 frames exceeds half the
    effective threshold (30 / 2 = 15) and still is no purge candidate: the
    test [frames_unused < threshold] has already returned [false]. *)
Theorem C2_pressure_relief_never_applies :
  let g := one_cold_texture in
  let info := plain_texture (600 * MiB) 0 1 in
  tracked_textures_ g = [(1, info)]
  /\ IsMemoryPressureHigh g = true
  /\ GetEffectiveThreshold g = aggressive_threshold default_config
  /\ frames_unused_of g info = 20
  /\ (GetEffectiveThreshold g / 2 <? frames_unused_of g info) = true
  /\ ShouldPurgeTexture g info (frames_unused_of g info) = false
  /\ fst (GetTexturesToPurge g) = [].
Proof.
  vm_compute. repeat split.
Qed.









End TextureGCFacts.

Module RoundingFacts.
Import Rounding.

Lemma shr1_code_mono c c' : c <= c' -> shr1_code c <= shr1_code c'.
Proof.
  intros H. unfold shr1_code.
  destruct (Z.eqb_spec (c mod 4) 0), (Z.eqb_spec (c' mod 4) 0);
    Z.div_mod_to_equations; lia.
Qed.

Lemma rne_code_mono c c' : c <= c' -> rne_code c <= rne_code c'.
Proof.
  intros H. unfold rne_code.
  destruct (Z.eqb_spec (c mod 4) 3), (Z.eqb_spec (c' mod 4) 3),
           (Z.eqb_spec (c mod 4) 2), (Z.eqb_spec (c' mod 4) 2);
    Z.div_mod_to_equations; lia.
Qed.

Lemma rne_code_bounds c : c / 4 <= rne_code c <= c / 4 + 1.
Proof.
  unfold rne_code.
  destruct (Z.eqb_spec (c mod 4) 3), (Z.eqb_spec (c mod 4) 2);
    Z.div_mod_to_equations; lia.
Qed.

Lemma shr1_code_quot c : shr1_code c / 4 = c / 4 / 2.
Proof.
  unfold shr1_code. destruct (Z.eqb_spec (c mod 4) 0);
    Z.div_mod_to_equations; lia.
Qed.

Lemma iter_shr1_code_mono n : forall c c',
  c <= c' -> Nat.iter n shr1_code c <= Nat.iter n shr1_code c'.
Proof.
  induction n as [|n IH]; intros c c' H; simpl; [assumption|].
  apply shr1_code_mono. now apply IH.
Qed.

Lemma iter_shr1_code_quot n c :
  Nat.iter n shr1_code c / 4 = c / 4 / 2 ^ Z.of_nat n.
Proof.
  induction n as [|n IH].
  - simpl. now rewrite Z.div_1_r.
  - change (Nat.iter (S n) shr1_code c) with (shr1_code (Nat.iter n shr1_code c)).
    rewrite shr1_code_quot, IH, Nat2Z.inj_succ, Z.pow_succ_r by lia.
    rewrite Z.div_div by lia. f_equal. lia.
Qed.


(** *** [SpecFloat]'s shifts, on codes *)

Ltac split_tests :=
  repeat match goal with
         | |- context [?a =? ?b] => destruct (Z.eqb_spec a b)
         end.

Ltac code_arith := split_tests; Z.div_mod_to_equations; lia.

Lemma code_shr_1 mrs :
  0 <= shr_m mrs ->
  code_of_record (shr_1 mrs) = shr1_code (code_of_record mrs)
  /\ 0 <= shr_m (shr_1 mrs).
Proof.
  destruct mrs as [m r s]. unfold code_of_record, shr1_code, code.
  cbn [shr_m]. intros Hm.
  destruct m as [|p|p]; [|destruct p as [p|p|]|lia];
    destruct r, s; cbn [shr_1 shr_m shr_r shr_s orb]; split; try lia;
    try rewrite (Pos2Z.inj_xI p); try rewrite (Pos2Z.inj_xO p); code_arith.
Qed.

Lemma code_iter_shr_1 n : forall mrs,
  0 <= shr_m mrs ->
  code_of_record (Nat.iter n shr_1 mrs) = Nat.iter n shr1_code (code_of_record mrs)
  /\ 0 <= shr_m (Nat.iter n shr_1 mrs).
Proof.
  induction n as [|n IH]; intros mrs Hm; [split; [reflexivity|assumption]|].
  change (Nat.iter (S n) shr_1 mrs) with (shr_1 (Nat.iter n shr_1 mrs)).
  change (Nat.iter (S n) shr1_code (code_of_record mrs))
    with (shr1_code (Nat.iter n shr1_code (code_of_record mrs))).
  destruct (IH mrs Hm) as [E P]. rewrite <- E. now apply code_shr_1.
Qed.

Lemma iter_pos_iter {A : Type} (f : A -> A) p : forall x,
  iter_pos f p x = Nat.iter (Pos.to_nat p) f x.
Proof.
  induction p as [p IH|p IH|]; intros x; simpl iter_pos.
  - rewrite !IH, Pos2Nat.inj_xI. 
    replace (S (2 * Pos.to_nat p)) with (Pos.to_nat p + (Pos.to_nat p + 1))%nat by lia.
    rewrite !Nat.iter_add. reflexivity.
  - rewrite !IH, Pos2Nat.inj_xO.
    replace (2 * Pos.to_nat p)%nat with (Pos.to_nat p + Pos.to_nat p)%nat by lia.
    rewrite Nat.iter_add. reflexivity.
  - reflexivity.
Qed.

(** [shr] by a non-negative count. *)
Lemma shr_iter mrs e n :
  0 <= n -> shr mrs e n = (Nat.iter (Z.to_nat n) shr_1 mrs, e + n).
Proof.
  intros Hn. destruct n as [|p|p]; [| |lia].
  - simpl. now rewrite Z.add_0_r.
  - simpl. now rewrite iter_pos_iter.
Qed.

Lemma shr_m_quot mrs : 0 <= shr_m mrs -> shr_m mrs = code_of_record mrs / 4.
Proof.
  destruct mrs as [m r s]. unfold code_of_record, code. cbn [shr_m shr_r shr_s].
  destruct r, s; Z.div_mod_to_equations; lia.
Qed.

Lemma rne_code_record mrs :
  0 <= shr_m mrs ->
  round_nearest_even (shr_m mrs) (loc_of_shr_record mrs) = rne_code (code_of_record mrs).
Proof.
  destruct mrs as [m r s]. unfold code_of_record, code, rne_code.
  cbn [shr_m shr_r shr_s]. intros Hm.
  destruct r, s; cbn [loc_of_shr_record round_nearest_even].
  - code_arith.
  - destruct (Z.even m) eqn:E.
    + apply Z.even_spec in E. destruct E as [k ->]. code_arith.
    + assert (O : Z.odd m = true) by (rewrite <- Z.negb_even, E; reflexivity).
      apply Z.odd_spec in O. destruct O as [k ->]. code_arith.
  - code_arith.
  - code_arith.
Qed.

(** *** Binary digits *)

Lemma digits2_pos_bounds p :
  2 ^ (Zpos (digits2_pos p) - 1) <= Zpos p < 2 ^ Zpos (digits2_pos p).
Proof.
  induction p as [p IH|p IH|]; cbn [digits2_pos].
  - rewrite Pos2Z.inj_succ, (Pos2Z.inj_xI p).
    pose proof (Pos2Z.is_pos (digits2_pos p)) as P.
    set (d := Zpos (digits2_pos p)) in *.
    replace (Z.succ d - 1) with (Z.succ (d - 1)) by lia.
    rewrite !Z.pow_succ_r by lia. lia.
  - rewrite Pos2Z.inj_succ, (Pos2Z.inj_xO p).
    pose proof (Pos2Z.is_pos (digits2_pos p)) as P.
    set (d := Zpos (digits2_pos p)) in *.
    replace (Z.succ d - 1) with (Z.succ (d - 1)) by lia.
    rewrite !Z.pow_succ_r by lia. lia.
  - simpl. lia.
Qed.

Lemma digits2_pos_unique p d :
  2 ^ (d - 1) <= Zpos p < 2 ^ d -> Zpos (digits2_pos p) = d.
Proof.
  intros [L U]. pose proof (digits2_pos_bounds p) as [L' U'].
  pose proof (Pos2Z.is_pos (digits2_pos p)) as P.
  set (d' := Zpos (digits2_pos p)) in *.
  assert (Hd : 0 < d).
  { destruct (Z.ltb_spec 0 d) as [|N]; [assumption|].
    destruct (Z.eq_dec d 0) as [->|N0]; [simpl in U; lia|].
    rewrite (Z.pow_neg_r 2 d) in U by lia. lia. }
  assert (A : d' - 1 < d) by (apply (Z.pow_lt_mono_r_iff 2); lia).
  assert (B : d - 1 < d') by (apply (Z.pow_lt_mono_r_iff 2); lia).
  lia.
Qed.

Lemma Zdigits2_unique m d :
  0 < m -> 2 ^ (d - 1) <= m < 2 ^ d -> Zdigits2 m = d.
Proof.
  intros Hm B. destruct m as [|p|p]; [lia| |lia]. now apply digits2_pos_unique.
Qed.

Lemma Zdigits2_bounds m :
  0 < m -> 2 ^ (Zdigits2 m - 1) <= m < 2 ^ Zdigits2 m /\ 0 < Zdigits2 m.
Proof.
  intros Hm. destruct m as [|p|p]; [lia| |lia].
  split; [apply digits2_pos_bounds|]. simpl. lia.
Qed.

Lemma Zdigits2_mono m m' : 0 < m <= m' -> Zdigits2 m <= Zdigits2 m'.
Proof.
  intros H.
  destruct (Zdigits2_bounds m) as [[L U] P]; [lia|].
  destruct (Zdigits2_bounds m') as [[L' U'] P']; [lia|].
  assert (Zdigits2 m - 1 < Zdigits2 m') by (apply (Z.pow_lt_mono_r_iff 2); lia).
  lia.
Qed.


(** *** [binary_round_aux] on a positive number of at least 24 bits *)

Lemma fexp_normal x : -149 <= x - 24 -> fexp 24 128 x = x - 24.
Proof. intros H. unfold fexp, emin. lia. Qed.

Lemma code_of_loc_quot m l : code_of_loc m l / 4 = m.
Proof.
  unfold code_of_loc, code_of_record, code.
  destruct l as [|[| |]]; cbn [shr_record_of_loc shr_m shr_r shr_s];
    Z.div_mod_to_equations; lia.
Qed.

Lemma shr_m_record_of_loc m l : shr_m (shr_record_of_loc m l) = m.
Proof. now destruct l as [|[| |]]. Qed.

(** The mantissa left by shifting a [d]-digit number down to 24 digits. *)
Lemma shifted_mantissa24 m :
  2 ^ 23 <= m -> mantissa24 (m / 2 ^ (Zdigits2 m - 24)) /\ 24 <= Zdigits2 m.
Proof.
  intros Hm. destruct (Zdigits2_bounds m) as [[L U] P]; [lia|].
  set (d := Zdigits2 m) in *.
  assert (D : 24 <= d).
  { assert (23 < d) by (apply (Z.pow_lt_mono_r_iff 2); lia). lia. }
  split; [|exact D].
  assert (E1 : 2 ^ (d - 1) = 2 ^ 23 * 2 ^ (d - 24))
    by (rewrite <- Z.pow_add_r by lia; f_equal; lia).
  assert (E2 : 2 ^ d = 2 ^ 24 * 2 ^ (d - 24))
    by (rewrite <- Z.pow_add_r by lia; f_equal; lia).
  assert (0 < 2 ^ (d - 24)) by (apply Z.pow_pos_nonneg; lia).
  unfold mantissa24. split.
  - apply Z.div_le_lower_bound; lia.
  - apply Z.div_lt_upper_bound; lia.
Qed.

Lemma finite_normal_below M E :
  0 < M < 2 ^ 24 -> finite (normal M E) = S754_finite false (Z.to_pos M) E.
Proof.
  intros H. unfold normal. destruct (Z.ltb_spec M (2 ^ 24)); [reflexivity|lia].
Qed.

Lemma binary_round_aux_done M E :
  2 ^ 23 <= M <= 2 ^ 24 -> -149 <= E < 104 ->
  (let '(mrs, e) := shr_fexp 24 128 M E loc_Exact in
   match shr_m mrs with
   | Z0 => S754_zero false
   | Zpos m => if e <=? 128 - 24 then S754_finite false m e else S754_infinity false
   | Zneg _ => S754_nan
   end) = finite (normal M E).
Proof.
  intros HM HE. unfold shr_fexp.
  destruct (Z.ltb_spec M (2 ^ 24)) as [Lt|Ge].
  - rewrite (Zdigits2_unique M 24) by (try split; lia).
    rewrite fexp_normal by lia.
    replace (24 + E - 24 - E) with 0 by lia.
    cbn [shr shr_record_of_loc shr_m].
    rewrite finite_normal_below by lia.
    destruct M as [|p|p]; [lia| |lia].
    destruct (Z.leb_spec E (128 - 24)); [reflexivity|lia].
  - assert (M = 2 ^ 24) by lia. subst M.
    replace (Zdigits2 (2 ^ 24)) with 25 by reflexivity.
    rewrite fexp_normal by lia.
    replace (25 + E - 24 - E) with 1 by lia.
    unfold normal. cbn.
    destruct (Z.leb_spec (E + 1) 104); [reflexivity|lia].
Qed.

Lemma binary_round_aux_eval m e l :
  2 ^ 23 <= m ->
  -149 <= e + (Zdigits2 m - 24) < 104 ->
  binary_round_aux 24 128 false m e l
    = finite (normal (rne_code (Nat.iter (Z.to_nat (Zdigits2 m - 24)) shr1_code
                                  (code_of_loc m l)))
                     (e + (Zdigits2 m - 24))).
Proof.
  intros Hm He.
  destruct (shifted_mantissa24 m Hm) as [[L U] D].
  unfold binary_round_aux.
  unfold shr_fexp at 1.
  rewrite fexp_normal by lia.
  replace (Zdigits2 m + e - 24 - e) with (Zdigits2 m - 24) by lia.
  rewrite shr_iter by lia.
  set (n := Z.to_nat (Zdigits2 m - 24)).
  destruct (code_iter_shr_1 n (shr_record_of_loc m l)) as [C P];
    [rewrite shr_m_record_of_loc; lia|].
  rewrite (rne_code_record _ P), C.
  fold (code_of_loc m l).
  apply binary_round_aux_done; [|exact He].
  pose proof (rne_code_bounds (Nat.iter n shr1_code (code_of_loc m l))) as B.
  rewrite iter_shr1_code_quot, code_of_loc_quot in B.
  subst n. rewrite Z2Nat.id in B by lia. lia.
Qed.


(** *** Order of the rounded results *)

Lemma SFleb_finite p p' :
  0 < fst p -> 0 < fst p' -> lex_le p p' -> SFleb (finite p) (finite p') = true.
Proof.
  destruct p as [m e], p' as [m' e']. unfold lex_le, finite, SFleb, SFcompare.
  cbn [fst snd]. intros Hm Hm' H.
  destruct (Z.compare_spec e e') as [->|L|G]; [|reflexivity|lia].
  destruct H as [H|[_ H]]; [lia|].
  change (Pos.compare_cont Eq (Z.to_pos m) (Z.to_pos m'))
    with (Pos.compare (Z.to_pos m) (Z.to_pos m')).
  rewrite <- Z2Pos.inj_compare by assumption.
  destruct (Z.compare_spec m m'); [reflexivity|reflexivity|lia].
Qed.

Lemma normal_lex M E M' E' :
  2 ^ 23 <= M <= 2 ^ 24 -> 2 ^ 23 <= M' <= 2 ^ 24 ->
  E < E' \/ (E = E' /\ M <= M') ->
  lex_le (normal M E) (normal M' E').
Proof.
  intros HM HM' H. unfold normal, lex_le.
  destruct (Z.ltb_spec M (2 ^ 24)), (Z.ltb_spec M' (2 ^ 24)); cbn [fst snd]; lia.
Qed.

Lemma normal_mantissa24 M E :
  2 ^ 23 <= M <= 2 ^ 24 ->
  mantissa24 (fst (normal M E)) /\ E <= snd (normal M E) <= E + 1.
Proof.
  intros HM. unfold normal, mantissa24.
  destruct (Z.ltb_spec M (2 ^ 24)); cbn [fst snd]; lia.
Qed.

Lemma rne_code_mantissa c :
  mantissa24 (c / 4) -> 2 ^ 23 <= rne_code c <= 2 ^ 24.
Proof.
  unfold mantissa24. intros H. pose proof (rne_code_bounds c). lia.
Qed.

(** Rounded codes compare as their exponents and codes do. *)
Lemma rounded_lex c E c' E' :
  mantissa24 (c / 4) -> mantissa24 (c' / 4) ->
  E < E' \/ (E = E' /\ c <= c') ->
  lex_le (normal (rne_code c) E) (normal (rne_code c') E').
Proof.
  intros Hc Hc' H. apply normal_lex; try now apply rne_code_mantissa.
  destruct H as [H|[H1 H2]]; [now left|right].
  split; [assumption|now apply rne_code_mono].
Qed.

(** *** [static_cast<float>] of an unsigned integer *)

Lemma iter_xO p k : Zpos (Pos.iter xO p k) = Zpos p * 2 ^ Zpos k.
Proof.
  induction k as [|k IH] using Pos.peano_ind.
  - simpl Pos.iter. rewrite (Pos2Z.inj_xO p). change (2 ^ 1) with 2. lia.
  - rewrite Pos.iter_succ, (Pos2Z.inj_xO (Pos.iter xO p k)), IH, Pos2Z.inj_succ,
      Z.pow_succ_r by lia. lia.
Qed.

Lemma u64_code_mantissa a :
  0 < a -> mantissa24 (u64_code a (Zdigits2 a) / 4).
Proof.
  intros Ha. destruct (Zdigits2_bounds a Ha) as [[L U] P].
  unfold u64_code. set (d := Zdigits2 a) in *.
  destruct (Z.leb_spec d 24) as [Le|Gt].
  - replace (4 * (a * 2 ^ (24 - d)) / 4) with (a * 2 ^ (24 - d))
      by (Z.div_mod_to_equations; lia).
    assert (E1 : 2 ^ 23 = 2 ^ (d - 1) * 2 ^ (24 - d))
      by (rewrite <- Z.pow_add_r by lia; f_equal; lia).
    assert (E2 : 2 ^ 24 = 2 ^ d * 2 ^ (24 - d))
      by (rewrite <- Z.pow_add_r by lia; f_equal; lia).
    assert (0 < 2 ^ (24 - d)) by (apply Z.pow_pos_nonneg; lia).
    unfold mantissa24. rewrite E1, E2. nia.
  - rewrite iter_shr1_code_quot, Z2Nat.id by lia.
    replace (4 * a / 4) with a by (Z.div_mod_to_equations; lia).
    apply shifted_mantissa24.
    assert (2 ^ 23 <= 2 ^ (d - 1)) by (apply Z.pow_le_mono_r; lia). lia.
Qed.

Lemma of_u64_eval a :
  0 < a < 2 ^ 64 ->
  Float32.of_u64 a
    = finite (normal (rne_code (u64_code a (Zdigits2 a))) (Zdigits2 a - 24)).
Proof.
  intros Ha. destruct (Zdigits2_bounds a) as [[L U] P]; [lia|].
  assert (D64 : Zdigits2 a <= 64).
  { assert (Zdigits2 a - 1 < 64) by (apply (Z.pow_lt_mono_r_iff 2); lia). lia. }
  destruct a as [|p|p]; [lia| |lia].
  unfold Float32.of_u64, Float32.prec, Float32.emax, binary_normalize, binary_round.
  change (Zdigits2 (Zpos p)) with (Zpos (digits2_pos p)) in *.
  set (d := Zpos (digits2_pos p)) in *.
  rewrite Z.add_0_r, fexp_normal by lia.
  unfold shl_align.
  assert (X : code_of_loc (Zpos p) loc_Exact = 4 * Zpos p)
    by (unfold code_of_loc, code_of_record, code; cbn [shr_record_of_loc shr_m shr_r shr_s]; lia).
  destruct (d - 24 - 0) as [|k|k] eqn:Ek.
  - rewrite binary_round_aux_eval;
      change (Zdigits2 (Zpos p)) with d; try lia.
    + rewrite Z.add_0_l, X. unfold u64_code.
      replace d with 24 by lia.
      change (24 <=? 24) with true. cbv iota.
      change (24 - 24) with 0. change (2 ^ 0) with 1.
      rewrite Z.mul_1_r. reflexivity.
    + assert (2 ^ 23 <= 2 ^ (d - 1)) by (apply Z.pow_le_mono_r; lia). lia.
  - rewrite binary_round_aux_eval;
      change (Zdigits2 (Zpos p)) with d; try lia.
    + rewrite Z.add_0_l, X. unfold u64_code.
      destruct (Z.leb_spec d 24); [lia|reflexivity].
    + assert (2 ^ 23 <= 2 ^ (d - 1)) by (apply Z.pow_le_mono_r; lia). lia.
  - assert (Hk : Zpos k = 24 - d) by lia.
    assert (M : Zpos (Pos.iter xO p k) = Zpos p * 2 ^ (24 - d))
      by (rewrite iter_xO, Hk; reflexivity).
    pose proof (u64_code_mantissa (Zpos p) eq_refl) as Q.
    change (Zdigits2 (Zpos p)) with d in Q. unfold u64_code in Q |- *.
    destruct (Z.leb_spec d 24); [|lia].
    replace (4 * (Zpos p * 2 ^ (24 - d)) / 4) with (Zpos p * 2 ^ (24 - d)) in Q
      by (Z.div_mod_to_equations; lia).
    rewrite <- M in Q |- *. unfold mantissa24 in Q.
    assert (D24 : Zdigits2 (Zpos (Pos.iter xO p k)) = 24)
      by (apply Zdigits2_unique; [reflexivity|exact Q]).
    rewrite binary_round_aux_eval; rewrite ?D24; try lia.
    replace (24 - 24) with 0 by reflexivity.
    rewrite Z.add_0_r. cbn [Z.to_nat Nat.iter nat_rect].
    unfold code_of_loc, code_of_record, code.
    cbn [shr_record_of_loc shr_m shr_r shr_s].
    rewrite !Z.add_0_r. reflexivity.
Qed.

(** The result of the conversion as a mantissa with its exponent. *)
Lemma u64_pair_mono a b :
  0 < a <= b ->
  lex_le (normal (rne_code (u64_code a (Zdigits2 a))) (Zdigits2 a - 24))
         (normal (rne_code (u64_code b (Zdigits2 b))) (Zdigits2 b - 24)).
Proof.
  intros H. apply rounded_lex; try (apply u64_code_mantissa; lia).
  pose proof (Zdigits2_mono a b H) as D.
  destruct (Z.eq_dec (Zdigits2 a) (Zdigits2 b)) as [E|N]; [right|left; lia].
  split; [lia|]. rewrite <- E. unfold u64_code.
  destruct (Z.leb_spec (Zdigits2 a) 24).
  - assert (0 < 2 ^ (24 - Zdigits2 a)) by (apply Z.pow_pos_nonneg; lia). nia.
  - apply iter_shr1_code_mono. lia.
Qed.


(** *** Division of two 24-bit mantissas *)

Lemma rank_rem_range r D : 0 <= rank_rem r D <= 3.
Proof.
  unfold rank_rem. destruct (r =? 0); [lia|]. destruct (2 * r ?= D); lia.
Qed.

Lemma code_new_location q D r :
  0 <= r < D -> code_of_loc q (new_location D r) = 4 * q + rank_rem r D.
Proof.
  intros Hr. unfold new_location, new_location_even, new_location_odd, rank_rem.
  unfold code_of_loc, code_of_record, code.
  destruct (Z.even D) eqn:Ev; destruct (Z.eqb_spec r 0) as [->|Nz];
    cbn [shr_record_of_loc shr_m shr_r shr_s]; try lia.
  - destruct (Z.compare_spec (2 * r) D);
      cbn [shr_record_of_loc shr_m shr_r shr_s]; lia.
  - assert (O : Z.odd D = true) by (rewrite <- Z.negb_even, Ev; reflexivity).
    apply Z.odd_spec in O. destruct O as [k ->].
    destruct (Z.compare_spec (2 * r + 1) (2 * k + 1)),
             (Z.compare_spec (2 * r) (2 * k + 1));
      cbn [shr_record_of_loc shr_m shr_r shr_s]; lia.
Qed.

Lemma divcode_quot N D : divcode N D / 4 = N / D.
Proof.
  unfold divcode. pose proof (rank_rem_range (N mod D) D).
  set (k := rank_rem (N mod D) D) in *. set (q := N / D).
  Z.div_mod_to_equations. lia.
Qed.

Lemma divcode_mono N N' D : 0 < D -> 0 <= N <= N' -> divcode N D <= divcode N' D.
Proof.
  intros HD H. unfold divcode.
  pose proof (rank_rem_range (N mod D) D).
  pose proof (rank_rem_range (N' mod D) D).
  assert (Q : N / D <= N' / D) by (apply Z.div_le_mono; lia).
  destruct (Z.eq_dec (N / D) (N' / D)) as [E|Ne]; [|lia].
  assert (R : N mod D <= N' mod D).
  { rewrite (Z.mod_eq N D), (Z.mod_eq N' D), E by lia. lia. }
  pose proof (Z.mod_pos_bound N D HD). pose proof (Z.mod_pos_bound N' D HD).
  rewrite E. unfold rank_rem.
  destruct (Z.eqb_spec (N mod D) 0), (Z.eqb_spec (N' mod D) 0);
    try destruct (Z.compare_spec (2 * (N mod D)) D);
    try destruct (Z.compare_spec (2 * (N' mod D)) D); lia.
Qed.

(** Halving the scale of a quotient is one [shr_1] on its code. *)
Lemma shr1_divcode N D : 0 < D -> 0 <= N -> shr1_code (divcode (2 * N) D) = divcode N D.
Proof.
  intros HD HN.
  pose proof (Z.div_mod N D ltac:(lia)) as E.
  pose proof (Z.mod_pos_bound N D HD) as B.
  set (q := N / D) in *. set (r := N mod D) in *.
  assert (Q : (2 * N) / D = 2 * q + (if D <=? 2 * r then 1 else 0)
              /\ (2 * N) mod D = 2 * r - (if D <=? 2 * r then D else 0)).
  { destruct (Z.leb_spec D (2 * r)).
    - split; [symmetry; apply (Z.div_unique _ _ _ (2 * r - D))
             |symmetry; apply (Z.mod_unique _ _ (2 * q + 1))]; nia.
    - split; [symmetry; apply (Z.div_unique _ _ _ (2 * r))
             |symmetry; apply (Z.mod_unique _ _ (2 * q))]; nia. }
  destruct Q as [Q1 Q2]. unfold divcode. fold q r. rewrite Q1, Q2.
  unfold shr1_code, rank_rem.
  destruct (Z.leb_spec D (2 * r)).
  - destruct (Z.eqb_spec (2 * r - D) 0), (Z.eqb_spec r 0);
      try destruct (Z.compare_spec (2 * (2 * r - D)) D);
      try destruct (Z.compare_spec (2 * r) D); try lia; code_arith.
  - destruct (Z.eqb_spec (2 * r - 0) 0), (Z.eqb_spec r 0);
      try destruct (Z.compare_spec (2 * (2 * r - 0)) D);
      try destruct (Z.compare_spec (2 * r) D); try lia; code_arith.
Qed.


Lemma quotient_mantissa m1 e1 m2 e2 :
  mantissa24 m1 -> mantissa24 m2 ->
  mantissa24 (fst (quotient_scale m1 e1 m2 e2) / m2)
  /\ 0 <= fst (quotient_scale m1 e1 m2 e2).
Proof.
  unfold mantissa24, quotient_scale. intros H1 H2.
  change (2 ^ 24) with (2 * 2 ^ 23) in *. set (h := 2 ^ 23) in *.
  assert (0 < h) by reflexivity.
  destruct (Z.ltb_spec m1 m2); cbn [fst]; (split; [split|]); try nia.
  - apply Z.div_le_lower_bound; nia.
  - apply Z.div_lt_upper_bound; nia.
  - apply Z.div_le_lower_bound; nia.
  - apply Z.div_lt_upper_bound; nia.
Qed.

Lemma SFdiv_eval p1 e1 p2 e2 :
  mantissa24 (Zpos p1) -> mantissa24 (Zpos p2) ->
  -100 <= e1 - e2 <= 100 ->
  SFdiv 24 128 (S754_finite false p1 e1) (S754_finite false p2 e2)
    = finite (normal (rne_code (divcode (fst (quotient_scale (Zpos p1) e1 (Zpos p2) e2))
                                        (Zpos p2)))
                     (snd (quotient_scale (Zpos p1) e1 (Zpos p2) e2))).
Proof.
  intros H1 H2 He.
  pose proof (quotient_mantissa (Zpos p1) e1 (Zpos p2) e2 H1 H2) as [QM QN].
  unfold mantissa24 in H1, H2.
  unfold SFdiv, SFdiv_core_binary.
  rewrite (Zdigits2_unique (Zpos p1) 24), (Zdigits2_unique (Zpos p2) 24)
    by (try split; try reflexivity; lia).
  rewrite fexp_normal by lia.
  replace (Z.min (24 + e1 - (24 + e2) - 24) (e1 - e2)) with (e1 - e2 - 24) by lia.
  replace (e1 - e2 - (e1 - e2 - 24)) with 24 by lia.
  cbv iota. rewrite Z.shiftl_mul_pow2 by lia.
  set (N := Zpos p1 * 2 ^ 24).
  assert (DE : Z.div_eucl N (Zpos p2) = (N / Zpos p2, N mod Zpos p2))
    by (unfold Z.div, Z.modulo; now destruct (Z.div_eucl N (Zpos p2))).
  rewrite DE. cbn [xorb].
  pose proof (Z.mod_pos_bound N (Zpos p2) eq_refl) as RB.
  assert (QL : 2 ^ 23 <= N / Zpos p2).
  { apply Z.div_le_lower_bound; [reflexivity|]. unfold N.
    change (2 ^ 24) with (2 * 2 ^ 23) in *. nia. }
  unfold quotient_scale in *.
  destruct (Z.ltb_spec (Zpos p1) (Zpos p2)) as [Lt|Ge]; cbn [fst snd] in *.
  - fold N in QM. unfold mantissa24 in QM.
    assert (D24 : Zdigits2 (N / Zpos p2) = 24)
      by (apply Zdigits2_unique; [lia|exact QM]).
    rewrite binary_round_aux_eval; rewrite ?D24; try lia.
    replace (24 - 24) with 0 by reflexivity. rewrite Z.add_0_r.
    cbn [Z.to_nat Nat.iter nat_rect].
    rewrite code_new_location by exact RB. reflexivity.
  - assert (D25 : Zdigits2 (N / Zpos p2) = 25).
    { apply Zdigits2_unique; [lia|]. split.
      - apply Z.div_le_lower_bound; [reflexivity|]. unfold N. nia.
      - apply Z.div_lt_upper_bound; [reflexivity|]. unfold N.
        change (2 ^ 25) with (2 * 2 ^ 24). change (2 ^ 24) with (2 * 2 ^ 23) in *. nia. }
    rewrite binary_round_aux_eval; rewrite ?D25; try lia.
    replace (25 - 24) with 1 by reflexivity.
    change (Nat.iter (Z.to_nat 1) shr1_code ?c) with (shr1_code c).
    rewrite code_new_location by exact RB.
    fold (divcode N (Zpos p2)).
    replace N with (2 * (Zpos p1 * 2 ^ 23))
      by (unfold N; change (2 ^ 24) with (2 * 2 ^ 23); lia).
    rewrite shr1_divcode by lia.
    replace (e1 - e2 - 24 + 1) with (e1 - e2 - 23) by lia. reflexivity.
Qed.

Lemma quotient_mono m1 e1 m1' e1' m2 e2 :
  mantissa24 m1 -> mantissa24 m1' -> mantissa24 m2 ->
  lex_le (m1, e1) (m1', e1') ->
  lex_le (normal (rne_code (divcode (fst (quotient_scale m1 e1 m2 e2)) m2))
                 (snd (quotient_scale m1 e1 m2 e2)))
         (normal (rne_code (divcode (fst (quotient_scale m1' e1' m2 e2)) m2))
                 (snd (quotient_scale m1' e1' m2 e2))).
Proof.
  intros H1 H1' H2 L.
  destruct (quotient_mantissa m1 e1 m2 e2 H1 H2) as [Q N].
  destruct (quotient_mantissa m1' e1' m2 e2 H1' H2) as [Q' N'].
  apply rounded_lex; rewrite ?divcode_quot; try assumption.
  assert (C : snd (quotient_scale m1 e1 m2 e2) < snd (quotient_scale m1' e1' m2 e2)
              \/ (snd (quotient_scale m1 e1 m2 e2) = snd (quotient_scale m1' e1' m2 e2)
                  /\ fst (quotient_scale m1 e1 m2 e2)
                     <= fst (quotient_scale m1' e1' m2 e2))).
  { unfold quotient_scale, lex_le, mantissa24 in *. cbn [fst snd] in L.
    change (2 ^ 24) with (2 * 2 ^ 23) in *. set (h := 2 ^ 23) in *.
    assert (0 < h) by reflexivity.
    destruct (Z.ltb_spec m1 m2), (Z.ltb_spec m1' m2); cbn [fst snd]; nia. }
  destruct C as [C|[C1 C2]]; [now left|right].
  split; [assumption|]. apply divcode_mono; unfold mantissa24 in H2; lia.
Qed.


(** *** The order of [SpecFloat] *)

Lemma SFleb_nan_r t : SFleb t S754_nan = false.
Proof. now destruct t. Qed.

Lemma SFleb_trans x y z :
  SFleb x y = true -> SFleb y z = true -> SFleb x z = true.
Proof.
  unfold SFleb, SFcompare.
  destruct x as [sx|sx| |sx mx ex], y as [sy|sy| |sy my ey], z as [sz|sz| |sz mz ez];
    try destruct sx; try destruct sy; try destruct sz;
    try discriminate; try reflexivity;
    change (Pos.compare_cont Eq ?a ?b) with (Pos.compare a b);
    intros H1 H2;
    try destruct (Z.compare_spec ex ey);
    try destruct (Z.compare_spec ey ez);
    try destruct (Z.compare_spec ex ez);
    try destruct (Pos.compare_spec mx my);
    try destruct (Pos.compare_spec my mz);
    try destruct (Pos.compare_spec mx mz);
    cbn [CompOpp] in *; try discriminate; try reflexivity; subst; lia.
Qed.


(** *** The usage percentage *)

Lemma of_u64_pair a : 0 < a < 2 ^ 64 -> Float32.of_u64 a = finite (u64_pair a).
Proof. exact (of_u64_eval a). Qed.

Lemma u64_pair_range a :
  0 < a < 2 ^ 64 -> mantissa24 (fst (u64_pair a)) /\ -23 <= snd (u64_pair a) <= 41.
Proof.
  intros Ha. destruct (Zdigits2_bounds a) as [[L U] P]; [lia|].
  assert (D64 : Zdigits2 a <= 64).
  { assert (Zdigits2 a - 1 < 64) by (apply (Z.pow_lt_mono_r_iff 2); lia). lia. }
  unfold u64_pair.
  destruct (normal_mantissa24 (rne_code (u64_code a (Zdigits2 a))) (Zdigits2 a - 24))
    as [M E]; [apply rne_code_mantissa, u64_code_mantissa; lia|].
  split; [exact M|lia].
Qed.

Lemma div_finite p q :
  mantissa24 (fst p) -> mantissa24 (fst q) -> -100 <= snd p - snd q <= 100 ->
  Float32.div (finite p) (finite q) = finite (quotient_pair p q).
Proof.
  destruct p as [m1 e1], q as [m2 e2]. cbn [fst snd]. intros H1 H2 He.
  unfold Float32.div, Float32.prec, Float32.emax, finite, quotient_pair. cbn [fst snd].
  assert (P1 : Zpos (Z.to_pos m1) = m1) by (apply Z2Pos.id; unfold mantissa24 in H1; lia).
  assert (P2 : Zpos (Z.to_pos m2) = m2) by (apply Z2Pos.id; unfold mantissa24 in H2; lia).
  rewrite SFdiv_eval; rewrite ?P1, ?P2; try assumption. reflexivity.
Qed.

Lemma quotient_pair_mantissa p q :
  mantissa24 (fst p) -> mantissa24 (fst q) -> mantissa24 (fst (quotient_pair p q)).
Proof.
  intros H1 H2. unfold quotient_pair.
  apply normal_mantissa24, rne_code_mantissa. rewrite divcode_quot.
  now apply quotient_mantissa.
Qed.

Lemma quotient_pair_mono p p' q :
  mantissa24 (fst p) -> mantissa24 (fst p') -> mantissa24 (fst q) ->
  lex_le p p' -> lex_le (quotient_pair p q) (quotient_pair p' q).
Proof.
  destruct p as [m1 e1], p' as [m1' e1'], q as [m2 e2]. cbn [fst snd].
  intros H1 H1' H2 L. unfold quotient_pair. cbn [fst snd].
  now apply quotient_mono.
Qed.

(** Whatever the cap, a float threshold that the percentage of a usage
    reaches is reached by the percentage of every larger usage. *)
Lemma percentage_reaches cap a b t :
  is_u64 cap -> is_u64 a -> is_u64 b -> a <= b ->
  Float32.geb (Float32.div (Float32.of_u64 a) (Float32.of_u64 cap)) t = true ->
  Float32.geb (Float32.div (Float32.of_u64 b) (Float32.of_u64 cap)) t = true.
Proof.
  unfold is_u64, Float32.geb. intros Hc Ha Hb Hab.
  destruct (Z.eq_dec a b) as [->|Nab]; [trivial|].
  assert (Pb : 0 < b < 2 ^ 64) by lia.
  rewrite (of_u64_pair b Pb).
  destruct (u64_pair_range b Pb) as [Mb Eb].
  destruct (Z.eq_dec cap 0) as [->|Nc].
  - change (Float32.of_u64 0) with (S754_zero false).
    destruct (Z.eq_dec a 0) as [->|Na].
    + change (Float32.of_u64 0) with (S754_zero false).
      cbn. now rewrite SFleb_nan_r.
    + rewrite (of_u64_pair a) by lia. trivial.
  - assert (Pc : 0 < cap < 2 ^ 64) by lia.
    rewrite (of_u64_pair cap Pc).
    destruct (u64_pair_range cap Pc) as [Mc Ec].
    rewrite (div_finite (u64_pair b)) by (try assumption; lia).
    pose proof (quotient_pair_mantissa _ _ Mb Mc) as Qb.
    destruct (Z.eq_dec a 0) as [->|Na].
    + change (Float32.of_u64 0) with (S754_zero false).
      intros H. apply (SFleb_trans _ _ _ H). reflexivity.
    + assert (Pa : 0 < a < 2 ^ 64) by lia.
      rewrite (of_u64_pair a Pa).
      destruct (u64_pair_range a Pa) as [Ma Ea].
      rewrite (div_finite (u64_pair a)) by (try assumption; lia).
      pose proof (quotient_pair_mantissa _ _ Ma Mc) as Qa.
      intros H. apply (SFleb_trans _ _ _ H).
      apply SFleb_finite; try (unfold mantissa24 in Qa, Qb; lia).
      apply quotient_pair_mono; try assumption.
      apply u64_pair_mono. lia.
Qed.

End RoundingFacts.

Module PressureFacts.
Import VRAM RoundingFacts.

(** C7.  For a fixed configuration and two usages [a < b] (64-bit unsigned,
    as is the cap), the pressure level computed for [a] is at most the one
    computed for [b]: the conversion to [float] and the division are monotone
    under round-to-nearest, and the threshold tests are tried from the highest
    level down. *)
Theorem C7_pressure_monotone_in_usage {World : Type} (m : VRAMManager World)
    (a b peak_a peak_b : Z) :
  is_u64 (vram_cap_bytes (config_ m)) -> is_u64 a -> is_u64 b -> a < b ->
  pressure_rank (CalculatePressure (set_usage a peak_a m))
    <= pressure_rank (CalculatePressure (set_usage b peak_b m)).
Proof.
  intros Hc Ha Hb Hab.
  assert (R : forall t,
    Float32.geb (GetUsagePercentage (set_usage a peak_a m)) t = true ->
    Float32.geb (GetUsagePercentage (set_usage b peak_b m)) t = true).
  { intros t. apply (percentage_reaches (vram_cap_bytes (config_ m)) a b t Hc Ha Hb).
    lia. }
  unfold CalculatePressure.
  set (ua := GetUsagePercentage (set_usage a peak_a m)) in *.
  set (ub := GetUsagePercentage (set_usage b peak_b m)) in *.
  change (config_ (set_usage a peak_a m)) with (config_ m).
  change (config_ (set_usage b peak_b m)) with (config_ m).
  pose proof (R (critical_pressure_threshold (config_ m))) as R4.
  pose proof (R (high_pressure_threshold (config_ m))) as R3.
  pose proof (R (medium_pressure_threshold (config_ m))) as R2.
  pose proof (R (low_pressure_threshold (config_ m))) as R1.
  destruct (Float32.geb ua (critical_pressure_threshold (config_ m)));
    [rewrite (R4 eq_refl); cbn; lia|].
  destruct (Float32.geb ua (high_pressure_threshold (config_ m)));
    [rewrite (R3 eq_refl); destruct (Float32.geb ub _); cbn; lia|].
  destruct (Float32.geb ua (medium_pressure_threshold (config_ m)));
    [rewrite (R2 eq_refl); repeat destruct (Float32.geb ub _); cbn; lia|].
  destruct (Float32.geb ua (low_pressure_threshold (config_ m)));
    [rewrite (R1 eq_refl)|]; repeat destruct (Float32.geb ub _); cbn; lia.
Qed.

(** C7, on a MidRange controller between 800 MiB and 1470 MiB. *)
Lemma C7_pressure_monotone_witness :
  let m := construct (World := unit) GetRecommendedConfig_MidRange in
  is_u64 (vram_cap_bytes (config_ m))
  /\ is_u64 (800 * MiB) /\ is_u64 (1470 * MiB) /\ 800 * MiB < 1470 * MiB
  /\ pressure_rank (CalculatePressure (set_usage (800 * MiB) (800 * MiB) m))
     <= pressure_rank (CalculatePressure (set_usage (1470 * MiB) (1470 * MiB) m)).
Proof.
  intros m.
  assert (Hc : is_u64 (vram_cap_bytes (config_ m)))
    by (vm_compute; split; [discriminate|reflexivity]).
  assert (Ha : is_u64 (800 * MiB)) by (vm_compute; split; [discriminate|reflexivity]).
  assert (Hb : is_u64 (1470 * MiB)) by (vm_compute; split; [discriminate|reflexivity]).
  assert (Hab : 800 * MiB < 1470 * MiB) by (vm_compute; reflexivity).
  split; [exact Hc|]. split; [exact Ha|]. split; [exact Hb|]. split; [exact Hab|].
  exact (C7_pressure_monotone_in_usage m (800 * MiB) (1470 * MiB)
           (800 * MiB) (1470 * MiB) Hc Ha Hb Hab).
Defined.

(** The four threshold literals of the MidRange preset, as binary32 bit
    patterns [0x3F19999A], [0x3F400000], [0x3F59999A], [0x3F733333]. *)
Example MidRange_threshold_literals :
  (low_pressure_threshold GetRecommendedConfig_MidRange,
   medium_pressure_threshold GetRecommendedConfig_MidRange,
   high_pressure_threshold GetRecommendedConfig_MidRange,
   critical_pressure_threshold GetRecommendedConfig_MidRange)
    = (S754_finite false 10066330 (-24), S754_finite false 12582912 (-24),
       S754_finite false 14260634 (-24), S754_finite false 15938355 (-24)).
Proof. vm_compute. reflexivity. Qed.

(** The levels of the scenario usages on the MidRange preset. *)
Example MidRange_levels :
  map (fun mib => pressure_of GetRecommendedConfig_MidRange (mib * MiB))
      [800; 1300; 1470]
    = [MP_None; MP_Medium; MP_Critical].
Proof. vm_compute. reflexivity. Qed.

End PressureFacts.

(** ** Budget controller: purges, switches, peak and accessors *)

Module VRAMMore.
Import VRAM VRAMFacts.

Section Purges.
Context {World : Type}.
Implicit Types (s : Machine World) (m : VRAMManager World).

(** *** Steps that run no emergency purge *)

Lemma hush_refl s : hush s s.
Proof.
  repeat split. exists []. now rewrite app_nil_r.
Qed.

Lemma hush_trans s1 s2 s3 : hush s1 s2 -> hush s2 s3 -> hush s1 s3.
Proof.
  intros (A1 & A2 & A3 & A4 & e1 & A5 & A6) (B1 & B2 & B3 & B4 & e2 & B5 & B6).
  repeat split; try congruence.
  exists (e1 ++ e2). rewrite B5, A5, app_assoc, forallb_app, A6, B6. auto.
Qed.

Lemma emergency_gate_of_hush s s' :
  hush s s' -> emergency_gate_open (self s') = emergency_gate_open (self s).
Proof.
  intros (A1 & A2 & A3 & _). unfold emergency_gate_open. now rewrite A1, A2, A3.
Qed.

Lemma hush_ExecuteCleanup s : hush s (ExecuteCleanup s).
Proof.
  destruct (cleanup_gate_open (self s)) eqn:G.
  - rewrite ExecuteCleanup_open by assumption.
    repeat split. cbn [calls]. eexists. split; [reflexivity|].
    apply run_cleanup_callbacks_events.
  - rewrite ExecuteCleanup_closed by assumption. apply hush_refl.
Qed.

Lemma hush_ExecuteEmergencyPurge s :
  emergency_gate_open (self s) = false -> hush s (ExecuteEmergencyPurge s).
Proof.
  intros H. rewrite ExecuteEmergencyPurge_closed by assumption. apply hush_refl.
Qed.

Lemma hush_on_self_keep (f : VRAMManager World -> VRAMManager World) s :
  (forall m, config_ (f m) = config_ m /\ current_frame_ (f m) = current_frame_ m
             /\ last_emergency_frame_ (f m) = last_emergency_frame_ m
             /\ emergency_purge_count_ (f m) = emergency_purge_count_ m) ->
  hush s (on_self f s).
Proof.
  intros H. destruct (H (self s)) as (A & B & C & D).
  repeat split; cbn [self on_self calls]; try assumption.
  exists []. now rewrite app_nil_r.
Qed.

Lemma hush_HandlePressureChange p s :
  emergency_gate_open (self s) = false -> hush s (HandlePressureChange p s).
Proof.
  intros H. unfold HandlePressureChange.
  assert (Q1 : hush s (if pressure_rank MP_High <=? pressure_rank p
                       then ExecuteCleanup s else s)).
  { destruct (_ <=? _); [apply hush_ExecuteCleanup | apply hush_refl]. }
  destruct (pressure_eqb p MP_Critical); [|exact Q1].
  eapply hush_trans; [exact Q1|].
  apply hush_ExecuteEmergencyPurge. now rewrite (emergency_gate_of_hush _ _ Q1).
Qed.

Lemma ShouldEmergencyPurge_closed m :
  emergency_gate_open m = false -> ShouldEmergencyPurge m = false.
Proof.
  unfold emergency_gate_open, ShouldEmergencyPurge. intros H.
  destruct (enable_emergency_purge (config_ m)); cbn [andb] in *; [|reflexivity].
  rewrite H. apply andb_false_r.
Qed.

Lemma hush_UpdateUsage bytes s :
  emergency_gate_open (self s) = false -> hush s (UpdateUsage bytes s).
Proof.
  intros H. unfold UpdateUsage.
  set (s0 := on_self _ s).
  assert (Q0 : hush s s0) by (apply hush_on_self_keep; intros m; repeat split).
  set (np := CalculatePressure (self s0)).
  set (s1 := if pressure_eqb np (last_pressure_ (self s0)) then s0 else _).
  assert (Q1 : hush s s1).
  { subst s1. destruct (pressure_eqb _ _); [exact Q0|].
    eapply hush_trans; [exact Q0|].
    eapply hush_trans.
    - apply hush_HandlePressureChange. now rewrite (emergency_gate_of_hush _ _ Q0).
    - apply hush_on_self_keep; intros m; repeat split. }
  set (s2 := if ShouldCleanup (self s1) then ExecuteCleanup s1 else s1).
  assert (Q2 : hush s s2).
  { subst s2. destruct (ShouldCleanup (self s1)); [|exact Q1].
    eapply hush_trans; [exact Q1|apply hush_ExecuteCleanup]. }
  rewrite ShouldEmergencyPurge_closed
    by (now rewrite (emergency_gate_of_hush _ _ Q2)).
  exact Q2.
Qed.

Lemma emergency_gate_closed_below m k :
  u32 (current_frame_ m - last_emergency_frame_ m) = Z.of_nat k ->
  (k < 120)%nat -> emergency_gate_open m = false.
Proof.
  intros E Hk. unfold emergency_gate_open, emergency_min_interval. rewrite E.
  destruct (Z.leb_spec 120 (Z.of_nat k)); [lia|]. apply andb_false_r.
Qed.

(** One call made [k < 120] frames after the purge at [last_emergency_frame_]. *)
Lemma perform_within_purge_interval (c : Call World) s k :
  u32 (current_frame_ (self s) - last_emergency_frame_ (self s)) = Z.of_nat k ->
  (k + ticks_in [c] < 120)%nat ->
  u32 (current_frame_ (self (perform c s)) - last_emergency_frame_ (self (perform c s)))
    = Z.of_nat (k + ticks_in [c])
  /\ last_emergency_frame_ (self (perform c s)) = last_emergency_frame_ (self s)
  /\ emergency_purge_count_ (self (perform c s)) = emergency_purge_count_ (self s)
  /\ exists evs, calls (perform c s) = calls s ++ evs
                 /\ forallb is_cleanup_event evs = true.
Proof.
  intros E Hk.
  assert (G : emergency_gate_open (self s) = false)
    by (apply (emergency_gate_closed_below _ k); [assumption|lia]).
  assert (from_hush : forall s', ticks_in [c] = 0%nat -> hush s s' ->
    u32 (current_frame_ (self s') - last_emergency_frame_ (self s'))
      = Z.of_nat (k + ticks_in [c])
    /\ last_emergency_frame_ (self s') = last_emergency_frame_ (self s)
    /\ emergency_purge_count_ (self s') = emergency_purge_count_ (self s)
    /\ exists evs, calls s' = calls s ++ evs
                   /\ forallb is_cleanup_event evs = true).
  { intros s' T (A1 & A2 & A3 & A4 & A5). rewrite T, Nat.add_0_r, A2, A3. auto. }
  destruct c; cbn [perform].
  - apply from_hush; [reflexivity|]. now apply hush_UpdateUsage.
  - unfold TickFrame. cbn [self on_self calls set_current_frame
                           current_frame_ last_emergency_frame_ emergency_purge_count_].
    rewrite u32_tick, E.
    repeat split.
    + unfold ticks_in in *. cbn [filter is_tick length] in *. unfold u32.
      rewrite Z.mod_small; lia.
    + exists []. now rewrite app_nil_r.
  - apply from_hush; [reflexivity|]. apply hush_ExecuteCleanup.
  - apply from_hush; [reflexivity|]. now apply hush_ExecuteEmergencyPurge.
  - apply from_hush; [reflexivity|].
    apply hush_on_self_keep; intros m; repeat split.
  - apply from_hush; [reflexivity|].
    apply hush_on_self_keep; intros m; repeat split.
Qed.

Lemma run_within_purge_interval (cs : list (Call World)) : forall s k,
  u32 (current_frame_ (self s) - last_emergency_frame_ (self s)) = Z.of_nat k ->
  (k + ticks_in cs < 120)%nat ->
  last_emergency_frame_ (self (run cs s)) = last_emergency_frame_ (self s)
  /\ emergency_purge_count_ (self (run cs s)) = emergency_purge_count_ (self s)
  /\ exists evs, calls (run cs s) = calls s ++ evs
                 /\ forallb is_cleanup_event evs = true.
Proof.
  induction cs as [|c cs IH]; intros s k E Hk.
  - cbn [run fold_left]. repeat split. exists []. now rewrite app_nil_r.
  - rewrite ticks_in_cons in Hk.
    destruct (perform_within_purge_interval c s k E) as (E1 & L1 & C1 & e1 & P1 & F1); [lia|].
    destruct (IH (perform c s) _ E1) as (L2 & C2 & e2 & P2 & F2); [lia|].
    change (run (c :: cs) s) with (run cs (perform c s)).
    repeat split; try congruence.
    exists (e1 ++ e2). rewrite P2, P1, app_assoc, forallb_app, F1, F2. auto.
Qed.


Lemma cleanup_and_emergency_events evs :
  forallb is_cleanup_event evs = true -> forallb is_emergency_event evs = true ->
  evs = [].
Proof.
  destruct evs as [|[i f|i] evs]; cbn; intros A B; [reflexivity|discriminate..].
Qed.

(** X1.  A controller starts with both gates closed: the frame of the last
    cleanup and of the last purge start at 0, like the frame counter.  So
    for its first 59 frames it invokes no callback at all, and for its first
    119 frames no emergency callback, whatever usages are reported and
    whatever is requested by hand. *)
Theorem no_callback_during_startup_interval
    (config : Config) (w : World) (cs : list (Call World)) :
  Z.of_nat (ticks_in cs) < emergency_min_interval ->
  let s := run cs (boot config w) in
  forallb is_cleanup_event (calls s) = true
  /\ emergency_purge_count_ (self s) = 0
  /\ (Z.of_nat (ticks_in cs) < cleanup_min_interval ->
      calls s = [] /\ cleanup_count_ (self s) = 0).
Proof.
  intros K s. unfold emergency_min_interval, cleanup_min_interval in *.
  destruct (run_within_purge_interval cs (boot config w) 0%nat)
    as (_ & P & evs & E & A); [reflexivity|lia|].
  fold s in P, E. cbn [boot calls app] in E.
  split; [now rewrite E|]. split; [exact P|].
  intros K'.
  destruct (run_within_interval cs (boot config w) 0%nat)
    as (_ & C & evs' & E' & B); [reflexivity|lia|].
  fold s in C, E'. cbn [boot calls app] in E'.
  split; [|exact C].
  rewrite E. apply cleanup_and_emergency_events; [exact A|].
  rewrite E in E'. now rewrite E'.
Qed.

End Purges.


Section Switches.
Context {World : Type}.
Implicit Types (s : Machine World) (m : VRAMManager World).

(** *** The enable flags *)

Lemma cleanup_off_gate m :
  enable_auto_cleanup (config_ m) = false -> cleanup_gate_open m = false.
Proof. unfold cleanup_gate_open. now intros ->. Qed.

Lemma purge_off_gate m :
  enable_emergency_purge (config_ m) = false -> emergency_gate_open m = false.
Proof. unfold emergency_gate_open. now intros ->. Qed.

Lemma perform_cleanup_off (c : Call World) s :
  enable_auto_cleanup (config_ (self s)) = false ->
  config_ (self (perform c s)) = config_ (self s)
  /\ cleanup_count_ (self (perform c s)) = cleanup_count_ (self s)
  /\ exists evs, calls (perform c s) = calls s ++ evs
                 /\ forallb is_emergency_event evs = true.
Proof.
  intros H. pose proof (cleanup_off_gate _ H) as G.
  assert (from_quiet : forall s', quiet s s' ->
    config_ (self s') = config_ (self s)
    /\ cleanup_count_ (self s') = cleanup_count_ (self s)
    /\ exists evs, calls s' = calls s ++ evs
                   /\ forallb is_emergency_event evs = true).
  { intros s' (A1 & A2 & A3 & A4 & A5). auto. }
  destruct c; cbn [perform].
  - apply from_quiet. now apply quiet_UpdateUsage.
  - repeat split. exists []. cbn [TickFrame on_self calls]. now rewrite app_nil_r.
  - apply from_quiet. now apply quiet_ExecuteCleanup.
  - apply from_quiet. now apply quiet_ExecuteEmergencyPurge.
  - apply from_quiet. apply quiet_on_self_keep; intros m; repeat split.
  - apply from_quiet. apply quiet_on_self_keep; intros m; repeat split.
Qed.

Lemma perform_purge_off (c : Call World) s :
  enable_emergency_purge (config_ (self s)) = false ->
  config_ (self (perform c s)) = config_ (self s)
  /\ emergency_purge_count_ (self (perform c s)) = emergency_purge_count_ (self s)
  /\ exists evs, calls (perform c s) = calls s ++ evs
                 /\ forallb is_cleanup_event evs = true.
Proof.
  intros H. pose proof (purge_off_gate _ H) as G.
  assert (from_hush : forall s', hush s s' ->
    config_ (self s') = config_ (self s)
    /\ emergency_purge_count_ (self s') = emergency_purge_count_ (self s)
    /\ exists evs, calls s' = calls s ++ evs
                   /\ forallb is_cleanup_event evs = true).
  { intros s' (A1 & A2 & A3 & A4 & A5). auto. }
  destruct c; cbn [perform].
  - apply from_hush. now apply hush_UpdateUsage.
  - repeat split. exists []. cbn [TickFrame on_self calls]. now rewrite app_nil_r.
  - apply from_hush. apply hush_ExecuteCleanup.
  - apply from_hush. now apply hush_ExecuteEmergencyPurge.
  - apply from_hush. apply hush_on_self_keep; intros m; repeat split.
  - apply from_hush. apply hush_on_self_keep; intros m; repeat split.
Qed.

(** X3.  With [enable_auto_cleanup] off, no call ever invokes a cleanup callback:
    not a reported usage above every threshold, not [RequestCleanup], not
    the cleanup pass that follows an emergency purge.  The cleanup count
    stays put and every callback that runs is an emergency callback. *)
Theorem cleanup_switched_off_runs_no_cleanup_callback
    (cs : list (Call World)) (s : Machine World) :
  enable_auto_cleanup (config_ (self s)) = false ->
  cleanup_count_ (self (run cs s)) = cleanup_count_ (self s)
  /\ exists evs, calls (run cs s) = calls s ++ evs
                 /\ forallb is_emergency_event evs = true.
Proof.
  revert s. induction cs as [|c cs IH]; intros s H.
  - cbn [run fold_left]. split; [reflexivity|]. exists []. now rewrite app_nil_r.
  - destruct (perform_cleanup_off c s H) as (C1 & N1 & e1 & P1 & F1).
    change (run (c :: cs) s) with (run cs (perform c s)).
    destruct (IH (perform c s)) as (N2 & e2 & P2 & F2); [now rewrite C1|].
    split; [congruence|].
    exists (e1 ++ e2). rewrite P2, P1, app_assoc, forallb_app, F1, F2. auto.
Qed.

(** X4.  With [enable_emergency_purge] off, no call ever invokes an emergency
    callback, [ForceEmergencyPurge] included; the purge count stays put and
    every callback that runs is a cleanup callback. *)
Theorem purge_switched_off_runs_no_emergency_callback
    (cs : list (Call World)) (s : Machine World) :
  enable_emergency_purge (config_ (self s)) = false ->
  emergency_purge_count_ (self (run cs s)) = emergency_purge_count_ (self s)
  /\ exists evs, calls (run cs s) = calls s ++ evs
                 /\ forallb is_cleanup_event evs = true.
Proof.
  revert s. induction cs as [|c cs IH]; intros s H.
  - cbn [run fold_left]. split; [reflexivity|]. exists []. now rewrite app_nil_r.
  - destruct (perform_purge_off c s H) as (C1 & N1 & e1 & P1 & F1).
    change (run (c :: cs) s) with (run cs (perform c s)).
    destruct (IH (perform c s)) as (N2 & e2 & P2 & F2); [now rewrite C1|].
    split; [congruence|].
    exists (e1 ++ e2). rewrite P2, P1, app_assoc, forallb_app, F1, F2. auto.
Qed.

(** *** Usage and peak *)







(** *** One cleanup pass *)

Lemma run_cleanup_callbacks_sum cbs : forall i t (w : World),
  let out := run_cleanup_callbacks cbs i t w in
  map event_index (snd out) = seq i (length cbs)
  /\ u64 (fst (fst out)) = u64 (t + freed_in (snd out)).
Proof.
  induction cbs as [|cb rest IH]; intros i t w.
  - cbn. split; [reflexivity|]. f_equal. lia.
  - cbn [run_cleanup_callbacks]. destruct (cb w) as [freed w1].
    specialize (IH (S i) (u64 (t + u64 freed)) w1).
    destruct (run_cleanup_callbacks rest (S i) (u64 (t + u64 freed)) w1)
      as [[t' w2] evs].
    cbv zeta in *. cbn [fst snd map event_index length seq freed_in fold_right] in *.
    destruct IH as [I1 I2]. split; [now rewrite I1|].
    rewrite I2. fold (freed_in evs). unfold u64.
    rewrite Zplus_mod_idemp_l. f_equal. lia.
Qed.

Lemma run_cleanup_callbacks_host cbs : forall i t (w : World),
  snd (fst (run_cleanup_callbacks cbs i t w))
    = fold_left (fun w' cb => snd (cb w')) cbs w.
Proof.
  induction cbs as [|cb rest IH]; intros i t w; [reflexivity|].
  cbn [run_cleanup_callbacks fold_left]. destruct (cb w) as [freed w1] eqn:E.
  specialize (IH (S i) (u64 (t + u64 freed)) w1).
  destruct (run_cleanup_callbacks rest (S i) (u64 (t + u64 freed)) w1)
    as [[t' w2] evs].
  cbn [fst snd] in *. exact IH.
Qed.

(** X6.  A cleanup that executes invokes every registered cleanup callback exactly
    once, in registration order, each on the host state the one before left,
    and nothing else; it adds the byte counts they returned to
    [total_bytes_freed_] (modulo 2^64), counts one cleanup and records the
    current frame as that of the last cleanup. *)
Theorem cleanup_pass_runs_every_callback_once (s : Machine World) :
  cleanup_gate_open (self s) = true ->
  let s' := ExecuteCleanup s in
  exists evs,
    calls s' = calls s ++ evs
    /\ forallb is_cleanup_event evs = true
    /\ map event_index evs = seq 0 (length (cleanup_callbacks_ (self s)))
    /\ host s' = fold_left (fun w cb => snd (cb w)) (cleanup_callbacks_ (self s)) (host s)
    /\ total_bytes_freed_ (self s') = u64 (total_bytes_freed_ (self s) + freed_in evs)
    /\ cleanup_count_ (self s') = u32 (cleanup_count_ (self s) + 1)
    /\ last_cleanup_frame_ (self s') = current_frame_ (self s).
Proof.
  intros G s'. subst s'. rewrite (ExecuteCleanup_open s G).
  exists (snd (cleanup_pass (self s) (host s))).
  destruct (run_cleanup_callbacks_sum (cleanup_callbacks_ (self s)) 0 0 (host s))
    as [I S].
  fold (cleanup_pass (self s) (host s)) in I, S.
  cbn [self host calls record_cleanup total_bytes_freed_ cleanup_count_
       last_cleanup_frame_].
  repeat split.
  - apply run_cleanup_callbacks_events.
  - exact I.
  - apply run_cleanup_callbacks_host.
  - rewrite Z.add_0_l in S. unfold u64 in *.
    rewrite <- (Zplus_mod_idemp_r (fst (fst (cleanup_pass (self s) (host s))))
                  (total_bytes_freed_ (self s))), S.
    apply Zplus_mod_idemp_r.
Qed.

(** *** The allocation accessors *)

(** X8.  While [current_usage_ + size_bytes] does not pass 2^64, [CanAllocate]
    says yes exactly when the controller is not over its limit and the size
    is at most [GetAvailableVRAM]. *)
Theorem CanAllocate_agrees_with_GetAvailableVRAM
    (size_bytes : Z) (m : VRAMManager World) :
  0 <= current_usage_ m -> 0 <= size_bytes ->
  current_usage_ m + size_bytes < 2 ^ 64 ->
  CanAllocate size_bytes m
    = negb (IsOverLimit m) && (size_bytes <=? GetAvailableVRAM m).
Proof.
  intros U N W. unfold CanAllocate, IsOverLimit, GetAvailableVRAM, u64.
  rewrite Z.mod_small by lia.
  destruct (Z.leb_spec (current_usage_ m + size_bytes) (vram_cap_bytes (config_ m)));
    destruct (Z.ltb_spec (vram_cap_bytes (config_ m)) (current_usage_ m));
    destruct (Z.leb_spec (vram_cap_bytes (config_ m)) (current_usage_ m));
    cbn [negb andb]; try lia;
    match goal with
    | |- _ = (?a <=? ?b) => destruct (Z.leb_spec a b); try reflexivity; lia
    | _ => reflexivity
    end.
Qed.

(** X9.  The sum in [CanAllocate] is a [u64] sum: a request so large that
    [current_usage_ + size_bytes] passes 2^64 is granted whenever the
    controller is within its cap. *)
Theorem CanAllocate_grants_requests_that_wrap
    (size_bytes : Z) (m : VRAMManager World) :
  is_u64 (current_usage_ m) -> is_u64 size_bytes ->
  is_u64 (vram_cap_bytes (config_ m)) ->
  current_usage_ m <= vram_cap_bytes (config_ m) ->
  2 ^ 64 <= current_usage_ m + size_bytes ->
  CanAllocate size_bytes m = true
  /\ GetAvailableVRAM m < size_bytes.
Proof.
  unfold is_u64. intros U N B C W. unfold CanAllocate, GetAvailableVRAM, u64.
  assert (E : (current_usage_ m + size_bytes) mod 2 ^ 64
              = current_usage_ m + size_bytes - 2 ^ 64)
    by (symmetry; apply (Z.mod_unique _ _ 1); lia).
  rewrite E. split; [apply Z.leb_le; lia|].
  destruct (Z.leb_spec (vram_cap_bytes (config_ m)) (current_usage_ m)); lia.
Qed.

End Switches.

Section Once.
Context {World : Type}.
Implicit Types (s : Machine World) (m : VRAMManager World).

(** *** One update, one pass *)

Lemma filter_cleanup_of_emergency evs :
  forallb is_emergency_event evs = true -> filter is_cleanup_event evs = [].
Proof.
  induction evs as [|[i f|i] evs IH]; cbn; [reflexivity|discriminate|exact IH].
Qed.

Lemma filter_emergency_of_cleanup evs :
  forallb is_cleanup_event evs = true -> filter is_emergency_event evs = [].
Proof.
  induction evs as [|[i f|i] evs IH]; cbn; [reflexivity|exact IH|discriminate].
Qed.

Lemma filter_keeps_all {A : Type} (f : A -> bool) l :
  forallb f l = true -> filter f l = l.
Proof.
  induction l as [|x l IH]; cbn; [reflexivity|].
  intros H. apply andb_true_iff in H. destruct H as [-> H]. now rewrite IH.
Qed.

Lemma run_emergency_callbacks_indices cbs : forall i (w : World),
  map event_index (snd (run_emergency_callbacks cbs i w)) = seq i (length cbs).
Proof.
  induction cbs as [|cb rest IH]; intros i w; [reflexivity|].
  cbn [run_emergency_callbacks]. specialize (IH (S i) (cb w)).
  destruct (run_emergency_callbacks rest (S i) (cb w)) as [w2 evs].
  cbn [snd map event_index length seq] in *. now rewrite IH.
Qed.

Lemma sealed_cleanup_gate m :
  last_cleanup_frame_ m = current_frame_ m -> cleanup_gate_open m = false.
Proof.
  intros E. unfold cleanup_gate_open. rewrite E, Z.sub_diag. apply andb_false_r.
Qed.

Lemma sealed_emergency_gate m :
  last_emergency_frame_ m = current_frame_ m -> emergency_gate_open m = false.
Proof.
  intros E. unfold emergency_gate_open. rewrite E, Z.sub_diag. apply andb_false_r.
Qed.

Lemma callbacks_ExecuteCleanup s :
  cleanup_callbacks_ (self (ExecuteCleanup s)) = cleanup_callbacks_ (self s)
  /\ emergency_callbacks_ (self (ExecuteCleanup s)) = emergency_callbacks_ (self s).
Proof.
  destruct (cleanup_gate_open (self s)) eqn:G.
  - rewrite ExecuteCleanup_open by assumption. split; reflexivity.
  - rewrite ExecuteCleanup_closed by assumption. split; reflexivity.
Qed.

Lemma once_cleanup_refl s : once_cleanup s s.
Proof.
  repeat split. exists []. rewrite app_nil_r. split; [reflexivity|].
  left. split; reflexivity.
Qed.

Lemma once_emergency_refl s : once_emergency s s.
Proof.
  repeat split. exists []. rewrite app_nil_r. split; [reflexivity|].
  left. split; reflexivity.
Qed.

Lemma once_cleanup_quiet s s' s'' :
  once_cleanup s s' -> quiet s' s'' ->
  cleanup_callbacks_ (self s'') = cleanup_callbacks_ (self s') ->
  once_cleanup s s''.
Proof.
  intros (C & F & B & evs & E & H) (C2 & F2 & L2 & _ & e2 & E2 & Q2) B2.
  repeat split; try congruence.
  exists (evs ++ e2). split; [rewrite E2, E; symmetry; apply app_assoc|].
  rewrite filter_app, (filter_cleanup_of_emergency _ Q2), app_nil_r.
  destruct H as [[L N]|[L N]]; [left|right]; split; congruence.
Qed.

Lemma once_emergency_hush s s' s'' :
  once_emergency s s' -> hush s' s'' ->
  emergency_callbacks_ (self s'') = emergency_callbacks_ (self s') ->
  once_emergency s s''.
Proof.
  intros (C & F & B & evs & E & H) (C2 & F2 & L2 & _ & e2 & E2 & Q2) B2.
  repeat split; try congruence.
  exists (evs ++ e2). split; [rewrite E2, E; symmetry; apply app_assoc|].
  rewrite filter_app, (filter_emergency_of_cleanup _ Q2), app_nil_r.
  destruct H as [[L N]|[L N]]; [left|right]; split; congruence.
Qed.

Lemma once_cleanup_ExecuteCleanup s s' :
  once_cleanup s s' -> once_cleanup s (ExecuteCleanup s').
Proof.
  intros H. destruct (cleanup_gate_open (self s')) eqn:G.
  - rewrite ExecuteCleanup_open by assumption.
    destruct H as (C & F & B & evs & E & H).
    destruct H as [[L N]|[L _]];
      [|rewrite (sealed_cleanup_gate _ L) in G; discriminate].
    repeat split; cbn [self calls record_cleanup config_ current_frame_
                       cleanup_callbacks_ last_cleanup_frame_]; try assumption.
    exists (evs ++ snd (cleanup_pass (self s') (host s'))).
    split; [rewrite E; symmetry; apply app_assoc|]. right. split; [reflexivity|].
    destruct (run_cleanup_callbacks_events (cleanup_callbacks_ (self s')) 0 0 (host s'))
      as [A _].
    destruct (run_cleanup_callbacks_sum (cleanup_callbacks_ (self s')) 0 0 (host s'))
      as [I _].
    fold (cleanup_pass (self s') (host s')) in A, I.
    rewrite filter_app, N, (filter_keeps_all _ _ A). cbn [app].
    now rewrite I, B.
  - now rewrite ExecuteCleanup_closed by assumption.
Qed.

Lemma once_emergency_ExecuteCleanup s s' :
  once_emergency s s' -> once_emergency s (ExecuteCleanup s').
Proof.
  intros H. apply (once_emergency_hush s s'); [exact H|apply hush_ExecuteCleanup|].
  apply callbacks_ExecuteCleanup.
Qed.

Lemma once_cleanup_ExecuteEmergencyPurge s s' :
  once_cleanup s s' -> once_cleanup s (ExecuteEmergencyPurge s').
Proof.
  intros H. destruct (emergency_gate_open (self s')) eqn:G.
  - rewrite ExecuteEmergencyPurge_open by assumption.
    set (s1 := {| self := self s';
                  host := fst (emergency_pass (self s') (host s'));
                  calls := calls s' ++ snd (emergency_pass (self s') (host s')) |}).
    assert (H1 : once_cleanup s s1).
    { apply (once_cleanup_quiet s s'); [exact H| |reflexivity].
      repeat split. cbn [calls s1]. eexists. split; [reflexivity|].
      apply run_emergency_callbacks_events. }
    apply (once_cleanup_quiet s (ExecuteCleanup s1)).
    + now apply once_cleanup_ExecuteCleanup.
    + apply quiet_on_self_keep; intros m; repeat split.
    + reflexivity.
  - now rewrite ExecuteEmergencyPurge_closed by assumption.
Qed.

Lemma once_emergency_ExecuteEmergencyPurge s s' :
  once_emergency s s' -> once_emergency s (ExecuteEmergencyPurge s').
Proof.
  intros H. destruct (emergency_gate_open (self s')) eqn:G.
  - rewrite ExecuteEmergencyPurge_open by assumption.
    set (s1 := {| self := self s';
                  host := fst (emergency_pass (self s') (host s'));
                  calls := calls s' ++ snd (emergency_pass (self s') (host s')) |}).
    destruct H as (C & F & B & evs & E & H).
    destruct H as [[L N]|[L _]];
      [|rewrite (sealed_emergency_gate _ L) in G; discriminate].
    destruct (hush_ExecuteCleanup s1) as (C1 & F1 & _ & _ & e3 & E3 & Q3).
    destruct (callbacks_ExecuteCleanup s1) as [_ B1].
    change (config_ (self s1)) with (config_ (self s')) in C1.
    change (current_frame_ (self s1)) with (current_frame_ (self s')) in F1.
    change (emergency_callbacks_ (self s1)) with (emergency_callbacks_ (self s')) in B1.
    repeat split; cbn [self on_self calls record_emergency config_ current_frame_
                       emergency_callbacks_ last_emergency_frame_]; try congruence.
    exists (evs ++ snd (emergency_pass (self s') (host s')) ++ e3).
    split.
    { rewrite E3. cbn [calls s1]. rewrite E. now rewrite <- !app_assoc. }
    right. split; [reflexivity|].
    destruct (run_emergency_callbacks_events (emergency_callbacks_ (self s')) 0 (host s'))
      as [A _].
    pose proof (run_emergency_callbacks_indices (emergency_callbacks_ (self s')) 0 (host s'))
      as I.
    fold (emergency_pass (self s') (host s')) in A, I.
    rewrite !filter_app, N, (filter_keeps_all _ _ A),
      (filter_emergency_of_cleanup _ Q3), app_nil_r. cbn [app].
    now rewrite I, B.
  - now rewrite ExecuteEmergencyPurge_closed by assumption.
Qed.

Lemma once_on_self_keep (f : VRAMManager World -> VRAMManager World) s s' :
  (forall m, config_ (f m) = config_ m /\ current_frame_ (f m) = current_frame_ m
             /\ cleanup_callbacks_ (f m) = cleanup_callbacks_ m
             /\ emergency_callbacks_ (f m) = emergency_callbacks_ m
             /\ last_cleanup_frame_ (f m) = last_cleanup_frame_ m
             /\ last_emergency_frame_ (f m) = last_emergency_frame_ m
             /\ cleanup_count_ (f m) = cleanup_count_ m
             /\ emergency_purge_count_ (f m) = emergency_purge_count_ m) ->
  once_cleanup s s' /\ once_emergency s s' ->
  once_cleanup s (on_self f s') /\ once_emergency s (on_self f s').
Proof.
  intros K [H1 H2]. destruct (K (self s')) as (A & B & C & D & E & F & G & H).
  split.
  - apply (once_cleanup_quiet s s'); [exact H1| |exact C].
    apply quiet_on_self_keep. intros m. destruct (K m) as (? & ? & ? & ? & ? & ? & ? & ?).
    repeat split; assumption.
  - apply (once_emergency_hush s s'); [exact H2| |exact D].
    apply hush_on_self_keep. intros m. destruct (K m) as (? & ? & ? & ? & ? & ? & ? & ?).
    repeat split; assumption.
Qed.

Lemma once_HandlePressureChange p s s' :
  once_cleanup s s' /\ once_emergency s s' ->
  once_cleanup s (HandlePressureChange p s')
  /\ once_emergency s (HandlePressureChange p s').
Proof.
  intros [H1 H2]. unfold HandlePressureChange.
  set (s1 := if _ <=? _ then ExecuteCleanup s' else s').
  assert (K : once_cleanup s s1 /\ once_emergency s s1).
  { subst s1. destruct (_ <=? _); [|split; assumption].
    split; [now apply once_cleanup_ExecuteCleanup|now apply once_emergency_ExecuteCleanup]. }
  destruct K as [K1 K2].
  destruct (pressure_eqb p MP_Critical); [|split; assumption].
  split; [now apply once_cleanup_ExecuteEmergencyPurge
         |now apply once_emergency_ExecuteEmergencyPurge].
Qed.

Lemma once_UpdateUsage bytes s :
  once_cleanup s (UpdateUsage bytes s) /\ once_emergency s (UpdateUsage bytes s).
Proof.
  unfold UpdateUsage.
  set (s0 := on_self _ s).
  assert (K0 : once_cleanup s s0 /\ once_emergency s s0).
  { apply once_on_self_keep; [intros m; repeat split|].
    split; [apply once_cleanup_refl|apply once_emergency_refl]. }
  set (np := CalculatePressure (self s0)).
  set (s1 := if pressure_eqb np (last_pressure_ (self s0)) then s0 else _).
  assert (K1 : once_cleanup s s1 /\ once_emergency s s1).
  { subst s1. destruct (pressure_eqb _ _); [exact K0|].
    apply once_on_self_keep; [intros m; repeat split|].
    now apply once_HandlePressureChange. }
  set (s2 := if ShouldCleanup (self s1) then ExecuteCleanup s1 else s1).
  assert (K2 : once_cleanup s s2 /\ once_emergency s s2).
  { subst s2. destruct (ShouldCleanup _); [|exact K1]. destruct K1.
    split; [now apply once_cleanup_ExecuteCleanup|now apply once_emergency_ExecuteCleanup]. }
  destruct (ShouldEmergencyPurge _); [|exact K2]. destruct K2.
  split; [now apply once_cleanup_ExecuteEmergencyPurge
         |now apply once_emergency_ExecuteEmergencyPurge].
Qed.

(** X5.  Within one [UpdateUsage], whichever of its paths fire (a pressure change
    to High or Critical, the byte thresholds, the cleanup that follows a
    purge), the cleanup callbacks are run in at most one pass and so are the
    emergency callbacks: no callback is invoked twice by one update, and a
    pass that runs invokes each callback once, in registration order. *)
Theorem one_update_runs_each_callback_at_most_once
    (bytes : Z) (s : Machine World) :
  exists evs,
    calls (UpdateUsage bytes s) = calls s ++ evs
    /\ (filter is_cleanup_event evs = []
        \/ map event_index (filter is_cleanup_event evs)
           = seq 0 (length (cleanup_callbacks_ (self s))))
    /\ (filter is_emergency_event evs = []
        \/ map event_index (filter is_emergency_event evs)
           = seq 0 (length (emergency_callbacks_ (self s)))).
Proof.
  destruct (once_UpdateUsage bytes s)
    as [(_ & _ & _ & e1 & E1 & H1) (_ & _ & _ & e2 & E2 & H2)].
  assert (e2 = e1) by (apply (app_inv_head (calls s)); congruence). subst e2.
  exists e1. split; [exact E1|]. split.
  - destruct H1 as [[_ N]|[_ N]]; [now left|now right].
  - destruct H2 as [[_ N]|[_ N]]; [now left|now right].
Qed.

End Once.

(** *** Device tiers *)

(** X10.  More memory never gives a lower tier: [DetectDeviceTier] is monotone in
    the [MemTotal] figure it reads. *)
Theorem DetectDeviceTier_is_monotone (kb1 kb2 : Z) :
  kb1 <= kb2 ->
  tier_rank (DetectDeviceTier (MemTotalKb kb1))
    <= tier_rank (DetectDeviceTier (MemTotalKb kb2)).
Proof.
  intros L. unfold DetectDeviceTier.
  assert (D : kb1 / 1024 <= kb2 / 1024) by (apply Z.div_le_mono; lia).
  destruct (Z.leb_spec (kb1 / 1024) 3072), (Z.leb_spec (kb2 / 1024) 3072);
    destruct (Z.leb_spec (kb1 / 1024) 4608), (Z.leb_spec (kb2 / 1024) 4608);
    destruct (Z.leb_spec (kb1 / 1024) 6656), (Z.leb_spec (kb2 / 1024) 6656);
    cbn [tier_rank]; lia.
Qed.

(** X10, on an instance. *)
Lemma DetectDeviceTier_is_monotone_witness :
  3 * 1024 * 1024 <= 4 * 1024 * 1024
  /\ tier_rank (DetectDeviceTier (MemTotalKb (3 * 1024 * 1024)))
     <= tier_rank (DetectDeviceTier (MemTotalKb (4 * 1024 * 1024))).
Proof.
  assert (L : 3 * 1024 * 1024 <= 4 * 1024 * 1024) by lia.
  split; [exact L|].
  exact (DetectDeviceTier_is_monotone (3 * 1024 * 1024) (4 * 1024 * 1024) L).
Defined.

(** *** Instances *)

Lemma no_callback_during_startup_interval_witness :
  let cs := [CallRegisterCleanup sample_cleanup; CallRegisterEmergency sample_emergency;
             CallUpdateUsage (1470 * MiB); CallTickFrame; CallRequestCleanup;
             CallForceEmergencyPurge; CallTickFrame; CallUpdateUsage (1500 * MiB)] in
  Z.of_nat (ticks_in cs) < emergency_min_interval
  /\ (let s := run cs (boot GetRecommendedConfig_MidRange 0%nat) in
      forallb is_cleanup_event (calls s) = true
      /\ emergency_purge_count_ (self s) = 0
      /\ (Z.of_nat (ticks_in cs) < cleanup_min_interval ->
          calls s = [] /\ cleanup_count_ (self s) = 0)).
Proof.
  intros cs.
  assert (K : Z.of_nat (ticks_in cs) < emergency_min_interval) by reflexivity.
  split; [exact K|].
  exact (no_callback_during_startup_interval GetRecommendedConfig_MidRange 0%nat cs K).
Defined.

(** X3, on an instance. *)
Lemma cleanup_switched_off_runs_no_cleanup_callback_witness :
  let s := switched_midrange false true in
  let cs := [CallUpdateUsage (1500 * MiB); CallRequestCleanup;
             CallTickFrame; CallForceEmergencyPurge] in
  enable_auto_cleanup (config_ (self s)) = false
  /\ cleanup_count_ (self (run cs s)) = cleanup_count_ (self s)
  /\ exists evs, calls (run cs s) = calls s ++ evs
                 /\ forallb is_emergency_event evs = true.
Proof.
  intros s cs.
  assert (H : enable_auto_cleanup (config_ (self s)) = false) by (vm_compute; reflexivity).
  split; [exact H|].
  exact (cleanup_switched_off_runs_no_cleanup_callback cs s H).
Defined.

(** X4, on an instance. *)
Lemma purge_switched_off_runs_no_emergency_callback_witness :
  let s := switched_midrange true false in
  let cs := [CallUpdateUsage (1500 * MiB); CallForceEmergencyPurge;
             CallTickFrame; CallRequestCleanup] in
  enable_emergency_purge (config_ (self s)) = false
  /\ emergency_purge_count_ (self (run cs s)) = emergency_purge_count_ (self s)
  /\ exists evs, calls (run cs s) = calls s ++ evs
                 /\ forallb is_cleanup_event evs = true.
Proof.
  intros s cs.
  assert (H : enable_emergency_purge (config_ (self s)) = false)
    by (vm_compute; reflexivity).
  split; [exact H|].
  exact (purge_switched_off_runs_no_emergency_callback cs s H).
Defined.

(** X6, on an instance. *)
Lemma cleanup_pass_runs_every_callback_once_witness :
  let s := switched_midrange true true in
  cleanup_gate_open (self s) = true
  /\ (let s' := ExecuteCleanup s in
      exists evs,
        calls s' = calls s ++ evs
        /\ forallb is_cleanup_event evs = true
        /\ map event_index evs = seq 0 (length (cleanup_callbacks_ (self s)))
        /\ host s'
           = fold_left (fun w cb => snd (cb w)) (cleanup_callbacks_ (self s)) (host s)
        /\ total_bytes_freed_ (self s')
           = u64 (total_bytes_freed_ (self s) + freed_in evs)
        /\ cleanup_count_ (self s') = u32 (cleanup_count_ (self s) + 1)
        /\ last_cleanup_frame_ (self s') = current_frame_ (self s)).
Proof.
  intros s.
  assert (G : cleanup_gate_open (self s) = true) by (vm_compute; reflexivity).
  split; [exact G|].
  exact (cleanup_pass_runs_every_callback_once s G).
Defined.

(** X8, on an instance. *)
Lemma CanAllocate_agrees_with_GetAvailableVRAM_witness :
  let m := set_usage (1500 * MiB) (1500 * MiB)
             (construct (World := unit) GetRecommendedConfig_MidRange) in
  0 <= current_usage_ m /\ 0 <= 36 * MiB
  /\ current_usage_ m + 36 * MiB < 2 ^ 64
  /\ CanAllocate (36 * MiB) m
     = negb (IsOverLimit m) && (36 * MiB <=? GetAvailableVRAM m).
Proof.
  intros m.
  assert (U : 0 <= current_usage_ m) by discriminate.
  assert (N : 0 <= 36 * MiB) by discriminate.
  assert (W : current_usage_ m + 36 * MiB < 2 ^ 64) by reflexivity.
  split; [exact U|]. split; [exact N|]. split; [exact W|].
  exact (CanAllocate_agrees_with_GetAvailableVRAM (36 * MiB) m U N W).
Defined.

(** X9, on an instance. *)
Lemma CanAllocate_grants_requests_that_wrap_witness :
  let m := set_usage (1 * MiB) (1 * MiB)
             (construct (World := unit) GetRecommendedConfig_MidRange) in
  is_u64 (current_usage_ m) /\ is_u64 (2 ^ 64 - 1)
  /\ is_u64 (vram_cap_bytes (config_ m))
  /\ current_usage_ m <= vram_cap_bytes (config_ m)
  /\ 2 ^ 64 <= current_usage_ m + (2 ^ 64 - 1)
  /\ CanAllocate (2 ^ 64 - 1) m = true
  /\ GetAvailableVRAM m < 2 ^ 64 - 1.
Proof.
  intros m.
  assert (U : is_u64 (current_usage_ m)) by (split; [discriminate|reflexivity]).
  assert (N : is_u64 (2 ^ 64 - 1)) by (split; [discriminate|reflexivity]).
  assert (B : is_u64 (vram_cap_bytes (config_ m))) by (split; [discriminate|reflexivity]).
  assert (C : current_usage_ m <= vram_cap_bytes (config_ m)) by discriminate.
  assert (W : 2 ^ 64 <= current_usage_ m + (2 ^ 64 - 1)) by discriminate.
  split; [exact U|]. split; [exact N|]. split; [exact B|]. split; [exact C|].
  split; [exact W|].
  exact (CanAllocate_grants_requests_that_wrap (2 ^ 64 - 1) m U N B C W).
Defined.

End VRAMMore.

(** ** Reusable-buffer pool: buffers, bounds and cooldown *)

Module PoolMore.
Import Pool.
Import PoolFacts.

(** *** [CommandBuffer] *)

Lemma resize_grow n d :
  (length d <= Z.to_nat n)%nat ->
  resize n d = d ++ repeat Byte.x00 (Z.to_nat n - length d).
Proof.
  intros L. unfold resize. now rewrite firstn_all2.
Qed.

Lemma Write_effect src b :
  cursor_in_bounds b ->
  position_ b + size src < 2 ^ 64 ->
  cursor_in_bounds (Write src b)
  /\ position_ (Write src b) = position_ b + size src
  /\ written (Write src b) = written b ++ src
  /\ Size b <= Size (Write src b).
Proof.
  unfold cursor_in_bounds, Size, size. intros [P0 P1] W.
  assert (E64 : u64 (position_ b + Z.of_nat (length src))
                = position_ b + Z.of_nat (length src))
    by (unfold u64; apply Z.mod_small; lia).
  set (d := if HasSpace (size src) b then data_ b
            else resize (Z.max (u64 (Size b * 2)) (u64 (position_ b + size src)))
                        (data_ b)).
  assert (D : (Z.to_nat (position_ b) + length src <= length d)%nat
              /\ firstn (Z.to_nat (position_ b)) d = firstn (Z.to_nat (position_ b)) (data_ b)
              /\ (length (data_ b) <= length d)%nat).
  { unfold d, HasSpace, Size, size. rewrite E64.
    destruct (Z.leb_spec (position_ b + Z.of_nat (length src))
                         (Z.of_nat (length (data_ b)))) as [L|L].
    - repeat split; lia.
    - set (n := Z.max _ _).
      assert (Hn : position_ b + Z.of_nat (length src) <= n) by (unfold n; lia).
      rewrite resize_grow by lia.
      rewrite length_app, repeat_length.
      repeat split; try lia.
      rewrite firstn_app.
      replace (Z.to_nat (position_ b) - length (data_ b))%nat with 0%nat by lia.
      cbn [firstn]. now rewrite app_nil_r. }
  destruct D as (D1 & D2 & D3).
  assert (Ld : length (memcpy d (position_ b) src) = length d).
  { unfold memcpy. rewrite !length_app, length_firstn, length_skipn. lia. }
  unfold Write, written. cbn [data_ position_]. fold d.
  unfold size. rewrite E64, Ld.
  repeat split; try lia.
  unfold memcpy. rewrite <- D2.
  rewrite firstn_app, length_firstn.
  replace (Nat.min (Z.to_nat (position_ b)) (length d)) with (Z.to_nat (position_ b)) by lia.
  rewrite firstn_firstn.
  replace (Nat.min (Z.to_nat (position_ b + Z.of_nat (length src))) (Z.to_nat (position_ b)))
    with (Z.to_nat (position_ b)) by lia.
  f_equal.
  replace (Z.to_nat (position_ b + Z.of_nat (length src)) - Z.to_nat (position_ b))%nat
    with (length src) by lia.
  rewrite firstn_app, Nat.sub_diag. cbn [firstn].
  now rewrite firstn_all, app_nil_r.
Qed.

Lemma size_app {A : Type} (l1 l2 : list A) : size (l1 ++ l2) = size l1 + size l2.
Proof. unfold size. rewrite length_app. lia. Qed.

Lemma size_nonneg {A : Type} (l : list A) : 0 <= size l.
Proof. unfold size. lia. Qed.

(** X18.  Writes append: starting with the cursor inside the vector, a series of
    [Write] calls whose sizes do not take the cursor past 2^64 leaves the
    bytes below the cursor equal to what was there followed by the written
    chunks in order; the cursor has advanced by their total size and is
    still inside the vector, which has not become smaller. *)
Theorem writes_append_below_the_cursor
    (chunks : list (list Byte.byte)) (b : CommandBuffer) :
  cursor_in_bounds b ->
  position_ b + size (concat chunks) < 2 ^ 64 ->
  let b' := WriteAll chunks b in
  written b' = written b ++ concat chunks
  /\ position_ b' = position_ b + size (concat chunks)
  /\ cursor_in_bounds b'
  /\ Size b <= Size b'.
Proof.
  revert b. induction chunks as [|c chunks IH]; intros b I W.
  - cbn [WriteAll fold_left concat]. rewrite app_nil_r.
    change (size (@nil Byte.byte)) with 0. repeat split; try lia; apply I.
  - cbn [concat] in W. rewrite size_app in W.
    pose proof (size_nonneg (concat chunks)) as N.
    destruct (Write_effect c b I) as (I1 & P1 & W1 & S1); [lia|].
    change (WriteAll (c :: chunks) b) with (WriteAll chunks (Write c b)).
    destruct (IH (Write c b) I1) as (W2 & P2 & I2 & S2); [lia|].
    cbv zeta. cbn [concat]. rewrite W2, W1, P2, P1, size_app, <- app_assoc.
    repeat split; try lia; apply I2.
Qed.

(** X18, on an instance. *)
Lemma writes_append_below_the_cursor_witness :
  let b := Reset (Write [Byte.x07] (new_CommandBuffer 2)) in
  let chunks := [[Byte.x01; Byte.x02]; []; [Byte.x03; Byte.x04; Byte.x05]] in
  cursor_in_bounds b
  /\ position_ b + size (concat chunks) < 2 ^ 64
  /\ (let b' := WriteAll chunks b in
      written b' = written b ++ concat chunks
      /\ position_ b' = position_ b + size (concat chunks)
      /\ cursor_in_bounds b'
      /\ Size b <= Size b').
Proof.
  intros b chunks.
  assert (I : cursor_in_bounds b) by (vm_compute; split; discriminate).
  assert (W : position_ b + size (concat chunks) < 2 ^ 64) by reflexivity.
  split; [exact I|]. split; [exact W|].
  exact (writes_append_below_the_cursor chunks b I W).
Defined.

(** *** The tracked total and [max_pool_size] *)

Lemma iter_add_available n p :
  let p' := Nat.iter n add_available_buffer p in
  config_ p' = config_ p
  /\ size (all_buffers_ p') = size (all_buffers_ p) + Z.of_nat n
  /\ size (available_buffers_ p') = size (available_buffers_ p) + Z.of_nat n
  /\ incl (all_buffers_ p) (all_buffers_ p')
  /\ current_frame_ p' = current_frame_ p
  /\ last_shrink_frame_ p' = last_shrink_frame_ p
  /\ pool_shrinks_ p' = pool_shrinks_ p.
Proof.
  induction n as [|n IH].
  - change (Nat.iter 0 add_available_buffer p) with p. change (Z.of_nat 0) with 0.
    repeat split; try lia. apply incl_refl.
  - change (Nat.iter (S n) add_available_buffer p)
      with (add_available_buffer (Nat.iter n add_available_buffer p)).
    cbv zeta in *. destruct IH as (C & A & V & I & F & L & S).
    destruct (add_available_buffer_fields (Nat.iter n add_available_buffer p))
      as (-> & -> & _).
    rewrite !size_app, A, V. change (size [_]) with 1.
    repeat split; try assumption; try lia.
    intros x Ix. apply in_or_app. left. now apply I.
Qed.

Lemma remove_excess_shape k : forall avail all,
  fst (remove_excess k avail all) = skipn k avail
  /\ incl (snd (remove_excess k avail all)) all.
Proof.
  induction k as [|k IH]; intros avail all.
  - simpl. split; [reflexivity|apply incl_refl].
  - destruct avail as [|b rest]; [simpl; split; [reflexivity|apply incl_refl]|].
    change (remove_excess (S k) (b :: rest) all)
      with (remove_excess k rest (filter (fun x => negb (x =? b)) all)).
    destruct (IH rest (filter (fun x => negb (x =? b)) all)) as [E I].
    split; [exact E|].
    intros x Ix. apply I in Ix. apply filter_In in Ix. tauto.
Qed.

Lemma remove_excess_shorter k : forall avail all,
  (length (snd (remove_excess k avail all)) <= length all)%nat.
Proof.
  induction k as [|k IH]; intros avail all; [simpl; lia|].
  destruct avail as [|b rest]; [simpl; lia|].
  change (remove_excess (S k) (b :: rest) all)
    with (remove_excess k rest (filter (fun x => negb (x =? b)) all)).
  eapply Nat.le_trans; [apply IH|].
  apply (filter_length_le (fun x => negb (x =? b)) all).
Qed.

Lemma ShrinkPool_fields p :
  config_ (ShrinkPool p) = config_ p
  /\ size (all_buffers_ (ShrinkPool p)) <= size (all_buffers_ p)
  /\ current_frame_ (ShrinkPool p) = current_frame_ p.
Proof.
  unfold ShrinkPool.
  destruct (_ <=? _); [repeat split; lia|].
  pose proof (remove_excess_shorter
                (Z.to_nat (size (available_buffers_ p)
                           - initial_pool_size (config_ p) / 2))
                (available_buffers_ p) (all_buffers_ p)) as L.
  destruct (remove_excess _ _ _) as [avail all]. cbn in *.
  repeat split. unfold size. lia.
Qed.

Lemma TickFrame_fields p :
  config_ (TickFrame p) = config_ p
  /\ size (all_buffers_ (TickFrame p)) <= size (all_buffers_ p)
  /\ current_frame_ (TickFrame p) = u32 (current_frame_ p + 1).
Proof.
  unfold TickFrame.
  set (p1 := with_frames _ _ p).
  destruct (auto_shrink (config_ p1) && ShouldShrink p1).
  - destruct (ShrinkPool_fields p1) as (C & A & F). rewrite C, F.
    repeat split. exact A.
  - repeat split. cbn. lia.
Qed.

Lemma perform_within_max c s :
  max_pool_size (config_ (pool s)) < 2 ^ 63 ->
  expands_moderately c = true ->
  size (all_buffers_ (pool s)) <= max_pool_size (config_ (pool s)) ->
  config_ (pool (perform c s)) = config_ (pool s)
  /\ size (all_buffers_ (pool (perform c s))) <= max_pool_size (config_ (pool s)).
Proof.
  intros M E B. destruct c as [|[b|]|n| |]; cbn [perform].
  - unfold AcquireBuffer.
    destruct (available_buffers_ (pool s)) as [|b rest]; [|cbn; split; [reflexivity|exact B]].
    cbn [CreateBuffer]. cbv zeta.
    destruct (auto_expand (config_ (pool s))) eqn:A; cbn [andb];
      [|cbn; split; [reflexivity|exact B]].
    destruct (Z.ltb_spec (size (all_buffers_ (pool s))) (max_pool_size (config_ (pool s))));
      cbn; [|split; [reflexivity|exact B]].
    split; [reflexivity|]. fold (size (all_buffers_ (pool s) ++ [next_allocation_id_ (pool s)])).
    rewrite size_app. change (size [_]) with 1. lia.
  - unfold ReleaseBuffer. destruct (is_pool_buffer b (pool s)); cbn; split; auto.
  - cbn. split; auto.
  - cbn [expands_moderately] in E. apply andb_true_iff in E.
    destruct E as [E0 E1]. apply Z.leb_le in E0. apply Z.ltb_lt in E1.
    pose proof (size_nonneg (all_buffers_ (pool s))) as N.
    unfold ExpandPool. cbn [pool].
    assert (E64 : u64 (size (all_buffers_ (pool s)) + n) = size (all_buffers_ (pool s)) + n)
      by (unfold u64; apply Z.mod_small; lia).
    rewrite E64.
    destruct (Z.ltb_spec (max_pool_size (config_ (pool s)))
                         (size (all_buffers_ (pool s)) + n)) as [L|L].
    + assert (E64' : u64 (max_pool_size (config_ (pool s)) - size (all_buffers_ (pool s)))
                     = max_pool_size (config_ (pool s)) - size (all_buffers_ (pool s)))
        by (unfold u64; apply Z.mod_small; lia).
      rewrite E64'.
      destruct (iter_add_available
                  (Z.to_nat (max_pool_size (config_ (pool s)) - size (all_buffers_ (pool s))))
                  (pool s)) as (C & A & _).
      cbn [count_expansion with_counters config_ all_buffers_].
      rewrite C, A. split; [reflexivity|lia].
    + destruct (iter_add_available (Z.to_nat n) (pool s)) as (C & A & _).
      cbn [count_expansion with_counters config_ all_buffers_].
      rewrite C, A. split; [reflexivity|lia].
  - cbn [pool]. destruct (ShrinkPool_fields (pool s)) as (C & A & _).
    split; [exact C|lia].
  - cbn [pool]. destruct (TickFrame_fields (pool s)) as (C & A & _).
    split; [exact C|lia].
Qed.

Lemma run_within_max cs : forall s,
  max_pool_size (config_ (pool s)) < 2 ^ 63 ->
  forallb expands_moderately cs = true ->
  size (all_buffers_ (pool s)) <= max_pool_size (config_ (pool s)) ->
  size (all_buffers_ (pool (run cs s))) <= max_pool_size (config_ (pool s)).
Proof.
  induction cs as [|c cs IH]; intros s M E B; [exact B|].
  cbn [forallb] in E. apply andb_true_iff in E. destruct E as [E1 E2].
  destruct (perform_within_max c s M E1 B) as [C B'].
  change (run (c :: cs) s) with (run cs (perform c s)).
  rewrite <- C. apply IH; rewrite ?C; assumption.
Qed.

Lemma start_fields config :
  config_ (pool (start config)) = config
  /\ size (all_buffers_ (pool (start config))) = Z.of_nat (Z.to_nat (initial_pool_size config))
  /\ current_frame_ (pool (start config)) = 0
  /\ last_shrink_frame_ (pool (start config)) = 0.
Proof.
  unfold start, construct, InitializePool. cbn [pool config_].
  set (p0 := {| config_ := config |}).
  destruct (iter_add_available (Z.to_nat (initial_pool_size config)) p0)
    as (C & A & _ & _ & F & L & _).
  rewrite C, A, F, L. repeat split.
Qed.

(** X12.  With [initial_pool_size <= max_pool_size], the pool never tracks more
    than [max_pool_size] buffers, whatever is called on it ([ExpandPool] with
    counts below 2^63): automatic and manual expansion stop at the limit and
    a temporary buffer handed out by an exhausted pool is not tracked. *)
Theorem tracked_buffers_never_exceed_max (config : Config) (cs : list Call) :
  0 <= initial_pool_size config <= max_pool_size config ->
  max_pool_size config < 2 ^ 63 ->
  forallb expands_moderately cs = true ->
  size (all_buffers_ (pool (run cs (start config)))) <= max_pool_size config.
Proof.
  intros I M E.
  destruct (start_fields config) as (C & A & _).
  pose proof (run_within_max cs (start config)) as R.
  rewrite C in R. apply R; try assumption.
  rewrite A. lia.
Qed.

(** X12, on an instance. *)
Lemma tracked_buffers_never_exceed_max_witness :
  let config := {| initial_pool_size := 2; max_pool_size := 3;
                   buffer_size := 1024; auto_expand := true;
                   auto_shrink := true; shrink_delay_frames := 2 |} in
  let cs := [CallAcquire; CallAcquire; CallAcquire; CallAcquire;
             CallExpand 5; CallRelease (Some 0); CallTick; CallShrink] in
  0 <= initial_pool_size config <= max_pool_size config
  /\ max_pool_size config < 2 ^ 63
  /\ forallb expands_moderately cs = true
  /\ size (all_buffers_ (pool (run cs (start config)))) <= max_pool_size config.
Proof.
  intros config cs.
  assert (I : 0 <= initial_pool_size config <= max_pool_size config)
    by (split; discriminate).
  assert (M : max_pool_size config < 2 ^ 63) by reflexivity.
  assert (E : forallb expands_moderately cs = true) by reflexivity.
  split; [exact I|]. split; [exact M|]. split; [exact E|].
  exact (tracked_buffers_never_exceed_max config cs I M E).
Defined.

(** *** What a shrink leaves *)

Lemma remove_excess_keeps_held held next k : forall avail all,
  conserved avail all held next ->
  tracked_among (snd (remove_excess k avail all)) held = tracked_among all held.
Proof.
  induction k as [|k IH]; intros avail all C; [reflexivity|].
  destruct avail as [|b rest]; [reflexivity|].
  change (remove_excess (S k) (b :: rest) all)
    with (remove_excess k rest (filter (fun x => negb (x =? b)) all)).
  destruct (conserved_remove_excess held next 1 (b :: rest) all C) as [C1 _].
  change (remove_excess 1 (b :: rest) all)
    with (rest, filter (fun x => negb (x =? b)) all) in C1. cbn [fst snd] in C1.
  rewrite (IH _ _ C1).
  apply tracked_among_same.
  intros h Hh. rewrite filter_other_In.
  destruct C as [_ _ _ _ Hd _ _ _].
  split; [tauto|]. intros I. split; [exact I|].
  intros ->. apply (Hd b); [now left|exact Hh].
Qed.

(** X16.  A shrink that finds more than [initial_pool_size / 2] buffers available
    removes the oldest available ones until exactly [initial_pool_size / 2]
    are left, whatever the tracked total then is; the buffers out with
    callers all stay tracked, so the total becomes [initial_pool_size / 2]
    plus the active count. *)
Theorem shrink_leaves_half_the_initial_size (s : Client) :
  client_conserved s ->
  0 <= initial_pool_size (config_ (pool s)) ->
  initial_pool_size (config_ (pool s)) / 2 < size (available_buffers_ (pool s)) ->
  let target := initial_pool_size (config_ (pool s)) / 2 in
  let p' := ShrinkPool (pool s) in
  available_buffers_ p'
    = skipn (Z.to_nat (size (available_buffers_ (pool s)) - target))
            (available_buffers_ (pool s))
  /\ size (available_buffers_ p') = target
  /\ active_handles {| pool := p'; held := held s |} = active_handles s
  /\ size (all_buffers_ p') = target + size (active_handles s)
  /\ last_shrink_frame_ p' = current_frame_ (pool s).
Proof.
  intros C I L target p'.
  pose proof (ShrinkPool_conserved s C) as C'.
  unfold client_conserved in C'. cbn [pool held] in C'. fold p' in C'.
  set (k := Z.to_nat (size (available_buffers_ (pool s)) - target)).
  pose proof (remove_excess_shape k (available_buffers_ (pool s)) (all_buffers_ (pool s)))
    as [Ea _].
  pose proof (remove_excess_keeps_held (held s) (next_allocation_id_ (pool s)) k _ _ C)
    as Eh.
  assert (T0 : 0 <= target) by (apply Z.div_pos; lia).
  assert (P : available_buffers_ p' = fst (remove_excess k (available_buffers_ (pool s))
                                                        (all_buffers_ (pool s)))
              /\ all_buffers_ p' = snd (remove_excess k (available_buffers_ (pool s))
                                                      (all_buffers_ (pool s)))
              /\ last_shrink_frame_ p' = current_frame_ (pool s)).
  { unfold p', ShrinkPool. fold target.
    destruct (Z.leb_spec (size (available_buffers_ (pool s))) target); [lia|].
    fold k. destruct (remove_excess k _ _) as [avail all]. cbn. repeat split. }
  destruct P as (Pa & Pv & Pl).
  assert (Sa : size (available_buffers_ p') = target).
  { rewrite Pa, Ea. unfold size. rewrite length_skipn.
    unfold k, size in *. lia. }
  assert (Ah : active_handles {| pool := p'; held := held s |} = active_handles s).
  { unfold active_handles, is_pool_buffer. cbn [pool held].
    rewrite Pv. exact Eh. }
  repeat split.
  - now rewrite Pa, Ea.
  - exact Sa.
  - exact Ah.
  - destruct C' as [_ _ _ _ _ _ _ Hc].
    change (tracked_among (all_buffers_ p') (held s))
      with (active_handles {| pool := p'; held := held s |}) in Hc.
    rewrite Ah in Hc. rewrite <- Sa. unfold size. rewrite Hc. lia.
  - exact Pl.
Qed.

(** X16, on an instance. *)
Lemma shrink_leaves_half_the_initial_size_witness :
  let s := run [CallAcquire; CallAcquire; CallAcquire] (start default_config) in
  client_conserved s
  /\ 0 <= initial_pool_size (config_ (pool s))
  /\ initial_pool_size (config_ (pool s)) / 2 < size (available_buffers_ (pool s))
  /\ (let target := initial_pool_size (config_ (pool s)) / 2 in
      let p' := ShrinkPool (pool s) in
      available_buffers_ p'
        = skipn (Z.to_nat (size (available_buffers_ (pool s)) - target))
                (available_buffers_ (pool s))
      /\ size (available_buffers_ p') = target
      /\ active_handles {| pool := p'; held := held s |} = active_handles s
      /\ size (all_buffers_ p') = target + size (active_handles s)
      /\ last_shrink_frame_ p' = current_frame_ (pool s)).
Proof.
  intros s.
  assert (C : client_conserved s).
  { apply run_conserved; [reflexivity|apply start_conserved]. }
  assert (I : 0 <= initial_pool_size (config_ (pool s))) by discriminate.
  assert (L : initial_pool_size (config_ (pool s)) / 2
              < size (available_buffers_ (pool s))) by reflexivity.
  split; [exact C|]. split; [exact I|]. split; [exact L|].
  exact (shrink_leaves_half_the_initial_size s C I L).
Defined.

(** *** The shrink delay *)

Lemma u32_le z : 0 <= z -> u32 z <= z.
Proof. intros H. unfold u32. apply Z.mod_le; [exact H|reflexivity]. Qed.

Lemma cool_tick p0 k p :
  last_shrink_frame_ p0 = current_frame_ p0 ->
  Z.of_nat (S k) < shrink_delay_frames (config_ p0) ->
  cool p0 k p -> cool p0 (S k) (TickFrame p).
Proof.
  intros L0 K (C & L & Sh & I & F).
  set (p1 := with_frames (u32 (current_frame_ p + 1)) (last_shrink_frame_ p) p).
  assert (F1 : forall c, u32 (current_frame_ p1 - c)
                         = u32 (current_frame_ p0 + Z.of_nat (S k) - c)).
  { intros c. unfold p1. cbn [current_frame_ with_frames].
    unfold u32 in *. rewrite Zminus_mod_idemp_l.
    replace (current_frame_ p + 1 - c) with (current_frame_ p - (c - 1)) by lia.
    rewrite F. f_equal. lia. }
  assert (N : ShouldShrink p1 = false).
  { unfold ShouldShrink. rewrite F1.
    change (last_shrink_frame_ p1) with (last_shrink_frame_ p).
    change (config_ p1) with (config_ p). rewrite L, L0, C.
    replace (current_frame_ p0 + Z.of_nat (S k) - current_frame_ p0)
      with (Z.of_nat (S k)) by lia.
    pose proof (u32_le (Z.of_nat (S k))).
    destruct (Z.ltb_spec (u32 (Z.of_nat (S k))) (shrink_delay_frames (config_ p0)));
      [reflexivity|lia]. }
  unfold TickFrame. fold p1. rewrite N, andb_false_r.
  repeat split; assumption.
Qed.

Lemma cool_perform p0 k c s :
  last_shrink_frame_ p0 = current_frame_ p0 ->
  is_manual_shrink c = false ->
  Z.of_nat (k + ticks_in [c]) < shrink_delay_frames (config_ p0) ->
  cool p0 k (pool s) -> cool p0 (k + ticks_in [c]) (pool (perform c s)).
Proof.
  intros L0 M K H. destruct c as [|[b|]|n| |]; try discriminate;
    cbn [perform ticks_in filter is_tick length] in *; rewrite ?Nat.add_0_r in *.
  - destruct H as (C & L & Sh & I & F). unfold AcquireBuffer.
    destruct (available_buffers_ (pool s)) as [|b rest];
      [|cbn; repeat split; assumption].
    cbn [CreateBuffer]. cbv zeta.
    destruct (auto_expand (config_ (pool s)) && _); cbn; repeat split; try assumption.
    intros x Ix. apply in_or_app. left. now apply I.
  - destruct H as (C & L & Sh & I & F). unfold ReleaseBuffer.
    destruct (is_pool_buffer b (pool s)); cbn; repeat split; assumption.
  - exact H.
  - destruct H as (C & L & Sh & I & F). unfold ExpandPool. cbn [pool].
    set (count := if _ <? _ then _ else n).
    destruct (iter_add_available (Z.to_nat count) (pool s))
      as (C' & _ & _ & I' & F' & L' & Sh').
    unfold cool.
    cbn [count_expansion with_counters config_ all_buffers_ current_frame_
         last_shrink_frame_ pool_shrinks_].
    rewrite C', F', L', Sh'. repeat split; try assumption.
    intros x Ix. apply I', I, Ix.
  - replace (k + 1)%nat with (S k) in * by lia. cbn [pool].
    now apply cool_tick.
Qed.

Lemma cool_run p0 cs : forall k s,
  last_shrink_frame_ p0 = current_frame_ p0 ->
  forallb (fun c => negb (is_manual_shrink c)) cs = true ->
  Z.of_nat (k + ticks_in cs) < shrink_delay_frames (config_ p0) ->
  cool p0 k (pool s) -> cool p0 (k + ticks_in cs) (pool (run cs s)).
Proof.
  induction cs as [|c cs IH]; intros k s L0 M K H.
  - cbn [ticks_in filter length]. now rewrite Nat.add_0_r.
  - cbn [forallb] in M. apply andb_true_iff in M. destruct M as [M1 M2].
    apply negb_true_iff in M1.
    assert (T : ticks_in (c :: cs) = (ticks_in [c] + ticks_in cs)%nat).
    { unfold ticks_in. cbn [filter]. destruct (is_tick c); reflexivity. }
    rewrite T in *. rewrite Nat.add_assoc in *.
    change (run (c :: cs) s) with (run cs (perform c s)).
    apply IH; try assumption.
    apply cool_perform; try assumption. lia.
Qed.

(** X17.  Automatic shrinking waits for the delay: from a state in which the last
    shrink happened in the current frame (a pool just constructed, or one
    that has just shrunk), no sequence of calls other than [ShrinkPool]
    itself that crosses fewer than [shrink_delay_frames] frame boundaries
    shrinks the pool: the shrink counter stands still and every tracked
    buffer stays tracked. *)
Theorem no_automatic_shrink_within_delay (s : Client) (cs : list Call) :
  last_shrink_frame_ (pool s) = current_frame_ (pool s) ->
  forallb (fun c => negb (is_manual_shrink c)) cs = true ->
  Z.of_nat (ticks_in cs) < shrink_delay_frames (config_ (pool s)) ->
  pool_shrinks_ (pool (run cs s)) = pool_shrinks_ (pool s)
  /\ last_shrink_frame_ (pool (run cs s)) = last_shrink_frame_ (pool s)
  /\ incl (all_buffers_ (pool s)) (all_buffers_ (pool (run cs s))).
Proof.
  intros L0 M K.
  destruct (cool_run (pool s) cs 0 s L0 M) as (_ & L & Sh & I & _).
  - exact K.
  - repeat split; try apply incl_refl. intros c. f_equal. lia.
  - repeat split; assumption.
Qed.

(** X17, on an instance. *)
Lemma no_automatic_shrink_within_delay_witness :
  let s := grown_and_released in
  let cs := repeat CallTick 299 ++ [CallAcquire; CallExpand 2] in
  last_shrink_frame_ (pool s) = current_frame_ (pool s)
  /\ forallb (fun c => negb (is_manual_shrink c)) cs = true
  /\ Z.of_nat (ticks_in cs) < shrink_delay_frames (config_ (pool s))
  /\ pool_shrinks_ (pool (run cs s)) = pool_shrinks_ (pool s)
  /\ last_shrink_frame_ (pool (run cs s)) = last_shrink_frame_ (pool s)
  /\ incl (all_buffers_ (pool s)) (all_buffers_ (pool (run cs s))).
Proof.
  intros s cs.
  assert (L0 : last_shrink_frame_ (pool s) = current_frame_ (pool s)) by reflexivity.
  assert (M : forallb (fun c => negb (is_manual_shrink c)) cs = true) by reflexivity.
  assert (K : Z.of_nat (ticks_in cs) < shrink_delay_frames (config_ (pool s)))
    by reflexivity.
  split; [exact L0|]. split; [exact M|]. split; [exact K|].
  exact (no_automatic_shrink_within_delay s cs L0 M K).
Defined.

(** *** Handing a buffer out and taking it back *)

(** X14.  With a buffer available, acquiring and releasing it allocates nothing:
    the caller gets the buffer at the front of the queue, and after the
    release it is at the back; the tracked set, the allocation counter and
    the other handles out with callers are as before. *)
Theorem acquire_release_recycles_the_front_buffer
    (s : Client) (b : BufferId) (rest : list BufferId) :
  client_conserved s ->
  available_buffers_ (pool s) = b :: rest ->
  let s' := run [CallAcquire; CallRelease (Some b)] s in
  fst (AcquireBuffer (pool s)) = b
  /\ available_buffers_ (pool s') = rest ++ [b]
  /\ all_buffers_ (pool s') = all_buffers_ (pool s)
  /\ next_allocation_id_ (pool s') = next_allocation_id_ (pool s)
  /\ held s' = held s.
Proof.
  intros C E s'.
  destruct C as [_ _ _ Hi Hd _ _ _]. rewrite E in Hi, Hd.
  assert (Ib : is_pool_buffer b (pool s) = true)
    by (apply existsb_eqb_In, Hi; now left).
  assert (Nh : ~ In b (held s)) by (apply Hd; now left).
  unfold s', run. cbn [fold_left perform].
  unfold AcquireBuffer. rewrite E. cbn [pool held fst].
  unfold ReleaseBuffer, is_pool_buffer in *.
  cbn [all_buffers_ count_acquisition with_counters with_buffers]. rewrite Ib.
  cbn. rewrite Z.eqb_refl. cbn [negb].
  repeat split. apply filter_other_notin. exact Nh.
Qed.

(** X14, on an instance. *)
Lemma acquire_release_recycles_the_front_buffer_witness :
  let s := run [CallAcquire] (start default_config) in
  client_conserved s
  /\ available_buffers_ (pool s) = 1 :: map Z.of_nat (seq 2 14)
  /\ (let s' := run [CallAcquire; CallRelease (Some 1)] s in
      fst (AcquireBuffer (pool s)) = 1
      /\ available_buffers_ (pool s') = map Z.of_nat (seq 2 14) ++ [1]
      /\ all_buffers_ (pool s') = all_buffers_ (pool s)
      /\ next_allocation_id_ (pool s') = next_allocation_id_ (pool s)
      /\ held s' = held s).
Proof.
  intros s.
  assert (C : client_conserved s).
  { apply run_conserved; [reflexivity|apply start_conserved]. }
  assert (E : available_buffers_ (pool s) = 1 :: map Z.of_nat (seq 2 14))
    by reflexivity.
  split; [exact C|]. split; [exact E|].
  exact (acquire_release_recycles_the_front_buffer s 1 _ C E).
Defined.

(** X15.  An exhausted pool that may not grow hands out a temporary buffer: a
    newly allocated one that it does not track.  Releasing it puts nothing
    into the queue; the pool is left with its buffers as before and the
    allocation counter one higher. *)
Theorem temporary_buffer_is_dropped_on_release (s : Client) :
  client_conserved s ->
  available_buffers_ (pool s) = [] ->
  auto_expand (config_ (pool s))
    && (size (all_buffers_ (pool s)) <? max_pool_size (config_ (pool s))) = false ->
  let b := fst (AcquireBuffer (pool s)) in
  let s' := run [CallAcquire; CallRelease (Some b)] s in
  b = next_allocation_id_ (pool s)
  /\ is_pool_buffer b (snd (AcquireBuffer (pool s))) = false
  /\ available_buffers_ (pool s') = []
  /\ all_buffers_ (pool s') = all_buffers_ (pool s)
  /\ next_allocation_id_ (pool s') = next_allocation_id_ (pool s) + 1
  /\ held s' = held s.
Proof.
  intros C E X b s'.
  pose proof (next_not_tracked _ _ _ _ C) as Nt.
  pose proof (next_not_held _ _ _ _ C) as Nh.
  assert (Ib : existsb (Z.eqb (next_allocation_id_ (pool s))) (all_buffers_ (pool s)) = false)
    by now apply existsb_eqb_notin.
  assert (A : AcquireBuffer (pool s)
              = (next_allocation_id_ (pool s),
                 count_acquisition (snd (CreateBuffer (pool s))))).
  { unfold AcquireBuffer. rewrite E. cbn [CreateBuffer]. cbv zeta. now rewrite X. }
  unfold s', b, run. cbn [fold_left perform]. rewrite A. cbn [fst snd pool held].
  unfold ReleaseBuffer, is_pool_buffer.
  cbn [all_buffers_ count_acquisition with_counters with_buffers CreateBuffer snd].
  rewrite Ib. cbn. rewrite Z.eqb_refl. cbn [negb].
  repeat split; try assumption. apply filter_other_notin. exact Nh.
Qed.

(** X15, on an instance. *)
Lemma temporary_buffer_is_dropped_on_release_witness :
  let config := {| initial_pool_size := 1; max_pool_size := 1;
                   buffer_size := 1024; auto_expand := true;
                   auto_shrink := true; shrink_delay_frames := 300 |} in
  let s := run [CallAcquire] (start config) in
  client_conserved s
  /\ available_buffers_ (pool s) = []
  /\ auto_expand (config_ (pool s))
       && (size (all_buffers_ (pool s)) <? max_pool_size (config_ (pool s))) = false
  /\ (let b := fst (AcquireBuffer (pool s)) in
      let s' := run [CallAcquire; CallRelease (Some b)] s in
      b = next_allocation_id_ (pool s)
      /\ is_pool_buffer b (snd (AcquireBuffer (pool s))) = false
      /\ available_buffers_ (pool s') = []
      /\ all_buffers_ (pool s') = all_buffers_ (pool s)
      /\ next_allocation_id_ (pool s') = next_allocation_id_ (pool s) + 1
      /\ held s' = held s).
Proof.
  intros config s.
  assert (C : client_conserved s).
  { apply run_conserved; [reflexivity|apply start_conserved]. }
  assert (E : available_buffers_ (pool s) = []) by reflexivity.
  assert (X : auto_expand (config_ (pool s))
                && (size (all_buffers_ (pool s)) <? max_pool_size (config_ (pool s)))
              = false) by reflexivity.
  split; [exact C|]. split; [exact E|]. split; [exact X|].
  exact (temporary_buffer_is_dropped_on_release s C E X).
Defined.

(** *** A pool configured above its maximum *)

(** X13.  [ExpandPool] computes how far the pool is below [max_pool_size] in
    [size_t]: on a pool that already tracks more than [max_pool_size] buffers
    (one constructed with [initial_pool_size > max_pool_size]) the difference
    wraps around, and the loop goes on to create [2^64 - (size - max)]
    buffers instead of none. *)
Theorem expand_above_max_wraps_around (count : Z) (p : CommandBufferPool) :
  0 <= max_pool_size (config_ p) < size (all_buffers_ p) ->
  0 <= count ->
  size (all_buffers_ p) + count < 2 ^ 64 ->
  size (all_buffers_ (ExpandPool count p)) = max_pool_size (config_ p) + 2 ^ 64.
Proof.
  intros M N W. unfold ExpandPool.
  assert (E1 : u64 (size (all_buffers_ p) + count) = size (all_buffers_ p) + count)
    by (unfold u64; apply Z.mod_small; lia).
  assert (E2 : u64 (max_pool_size (config_ p) - size (all_buffers_ p))
               = max_pool_size (config_ p) - size (all_buffers_ p) + 2 ^ 64).
  { unfold u64. symmetry. apply (Z.mod_unique _ _ (-1)); lia. }
  rewrite E1, E2.
  destruct (Z.ltb_spec (max_pool_size (config_ p)) (size (all_buffers_ p) + count));
    [|lia].
  destruct (iter_add_available
              (Z.to_nat (max_pool_size (config_ p) - size (all_buffers_ p) + 2 ^ 64)) p)
    as (_ & A & _).
  cbn [count_expansion with_counters all_buffers_]. rewrite A. lia.
Qed.

(** X13, on an instance. *)
Lemma expand_above_max_wraps_around_witness :
  let p := construct {| initial_pool_size := 2; max_pool_size := 1;
                        buffer_size := 1024; auto_expand := true;
                        auto_shrink := true; shrink_delay_frames := 300 |} in
  0 <= max_pool_size (config_ p) < size (all_buffers_ p)
  /\ 0 <= 0
  /\ size (all_buffers_ p) + 0 < 2 ^ 64
  /\ size (all_buffers_ (ExpandPool 0 p)) = max_pool_size (config_ p) + 2 ^ 64.
Proof.
  intros p.
  assert (M : 0 <= max_pool_size (config_ p) < size (all_buffers_ p))
    by (split; [discriminate|reflexivity]).
  assert (N : 0 <= 0) by lia.
  assert (W : size (all_buffers_ p) + 0 < 2 ^ 64) by reflexivity.
  split; [exact M|]. split; [exact N|]. split; [exact W|].
  exact (expand_above_max_wraps_around 0 p M N W).
Defined.

(** *** A new pool *)

Lemma iter_add_available_ids n p :
  let p' := Nat.iter n add_available_buffer p in
  all_buffers_ p'
    = all_buffers_ p
      ++ map (fun i => next_allocation_id_ p + Z.of_nat i) (seq 0 n)
  /\ available_buffers_ p'
     = available_buffers_ p
       ++ map (fun i => next_allocation_id_ p + Z.of_nat i) (seq 0 n)
  /\ next_allocation_id_ p' = next_allocation_id_ p + Z.of_nat n
  /\ total_acquisitions_ p' = total_acquisitions_ p
  /\ pool_expansions_ p' = pool_expansions_ p.
Proof.
  induction n as [|n IH].
  - change (Nat.iter 0 add_available_buffer p) with p. cbn [seq map].
    rewrite !app_nil_r. change (Z.of_nat 0) with 0. repeat split; lia.
  - change (Nat.iter (S n) add_available_buffer p)
      with (add_available_buffer (Nat.iter n add_available_buffer p)).
    cbv zeta in *. destruct IH as (A & V & N & T & X).
    destruct (add_available_buffer_fields (Nat.iter n add_available_buffer p))
      as (-> & -> & ->).
    rewrite A, V, N, seq_S, map_app, !app_assoc. cbn [map Nat.add].
    repeat split; try assumption. lia.
Qed.

(** X11.  A newly constructed pool holds [initial_pool_size] buffers, all of them
    available, queued in the order of their creation (allocation ids 0, 1,
    ...); nothing has been counted yet. *)
Theorem new_pool_is_fully_available (config : Config) :
  0 <= initial_pool_size config ->
  let p := construct config in
  all_buffers_ p = map Z.of_nat (seq 0 (Z.to_nat (initial_pool_size config)))
  /\ available_buffers_ p = all_buffers_ p
  /\ size (all_buffers_ p) = initial_pool_size config
  /\ next_allocation_id_ p = initial_pool_size config
  /\ total_acquisitions_ p = 0
  /\ pool_expansions_ p = 0.
Proof.
  intros I p. unfold p, construct, InitializePool. cbn [config_].
  set (p0 := {| config_ := config |}).
  destruct (iter_add_available_ids (Z.to_nat (initial_pool_size config)) p0)
    as (A & V & N & T & X).
  rewrite A, V, N, T, X. cbn [p0 all_buffers_ available_buffers_ next_allocation_id_
                               total_acquisitions_ pool_expansions_ app].
  assert (M : map (fun i => 0 + Z.of_nat i) (seq 0 (Z.to_nat (initial_pool_size config)))
              = map Z.of_nat (seq 0 (Z.to_nat (initial_pool_size config))))
    by (apply map_ext; intros i; lia).
  rewrite M. unfold size. rewrite length_map, length_seq.
  repeat split; lia.
Qed.

(** X11, on an instance. *)
Lemma new_pool_is_fully_available_witness :
  0 <= initial_pool_size default_config
  /\ (let p := construct default_config in
      all_buffers_ p
        = map Z.of_nat (seq 0 (Z.to_nat (initial_pool_size default_config)))
      /\ available_buffers_ p = all_buffers_ p
      /\ size (all_buffers_ p) = initial_pool_size default_config
      /\ next_allocation_id_ p = initial_pool_size default_config
      /\ total_acquisitions_ p = 0
      /\ pool_expansions_ p = 0).
Proof.
  assert (I : 0 <= initial_pool_size default_config) by discriminate.
  split; [exact I|].
  exact (new_pool_is_fully_available default_config I).
Defined.

End PoolMore.

(** ** Eviction engine: registry, purge list and forced cleanup *)

Module TextureGCMore.
Import TextureGC.
Import TextureGCFacts.

(** *** The registry as a map *)

Lemma find_some_in id info r : find id r = Some info -> In (id, info) r.
Proof.
  induction r as [|[k v] r IH]; simpl; [discriminate|].
  destruct (Z.eqb_spec k id) as [->|N].
  - intros [= ->]. now left.
  - intros H. right. now apply IH.
Qed.

Lemma in_find_some id info r :
  unique_keys r -> In (id, info) r -> find id r = Some info.
Proof.
  unfold unique_keys.
  induction r as [|[k v] r IH]; simpl; [contradiction|].
  intros U. inversion U as [|? ? Nk Ur]; subst.
  intros [[= -> ->]|I].
  - now rewrite Z.eqb_refl.
  - destruct (Z.eqb_spec k id) as [->|N]; [|now apply IH].
    exfalso. apply Nk. apply in_map_iff. now exists (id, info).
Qed.

Lemma find_in_keys id info r : find id r = Some info -> In id (map fst r).
Proof.
  intros H. apply in_map_iff. exists (id, info). split; [reflexivity|].
  now apply find_some_in.
Qed.

Lemma in_keys_find id r : In id (map fst r) -> exists info, find id r = Some info.
Proof.
  induction r as [|[k v] r IH]; simpl; [contradiction|].
  destruct (Z.eqb_spec k id) as [->|N]; [now exists v|].
  intros [E|I]; [contradiction|]. now apply IH.
Qed.

Lemma find_replace_other id k info r :
  k <> id -> find id (replace k info r) = find id r.
Proof.
  intros N. induction r as [|[k' v] r IH]; simpl; [reflexivity|].
  destruct (Z.eqb_spec k' k) as [->|N']; simpl.
  - destruct (Z.eqb_spec k id); [contradiction|reflexivity].
  - now rewrite IH.
Qed.

Lemma find_erase_other id k r : k <> id -> find id (erase k r) = find id r.
Proof.
  intros N. induction r as [|[k' v] r IH]; simpl; [reflexivity|].
  destruct (Z.eqb_spec k' k) as [->|N']; simpl.
  - destruct (Z.eqb_spec k id); [contradiction|reflexivity].
  - now rewrite IH.
Qed.

Lemma erase_keys_incl id r k : In k (map fst (erase id r)) -> In k (map fst r).
Proof.
  induction r as [|[k' v] r IH]; simpl; [tauto|].
  destruct (k' =? id); simpl; [tauto|]. intros [E|I]; [now left|right; now apply IH].
Qed.

Lemma unique_keys_erase id r : unique_keys r -> unique_keys (erase id r).
Proof.
  unfold unique_keys.
  induction r as [|[k v] r IH]; simpl; [trivial|].
  intros U. inversion U as [|? ? Nk Ur]; subst.
  destruct (k =? id); simpl; [exact Ur|].
  constructor; [|now apply IH].
  intros I. apply Nk. now apply erase_keys_incl in I.
Qed.

Lemma unique_keys_assign id info r : unique_keys r -> unique_keys (assign id info r).
Proof.
  unfold unique_keys, assign. intros U.
  destruct (find id r) as [old|] eqn:F.
  - now rewrite map_fst_replace.
  - simpl. constructor; [|exact U].
    intros I. apply in_keys_find in I. destruct I as [info' F']. congruence.
Qed.

Lemma erase_fresh id info r : erase id ((id, info) :: r) = r.
Proof. simpl. now rewrite Z.eqb_refl. Qed.

(** *** Single calls and the registry *)

Lemma unique_keys_UnregisterTexture id g :
  unique_keys (tracked_textures_ g) ->
  unique_keys (tracked_textures_ (UnregisterTexture id g)).
Proof.
  intros U. unfold UnregisterTexture.
  destruct (find id (tracked_textures_ g)); [|exact U].
  cbn [tracked_textures_ with_tracked]. now apply unique_keys_erase.
Qed.

Lemma unique_keys_force_loop cands : forall freed target g,
  unique_keys (tracked_textures_ g) ->
  unique_keys (tracked_textures_ (snd (force_loop cands freed target g))).
Proof.
  induction cands as [|[id fu] rest IH]; intros freed target g U; simpl; [exact U|].
  destruct (target <=? freed); [exact U|].
  destruct (find id (tracked_textures_ g)) eqn:F.
  - apply IH. now apply unique_keys_UnregisterTexture.
  - now apply IH.
Qed.

Lemma GetTexturesToPurge_keeps g :
  let g1 := snd (GetTexturesToPurge g) in
  config_ g1 = config_ g /\ current_frame_ g1 = current_frame_ g
  /\ current_vram_usage_ g1 = current_vram_usage_ g
  /\ tracked_textures_ g1 = tracked_textures_ g.
Proof.
  unfold GetTexturesToPurge.
  destruct (count_purged _ _ _ _) as [p f]. cbn. repeat split.
Qed.

Lemma unique_keys_perform c g :
  unique_keys (tracked_textures_ g) -> unique_keys (tracked_textures_ (perform c g)).
Proof.
  intros U. destruct c; cbn [perform].
  - exact U.
  - unfold MarkTextureUsed. destruct (find image_id (tracked_textures_ g)); [|exact U].
    cbn [tracked_textures_ with_tracked]. unfold unique_keys.
    now rewrite map_fst_replace.
  - cbn [RegisterTexture tracked_textures_ with_tracked]. now apply unique_keys_assign.
  - now apply unique_keys_UnregisterTexture.
  - destruct (GetTexturesToPurge_keeps g) as (_ & _ & _ & ->). exact U.
  - unfold ForceCleanup. now apply unique_keys_force_loop.
  - exact U.
Qed.

Lemma unique_keys_run cs : forall g,
  unique_keys (tracked_textures_ g) -> unique_keys (tracked_textures_ (run cs g)).
Proof.
  induction cs as [|c cs IH]; intros g U; [exact U|].
  apply IH. now apply unique_keys_perform.
Qed.

(** *** The estimate and the tracked sizes *)

Lemma accounted_UnregisterTexture id g :
  accounted g -> accounted (UnregisterTexture id g).
Proof.
  unfold accounted, UnregisterTexture. intros A.
  destruct (find id (tracked_textures_ g)) as [info|] eqn:F; [|exact A].
  cbn [tracked_textures_ current_vram_usage_ with_tracked].
  rewrite (tracked_bytes_erase _ _ _ F), A. unfold u64.
  now rewrite Zminus_mod_idemp_l.
Qed.

Lemma accounted_force_loop cands : forall freed target g,
  accounted g -> accounted (snd (force_loop cands freed target g)).
Proof.
  induction cands as [|[id fu] rest IH]; intros freed target g A; simpl; [exact A|].
  destruct (target <=? freed); [exact A|].
  destruct (find id (tracked_textures_ g)) eqn:F.
  - apply IH. now apply accounted_UnregisterTexture.
  - now apply IH.
Qed.

Lemma accounted_perform c g :
  self_accounted c g = true -> accounted g -> accounted (perform c g).
Proof.
  intros D A. destruct c; cbn [perform self_accounted] in *.
  - exact A.
  - unfold MarkTextureUsed, accounted in *.
    destruct (find image_id (tracked_textures_ g)) as [info|] eqn:F; [|exact A].
    cbn [tracked_textures_ current_vram_usage_ with_tracked].
    rewrite (tracked_bytes_replace _ _ _ _ F). cbn [size_bytes].
    rewrite A. f_equal. lia.
  - unfold is_tracked in D. unfold RegisterTexture, assign, accounted in *.
    destruct (find image_id (tracked_textures_ g)); [discriminate|].
    cbn [tracked_textures_ current_vram_usage_ with_tracked].
    unfold tracked_bytes at 1. cbn [fold_right snd size_bytes].
    fold (tracked_bytes (tracked_textures_ g)). rewrite A. unfold u64.
    rewrite Zplus_mod_idemp_l. f_equal. lia.
  - now apply accounted_UnregisterTexture.
  - unfold accounted.
    destruct (GetTexturesToPurge_keeps g) as (_ & _ & -> & ->). exact A.
  - unfold ForceCleanup. now apply accounted_force_loop.
  - discriminate.
Qed.

Lemma accounted_run cs : forall g,
  all_self_accounted cs g = true -> accounted g -> accounted (run cs g).
Proof.
  induction cs as [|c cs IH]; intros g D A; [exact A|].
  cbn [all_self_accounted] in D. apply andb_true_iff in D. destruct D as [D1 D2].
  apply IH; [exact D2|]. now apply accounted_perform.
Qed.

(** X19.  As long as every registration is of an id that is not tracked at that
    moment and nobody overwrites the estimate with [UpdateMemoryUsage], the
    engine's running estimate is the sum of the sizes of the tracked textures
    (as a [u64]), whatever else is called in between, and the registry holds
    one record per id. *)
Theorem estimate_is_sum_of_tracked_sizes (config : Config) (cs : list Call) :
  all_self_accounted cs (construct config) = true ->
  let g := run cs (construct config) in
  unique_keys (tracked_textures_ g)
  /\ current_vram_usage_ g = u64 (tracked_bytes (tracked_textures_ g)).
Proof.
  intros D g. split.
  - apply unique_keys_run. constructor.
  - apply accounted_run; [exact D|reflexivity].
Qed.

(** X19, on an instance. *)
Lemma estimate_is_sum_of_tracked_sizes_witness :
  let cs := [CallRegisterTexture 1 (4 * MiB) false; CallTickFrame;
             CallRegisterTexture 2 (600 * MiB) true; CallMarkTextureUsed 1;
             CallGetTexturesToPurge; CallUnregisterTexture 1;
             CallRegisterTexture 1 (8 * MiB) false; CallForceCleanup 1] in
  all_self_accounted cs (construct default_config) = true
  /\ (let g := run cs (construct default_config) in
      unique_keys (tracked_textures_ g)
      /\ current_vram_usage_ g = u64 (tracked_bytes (tracked_textures_ g))).
Proof.
  intros cs.
  assert (D : all_self_accounted cs (construct default_config) = true)
    by (vm_compute; reflexivity).
  split; [exact D|].
  exact (estimate_is_sum_of_tracked_sizes default_config cs D).
Defined.



(** *** Sorting *)

Lemma insert_sorted_perm {A : Type} (before : A -> A -> bool) x l :
  Permutation (insert_sorted before x l) (x :: l).
Proof.
  induction l as [|y l IH]; simpl; [apply Permutation_refl|].
  destruct (before y x); [|apply Permutation_refl].
  eapply Permutation_trans; [apply perm_skip, IH|apply perm_swap].
Qed.

Lemma sort_perm {A : Type} (before : A -> A -> bool) l :
  Permutation (sort before l) l.
Proof.
  unfold sort. induction l as [|x l IH]; simpl; [apply Permutation_refl|].
  eapply Permutation_trans; [apply insert_sorted_perm|now apply perm_skip].
Qed.

Section SortOrder.
Context {A : Type} (before : A -> A -> bool).
Hypothesis before_asym : forall a b, before a b = true -> before b a = false.
Hypothesis before_negtrans :
  forall a b c, before b a = false -> before c b = false -> before c a = false.

Lemma insert_sorted_sorted x l :
  StronglySorted (fun a b => before b a = false) l ->
  StronglySorted (fun a b => before b a = false) (insert_sorted before x l).
Proof.
  induction 1 as [|y l S IH F]; simpl.
  - constructor; constructor.
  - destruct (before y x) eqn:E.
    + constructor; [exact IH|].
      apply (Permutation_Forall (Permutation_sym (insert_sorted_perm before x l))).
      constructor; [now apply before_asym|exact F].
    + constructor; [now constructor|].
      constructor; [exact E|].
      apply Forall_forall. intros z Iz.
      apply (before_negtrans x y z E).
      now apply (proj1 (Forall_forall _ _) F).
Qed.

Lemma sort_sorted l : StronglySorted (fun a b => before b a = false) (sort before l).
Proof.
  unfold sort. induction l as [|x l IH]; simpl; [constructor|].
  now apply insert_sorted_sorted.
Qed.

End SortOrder.

Lemma Forall_firstn_keep {A : Type} (P : A -> Prop) n : forall l,
  Forall P l -> Forall P (firstn n l).
Proof.
  induction n as [|n IH]; intros l F; [constructor|].
  destruct F; simpl; constructor; auto.
Qed.

Lemma firstn_member {A : Type} n : forall (l : list A) x, In x (firstn n l) -> In x l.
Proof.
  induction n as [|n IH]; intros l x; [contradiction|].
  destruct l; simpl; [tauto|]. intros [E|I]; [now left|right; now apply IH].
Qed.

Lemma NoDup_firstn_keep {A : Type} n : forall (l : list A), NoDup l -> NoDup (firstn n l).
Proof.
  induction n as [|n IH]; intros l N; [constructor|].
  destruct N as [|x l Nx N]; simpl; constructor; [|now apply IH].
  intros I. apply Nx. now apply firstn_member in I.
Qed.

Lemma StronglySorted_firstn {A : Type} (R : A -> A -> Prop) n : forall l,
  StronglySorted R l -> StronglySorted R (firstn n l).
Proof.
  induction n as [|n IH]; intros l S; [constructor|].
  destruct S as [|x l S F]; simpl; constructor; [now apply IH|].
  now apply Forall_firstn_keep.
Qed.

Lemma StronglySorted_earlier_later {A : Type} (R : A -> A -> Prop) l1 a l2 b l3 :
  StronglySorted R (l1 ++ a :: l2 ++ b :: l3) -> R a b.
Proof.
  induction l1 as [|x l1 IH]; simpl; intros S.
  - inversion S as [|? ? _ F]; subst.
    apply (proj1 (Forall_forall _ _) F). apply in_or_app. right. now left.
  - inversion S; subst. now apply IH.
Qed.

(** *** The ordering lambda *)

Lemma priority_before_asym r a b :
  priority_before r a b = true -> priority_before r b a = false.
Proof.
  unfold priority_before.
  destruct (is_render_target (info_at r a)), (is_render_target (info_at r b));
    cbn [Bool.eqb negb andb]; try discriminate; try reflexivity;
    destruct (Z.eqb_spec (size_bytes (info_at r a)) (size_bytes (info_at r b)));
    destruct (Z.eqb_spec (size_bytes (info_at r b)) (size_bytes (info_at r a)));
    cbn [negb]; try lia; rewrite ?Z.ltb_lt, ?Z.ltb_ge; lia.
Qed.

Lemma priority_before_negtrans r a b c :
  priority_before r b a = false -> priority_before r c b = false ->
  priority_before r c a = false.
Proof.
  unfold priority_before.
  destruct (is_render_target (info_at r a)), (is_render_target (info_at r b)),
           (is_render_target (info_at r c));
    cbn [Bool.eqb negb andb]; try discriminate; try reflexivity;
    destruct (Z.eqb_spec (size_bytes (info_at r b)) (size_bytes (info_at r a)));
    destruct (Z.eqb_spec (size_bytes (info_at r c)) (size_bytes (info_at r b)));
    destruct (Z.eqb_spec (size_bytes (info_at r c)) (size_bytes (info_at r a)));
    cbn [negb]; rewrite ?Z.ltb_lt, ?Z.ltb_ge; lia.
Qed.

Lemma priority_ordered_reading r a b :
  priority_ordered r a b ->
  let ia := info_at r a in
  let ib := info_at r b in
  (is_render_target ia = true -> is_render_target ib = true)
  /\ (is_render_target ia = is_render_target ib -> size_bytes ib <= size_bytes ia)
  /\ (is_render_target ia = is_render_target ib -> size_bytes ia = size_bytes ib ->
      usage_count ia <= usage_count ib).
Proof.
  unfold priority_ordered, priority_before. cbv zeta.
  destruct (is_render_target (info_at r a)), (is_render_target (info_at r b));
    cbn [Bool.eqb negb andb]; try discriminate;
    try (intros _; repeat split; intros; discriminate);
    destruct (Z.eqb_spec (size_bytes (info_at r b)) (size_bytes (info_at r a)));
    cbn [negb]; rewrite ?Z.ltb_lt, ?Z.ltb_ge; intros; repeat split; intros; lia.
Qed.

(** *** The purge list *)

Lemma purge_list_shape g :
  let selected := map fst (filter (purgeable g) (tracked_textures_ g)) in
  let sorted := sort (priority_before (tracked_textures_ g)) selected in
  fst (GetTexturesToPurge g)
    = if IsMemoryPressureHigh g && (10 <? Z.of_nat (length sorted))
      then firstn 50 sorted else sorted.
Proof.
  unfold GetTexturesToPurge, SortTexturesByPriority, purgeable.
  destruct (count_purged _ _ _ _). reflexivity.
Qed.

Lemma purge_list_selected g id :
  In id (fst (GetTexturesToPurge g)) ->
  In id (map fst (filter (purgeable g) (tracked_textures_ g))).
Proof.
  rewrite purge_list_shape. cbv zeta. intros I.
  apply (Permutation_in _ (sort_perm (priority_before (tracked_textures_ g)) _)).
  destruct (IsMemoryPressureHigh g && _); [now apply firstn_member in I|exact I].
Qed.

Lemma purge_list_member g id :
  unique_keys (tracked_textures_ g) ->
  In id (fst (GetTexturesToPurge g)) ->
  exists info, find id (tracked_textures_ g) = Some info
               /\ ShouldPurgeTexture g info (frames_unused_of g info) = true.
Proof.
  intros U I. apply purge_list_selected in I.
  apply in_map_iff in I. destruct I as ([k info] & E & I). simpl in E. subst k.
  apply filter_In in I. destruct I as [I P].
  exists info. split; [now apply in_find_some|exact P].
Qed.

Lemma NoDup_keys_filter (f : ImageId * TextureInfo -> bool) r :
  unique_keys r -> NoDup (map fst (filter f r)).
Proof.
  unfold unique_keys. induction r as [|e r IH]; simpl; [trivial|].
  intros U. inversion U as [|? ? Nk Ur]; subst.
  destruct (f e); simpl; [|now apply IH].
  constructor; [|now apply IH].
  intros I. apply Nk. apply in_map_iff in I. destruct I as (e' & E & I).
  apply filter_In in I. apply in_map_iff. exists e'. tauto.
Qed.

(** X23.  The list [GetTexturesToPurge] returns names each id at most once; every
    id in it is tracked and its record passes [ShouldPurgeTexture] at its
    current age; while the pressure predicate is false the list holds every
    such id, and while it is true the list has at most 50 entries. *)
Theorem purge_list_names_purgeable_textures (g : TextureGarbageCollector) :
  unique_keys (tracked_textures_ g) ->
  let l := fst (GetTexturesToPurge g) in
  NoDup l
  /\ (forall id, In id l ->
        exists info, find id (tracked_textures_ g) = Some info
                     /\ ShouldPurgeTexture g info (frames_unused_of g info) = true)
  /\ (IsMemoryPressureHigh g = false ->
      forall id info, find id (tracked_textures_ g) = Some info ->
        ShouldPurgeTexture g info (frames_unused_of g info) = true -> In id l)
  /\ (IsMemoryPressureHigh g = true -> (length l <= 50)%nat).
Proof.
  intros U l. split; [|split; [|split]].
  - unfold l. rewrite purge_list_shape. cbv zeta.
    assert (N : NoDup (sort (priority_before (tracked_textures_ g))
                         (map fst (filter (purgeable g) (tracked_textures_ g))))).
    { apply (Permutation_NoDup (Permutation_sym (sort_perm _ _))).
      now apply NoDup_keys_filter. }
    destruct (IsMemoryPressureHigh g && _); [now apply NoDup_firstn_keep|exact N].
  - intros id I. now apply purge_list_member.
  - intros P id info F S. unfold l. rewrite purge_list_shape. cbv zeta.
    rewrite P. cbn [andb].
    apply (Permutation_in _ (Permutation_sym (sort_perm _ _))).
    apply in_map_iff. exists (id, info). split; [reflexivity|].
    apply filter_In. split; [now apply find_some_in|exact S].
  - intros P. unfold l. rewrite purge_list_shape. cbv zeta. rewrite P. cbn [andb].
    destruct (Z.ltb_spec 10 (Z.of_nat (length
               (sort (priority_before (tracked_textures_ g))
                  (map fst (filter (purgeable g) (tracked_textures_ g))))))) as [L|L].
    + apply firstn_le_length.
    + lia.
Qed.

(** X23, on an instance. *)
Lemma purge_list_names_purgeable_textures_witness :
  let g := mixed_textures in
  unique_keys (tracked_textures_ g)
  /\ (let l := fst (GetTexturesToPurge g) in
      NoDup l
      /\ (forall id, In id l ->
            exists info, find id (tracked_textures_ g) = Some info
                         /\ ShouldPurgeTexture g info (frames_unused_of g info) = true)
      /\ (IsMemoryPressureHigh g = false ->
          forall id info, find id (tracked_textures_ g) = Some info ->
            ShouldPurgeTexture g info (frames_unused_of g info) = true -> In id l)
      /\ (IsMemoryPressureHigh g = true -> (length l <= 50)%nat)).
Proof.
  intros g.
  assert (U : unique_keys (tracked_textures_ g)).
  { unfold unique_keys. change (map fst (tracked_textures_ g)) with [3; 2; 1].
    repeat constructor; simpl; intuition discriminate. }
  split; [exact U|].
  exact (purge_list_names_purgeable_textures g U).
Defined.

(** X24.  In the list [GetTexturesToPurge] returns, an id never stands before one
    that the ordering lambda puts first: no render target stands before a
    texture that is none; among textures of the same kind sizes do not
    increase; among those of the same kind and size use counts do not
    decrease. *)
Theorem purge_list_is_in_priority_order
    (g : TextureGarbageCollector) (l1 l2 l3 : list ImageId) (a b : ImageId) :
  fst (GetTexturesToPurge g) = l1 ++ a :: l2 ++ b :: l3 ->
  let ia := info_at (tracked_textures_ g) a in
  let ib := info_at (tracked_textures_ g) b in
  (is_render_target ia = true -> is_render_target ib = true)
  /\ (is_render_target ia = is_render_target ib -> size_bytes ib <= size_bytes ia)
  /\ (is_render_target ia = is_render_target ib -> size_bytes ia = size_bytes ib ->
      usage_count ia <= usage_count ib).
Proof.
  intros E. apply priority_ordered_reading.
  apply (StronglySorted_earlier_later _ l1 a l2 b l3). rewrite <- E.
  rewrite purge_list_shape. cbv zeta.
  assert (S : StronglySorted (priority_ordered (tracked_textures_ g))
                (sort (priority_before (tracked_textures_ g))
                   (map fst (filter (purgeable g) (tracked_textures_ g))))).
  { apply sort_sorted.
    - apply priority_before_asym.
    - apply priority_before_negtrans. }
  destruct (IsMemoryPressureHigh g && _); [now apply StronglySorted_firstn|exact S].
Qed.

(** X24, on an instance. *)
Lemma purge_list_is_in_priority_order_witness :
  let g := mixed_textures in
  fst (GetTexturesToPurge g) = [] ++ 1 :: [2] ++ 3 :: []
  /\ (let ia := info_at (tracked_textures_ g) 1 in
      let ib := info_at (tracked_textures_ g) 3 in
      (is_render_target ia = true -> is_render_target ib = true)
      /\ (is_render_target ia = is_render_target ib -> size_bytes ib <= size_bytes ia)
      /\ (is_render_target ia = is_render_target ib -> size_bytes ia = size_bytes ib ->
          usage_count ia <= usage_count ib)).
Proof.
  intros g.
  assert (E : fst (GetTexturesToPurge g) = [] ++ 1 :: [2] ++ 3 :: [])
    by (vm_compute; reflexivity).
  split; [exact E|].
  exact (purge_list_is_in_priority_order g [] [2] [] 1 3 E).
Defined.

(** *** Recently used textures *)

Lemma GetEffectiveThreshold_same g g' :
  config_ g' = config_ g -> current_vram_usage_ g' = current_vram_usage_ g ->
  GetEffectiveThreshold g' = GetEffectiveThreshold g.
Proof.
  intros C V. unfold GetEffectiveThreshold, IsMemoryPressureHigh. now rewrite C, V.
Qed.

Lemma recent_texture_not_listed g id info :
  unique_keys (tracked_textures_ g) ->
  find id (tracked_textures_ g) = Some info ->
  frames_unused_of g info < GetEffectiveThreshold g ->
  ~ In id (fst (GetTexturesToPurge g)).
Proof.
  intros U F L I. destruct (purge_list_member g id U I) as (info' & F' & S).
  rewrite F in F'. injection F' as <-.
  unfold ShouldPurgeTexture in S.
  destruct (Z.ltb_spec (frames_unused_of g info) (GetEffectiveThreshold g));
    [discriminate|lia].
Qed.

Lemma idle_frames k : forall g,
  let g' := Nat.iter k TickFrame g in
  config_ g' = config_ g /\ current_vram_usage_ g' = current_vram_usage_ g
  /\ tracked_textures_ g' = tracked_textures_ g
  /\ forall c, u32 (current_frame_ g' - c) = u32 (current_frame_ g + Z.of_nat k - c).
Proof.
  induction k as [|k IH]; intros g.
  - change (Nat.iter 0 TickFrame g) with g. change (Z.of_nat 0) with 0.
    repeat split. intros c. f_equal. lia.
  - change (Nat.iter (S k) TickFrame g) with (TickFrame (Nat.iter k TickFrame g)).
    destruct (IH g) as (C & V & T & Fr). cbv zeta.
    cbn [TickFrame with_frame config_ current_vram_usage_ tracked_textures_ current_frame_].
    repeat split; try assumption.
    intros c. unfold u32 in *. rewrite Zminus_mod_idemp_l.
    replace (current_frame_ (Nat.iter k TickFrame g) + 1 - c)
      with (current_frame_ (Nat.iter k TickFrame g) - (c - 1)) by lia.
    rewrite Fr. f_equal. lia.
Qed.

Lemma used_now_is_kept g id info (k : nat) :
  unique_keys (tracked_textures_ g) ->
  find id (tracked_textures_ g) = Some info ->
  last_used_frame info = current_frame_ g ->
  Z.of_nat k < GetEffectiveThreshold g ->
  ~ In id (fst (GetTexturesToPurge (Nat.iter k TickFrame g))).
Proof.
  intros U F L K.
  destruct (idle_frames k g) as (C & V & T & Fr).
  apply (recent_texture_not_listed _ id info).
  - now rewrite T.
  - now rewrite T.
  - rewrite (GetEffectiveThreshold_same g _ C V).
    unfold frames_unused_of. rewrite Fr, L.
    replace (current_frame_ g + Z.of_nat k - current_frame_ g) with (Z.of_nat k) by lia.
    unfold u32. pose proof (Z.mod_le (Z.of_nat k) (2 ^ 32)). lia.
Qed.

(** X21.  A texture marked as used stays out of the purge list for as many of the
    following frames as the effective threshold allows: after
    [MarkTextureUsed] and [k] calls of [TickFrame], with [k] below the
    effective threshold, [GetTexturesToPurge] does not return it. *)
Theorem marked_texture_is_kept
    (g : TextureGarbageCollector) (id : ImageId) (k : nat) :
  unique_keys (tracked_textures_ g) ->
  is_tracked id g = true ->
  Z.of_nat k < GetEffectiveThreshold g ->
  ~ In id (fst (GetTexturesToPurge (Nat.iter k TickFrame (MarkTextureUsed id g)))).
Proof.
  intros U T K. unfold is_tracked in T.
  destruct (find id (tracked_textures_ g)) as [info|] eqn:F; [|discriminate].
  set (info' := {| size_bytes := size_bytes info;
                   last_used_frame := current_frame_ g;
                   is_render_target := is_render_target info;
                   usage_count := u32 (usage_count info + 1) |}).
  assert (E : MarkTextureUsed id g
              = with_tracked (current_vram_usage_ g)
                  (replace id info' (tracked_textures_ g)) g)
    by (unfold MarkTextureUsed; now rewrite F).
  rewrite E. apply (used_now_is_kept _ id info').
  - cbn [tracked_textures_ with_tracked]. unfold unique_keys.
    now rewrite map_fst_replace.
  - cbn [tracked_textures_ with_tracked]. now apply (find_replace_same _ _ _ info).
  - reflexivity.
  - rewrite (GetEffectiveThreshold_same g); [exact K|reflexivity|reflexivity].
Qed.

(** X21, on an instance. *)
Lemma marked_texture_is_kept_witness :
  let g := mixed_textures in
  unique_keys (tracked_textures_ g)
  /\ is_tracked 2 g = true
  /\ Z.of_nat 59 < GetEffectiveThreshold g
  /\ ~ In 2 (fst (GetTexturesToPurge (Nat.iter 59 TickFrame (MarkTextureUsed 2 g)))).
Proof.
  intros g.
  assert (U : unique_keys (tracked_textures_ g)).
  { unfold unique_keys. change (map fst (tracked_textures_ g)) with [3; 2; 1].
    repeat constructor; simpl; intuition discriminate. }
  assert (T : is_tracked 2 g = true) by reflexivity.
  assert (K : Z.of_nat 59 < GetEffectiveThreshold g) by reflexivity.
  split; [exact U|]. split; [exact T|]. split; [exact K|].
  exact (marked_texture_is_kept g 2 59 U T K).
Defined.

(** X22.  A texture just registered (whether its id was tracked before or not)
    stays out of the purge list for as many of the following frames as the
    effective threshold, taken after the registration, allows. *)
Theorem registered_texture_is_kept
    (g : TextureGarbageCollector) (id : ImageId) (size : Z) (render_target : bool)
    (k : nat) :
  unique_keys (tracked_textures_ g) ->
  Z.of_nat k < GetEffectiveThreshold (RegisterTexture id size render_target g) ->
  ~ In id (fst (GetTexturesToPurge
                  (Nat.iter k TickFrame (RegisterTexture id size render_target g)))).
Proof.
  intros U K.
  set (info := {| size_bytes := size; last_used_frame := current_frame_ g;
                  is_render_target := render_target; usage_count := 1 |}).
  apply (used_now_is_kept _ id info).
  - cbn [RegisterTexture tracked_textures_ with_tracked]. now apply unique_keys_assign.
  - cbn [RegisterTexture tracked_textures_ with_tracked]. unfold assign.
    destruct (find id (tracked_textures_ g)) as [old|] eqn:F.
    + now apply (find_replace_same _ _ _ old).
    + simpl. now rewrite Z.eqb_refl.
  - reflexivity.
  - exact K.
Qed.

(** X22, on an instance. *)
Lemma registered_texture_is_kept_witness :
  let g := mixed_textures in
  unique_keys (tracked_textures_ g)
  /\ Z.of_nat 29 < GetEffectiveThreshold (RegisterTexture 7 (600 * MiB) false g)
  /\ ~ In 7 (fst (GetTexturesToPurge
                    (Nat.iter 29 TickFrame (RegisterTexture 7 (600 * MiB) false g)))).
Proof.
  intros g.
  assert (U : unique_keys (tracked_textures_ g)).
  { unfold unique_keys. change (map fst (tracked_textures_ g)) with [3; 2; 1].
    repeat constructor; simpl; intuition discriminate. }
  assert (K : Z.of_nat 29 < GetEffectiveThreshold (RegisterTexture 7 (600 * MiB) false g))
    by reflexivity.
  split; [exact U|]. split; [exact K|].
  exact (registered_texture_is_kept g 7 (600 * MiB) false 29 U K).
Defined.

(** *** Asking twice *)

Lemma u64_range z : is_u64 (u64 z).
Proof. unfold is_u64, u64. apply Z.mod_pos_bound. reflexivity. Qed.

Lemma info_at_find r id info : find id r = Some info -> info_at r id = info.
Proof. unfold info_at. now intros ->. Qed.

Lemma count_purged_tracked r ids : forall purged freed,
  (forall id, In id ids -> In id (map fst r)) ->
  is_u64 purged -> is_u64 freed ->
  count_purged r ids purged freed
    = (u64 (purged + Z.of_nat (length ids)), u64 (freed + listed_bytes r ids)).
Proof.
  induction ids as [|id ids IH]; intros purged freed T Bp Bf.
  - cbn [count_purged length listed_bytes fold_right]. change (Z.of_nat 0) with 0.
    unfold u64. rewrite !Z.add_0_r, !Z.mod_small; [reflexivity|exact Bf|exact Bp].
  - destruct (in_keys_find id r (T id (or_introl eq_refl))) as [info F].
    cbn [count_purged]. rewrite F.
    rewrite IH; [|intros k I; apply T; now right|apply u64_range|apply u64_range].
    unfold listed_bytes. cbn [fold_right length]. fold (listed_bytes r ids).
    rewrite (info_at_find _ _ _ F). unfold u64.
    rewrite !Zplus_mod_idemp_l. f_equal; f_equal; lia.
Qed.

Lemma ShouldPurgeTexture_same g g' info n :
  config_ g' = config_ g -> current_vram_usage_ g' = current_vram_usage_ g ->
  ShouldPurgeTexture g' info n = ShouldPurgeTexture g info n.
Proof.
  intros C V. unfold ShouldPurgeTexture.
  rewrite (GetEffectiveThreshold_same g g' C V).
  unfold IsMemoryPressureHigh. now rewrite C, V.
Qed.

Lemma purge_list_same g g' :
  config_ g' = config_ g -> current_frame_ g' = current_frame_ g ->
  current_vram_usage_ g' = current_vram_usage_ g ->
  tracked_textures_ g' = tracked_textures_ g ->
  fst (GetTexturesToPurge g') = fst (GetTexturesToPurge g).
Proof.
  intros C Fr V T. rewrite !purge_list_shape. cbv zeta.
  assert (P : forall e, purgeable g' e = purgeable g e).
  { intros e. unfold purgeable, frames_unused_of. rewrite Fr.
    now apply ShouldPurgeTexture_same. }
  rewrite T, (filter_ext _ _ P).
  unfold IsMemoryPressureHigh. now rewrite C, V.
Qed.

Lemma GetTexturesToPurge_stats g :
  let l := fst (GetTexturesToPurge g) in
  let counted :=
    count_purged (tracked_textures_ g) l
                 (total_textures_purged_ g) (total_vram_freed_ g) in
  snd (GetTexturesToPurge g) = with_purge_stats (fst counted) (snd counted) g.
Proof.
  unfold GetTexturesToPurge.
  destruct (count_purged _ _ _ _) as [p f] eqn:E. cbn [fst snd].
  rewrite E. reflexivity.
Qed.

Lemma purge_stats g :
  is_u64 (total_textures_purged_ g) -> is_u64 (total_vram_freed_ g) ->
  let l := fst (GetTexturesToPurge g) in
  let g1 := snd (GetTexturesToPurge g) in
  total_textures_purged_ g1 = u64 (total_textures_purged_ g + Z.of_nat (length l))
  /\ total_vram_freed_ g1
     = u64 (total_vram_freed_ g + listed_bytes (tracked_textures_ g) l).
Proof.
  intros Bp Bf l g1.
  assert (T : forall id, In id l -> In id (map fst (tracked_textures_ g))).
  { intros id I. apply purge_list_selected in I.
    apply in_map_iff in I. destruct I as (e & E & I). apply filter_In in I.
    apply in_map_iff. exists e. tauto. }
  unfold g1. rewrite GetTexturesToPurge_stats. cbv zeta. fold l.
  rewrite (count_purged_tracked (tracked_textures_ g) l _ _ T Bp Bf).
  split; reflexivity.
Qed.

(** X25.  [GetTexturesToPurge] removes nothing: registry and estimate stay as they
    are, and asking again returns the same list.  It nevertheless counts
    every returned id as purged and its size as freed, so asking twice
    without acting counts them twice. *)
Theorem purge_query_counts_without_removing (g : TextureGarbageCollector) :
  is_u64 (total_textures_purged_ g) ->
  is_u64 (total_vram_freed_ g) ->
  let l := fst (GetTexturesToPurge g) in
  let g1 := snd (GetTexturesToPurge g) in
  let g2 := snd (GetTexturesToPurge g1) in
  tracked_textures_ g1 = tracked_textures_ g
  /\ current_vram_usage_ g1 = current_vram_usage_ g
  /\ fst (GetTexturesToPurge g1) = l
  /\ total_textures_purged_ g1 = u64 (total_textures_purged_ g + Z.of_nat (length l))
  /\ total_vram_freed_ g1
     = u64 (total_vram_freed_ g + listed_bytes (tracked_textures_ g) l)
  /\ total_textures_purged_ g2
     = u64 (total_textures_purged_ g + 2 * Z.of_nat (length l)).
Proof.
  intros Bp Bf l g1 g2.
  destruct (GetTexturesToPurge_keeps g) as (C & Fr & V & T). fold g1 in C, Fr, V, T.
  destruct (purge_stats g Bp Bf) as [P1 F1]. fold l g1 in P1, F1.
  assert (L : fst (GetTexturesToPurge g1) = l) by now apply purge_list_same.
  assert (Bp1 : is_u64 (total_textures_purged_ g1)) by (rewrite P1; apply u64_range).
  assert (Bf1 : is_u64 (total_vram_freed_ g1)) by (rewrite F1; apply u64_range).
  destruct (purge_stats g1 Bp1 Bf1) as [P2 _]. fold g2 in P2. rewrite L in P2.
  repeat split; try assumption.
  rewrite P2, P1. unfold u64. rewrite Zplus_mod_idemp_l. f_equal. lia.
Qed.

(** X25, on an instance. *)
Lemma purge_query_counts_without_removing_witness :
  let g := mixed_textures in
  is_u64 (total_textures_purged_ g)
  /\ is_u64 (total_vram_freed_ g)
  /\ (let l := fst (GetTexturesToPurge g) in
      let g1 := snd (GetTexturesToPurge g) in
      let g2 := snd (GetTexturesToPurge g1) in
      tracked_textures_ g1 = tracked_textures_ g
      /\ current_vram_usage_ g1 = current_vram_usage_ g
      /\ fst (GetTexturesToPurge g1) = l
      /\ total_textures_purged_ g1 = u64 (total_textures_purged_ g + Z.of_nat (length l))
      /\ total_vram_freed_ g1
         = u64 (total_vram_freed_ g + listed_bytes (tracked_textures_ g) l)
      /\ total_textures_purged_ g2
         = u64 (total_textures_purged_ g + 2 * Z.of_nat (length l))).
Proof.
  intros g.
  assert (Bp : is_u64 (total_textures_purged_ g))
    by (vm_compute; split; [discriminate|reflexivity]).
  assert (Bf : is_u64 (total_vram_freed_ g))
    by (vm_compute; split; [discriminate|reflexivity]).
  split; [exact Bp|]. split; [exact Bf|].
  exact (purge_query_counts_without_removing g Bp Bf).
Defined.

(** *** The age test *)

(** X26.  [ShouldPurgeTexture] only ever asks for more age: a record that passes
    at some age passes at every greater age, whatever its kind, its use
    count and the memory situation. *)
Theorem purgeable_stays_purgeable_with_age
    (g : TextureGarbageCollector) (info : TextureInfo) (age older : Z) :
  age <= older ->
  ShouldPurgeTexture g info age = true ->
  ShouldPurgeTexture g info older = true.
Proof.
  intros L. unfold ShouldPurgeTexture.
  destruct (Z.ltb_spec age (GetEffectiveThreshold g)); [discriminate|].
  destruct (Z.ltb_spec older (GetEffectiveThreshold g)); [lia|].
  destruct (is_render_target info); [rewrite !Z.ltb_lt; lia|].
  destruct (100 <? usage_count info); [rewrite !Z.ltb_lt; lia|].
  destruct (IsMemoryPressureHigh g); [rewrite !Z.ltb_lt; lia|].
  rewrite !Z.leb_le. lia.
Qed.

(** X26, on an instance. *)
Lemma purgeable_stays_purgeable_with_age_witness :
  let g := mixed_textures in
  let info := plain_texture (4 * MiB) 0 1 in
  60 <= 200
  /\ ShouldPurgeTexture g info 60 = true
  /\ ShouldPurgeTexture g info 200 = true.
Proof.
  intros g info.
  assert (L : 60 <= 200) by lia.
  assert (S : ShouldPurgeTexture g info 60 = true) by reflexivity.
  split; [exact L|]. split; [exact S|].
  exact (purgeable_stays_purgeable_with_age g info 60 200 L S).
Defined.

(** *** Forced cleanup *)

Lemma keys_erase_other id k r :
  k <> id -> In id (map fst r) -> In id (map fst (erase k r)).
Proof.
  intros N I. destruct (in_keys_find _ _ I) as [info F].
  apply (find_in_keys id info). now rewrite find_erase_other.
Qed.

Lemma find_erase_some id k info r :
  unique_keys r -> find id (erase k r) = Some info -> k <> id /\ find id r = Some info.
Proof.
  intros U F. destruct (Z.eq_dec k id) as [->|N].
  - rewrite find_erase_same in F by exact U. discriminate.
  - split; [exact N|]. now rewrite find_erase_other in F.
Qed.

Lemma force_loop_effect cands : forall freed target g,
  unique_keys (tracked_textures_ g) ->
  NoDup (map fst cands) ->
  (forall id, In id (map fst cands) -> In id (map fst (tracked_textures_ g))) ->
  let out := force_loop cands freed target g in
  config_ (snd out) = config_ g
  /\ current_frame_ (snd out) = current_frame_ g
  /\ total_textures_purged_ (snd out) = total_textures_purged_ g
  /\ total_vram_freed_ (snd out) = total_vram_freed_ g
  /\ (forall id, ~ In id (map fst cands) ->
        find id (tracked_textures_ (snd out)) = find id (tracked_textures_ g))
  /\ (forall id info, find id (tracked_textures_ (snd out)) = Some info ->
        find id (tracked_textures_ g) = Some info)
  /\ (target <= fst out
      \/ forall id, In id (map fst cands) ->
           find id (tracked_textures_ (snd out)) = None).
Proof.
  induction cands as [|[k fu] rest IH]; intros freed target g U N T.
  - cbn [force_loop fst snd map]. repeat split; auto.
    right. intros id [].
  - cbn [force_loop]. cbv zeta.
    destruct (Z.leb_spec target freed) as [L|L].
    + cbn [fst snd]. repeat split; auto.
    + destruct (in_keys_find k _ (T k (or_introl eq_refl))) as [info F].
      rewrite F. cbn [map fst] in N. inversion N as [|? ? Nk Nr]; subst.
      assert (E : UnregisterTexture k g
                  = with_tracked (u64 (current_vram_usage_ g - size_bytes info))
                      (erase k (tracked_textures_ g)) g)
        by (unfold UnregisterTexture; now rewrite F).
      rewrite E.
      set (g1 := with_tracked (u64 (current_vram_usage_ g - size_bytes info))
                   (erase k (tracked_textures_ g)) g).
      assert (U1 : unique_keys (tracked_textures_ g1))
        by (apply unique_keys_erase; exact U).
      assert (T1 : forall id, In id (map fst rest) ->
                     In id (map fst (tracked_textures_ g1))).
      { intros id I. apply keys_erase_other.
        - intros ->. contradiction.
        - apply T. now right. }
      destruct (IH (u64 (freed + size_bytes info)) target g1 U1 Nr T1)
        as (C & Fr & P & Fd & Keep & Old & Done).
      repeat split; try assumption.
      * intros id NI. rewrite Keep by (intros I; apply NI; now right).
        apply find_erase_other. intros ->. apply NI. now left.
      * intros id info' F'. apply Old in F'.
        now apply (find_erase_some id k info' _ U) in F'.
      * destruct Done as [D|D]; [now left|right].
        intros id [<-|I]; [|now apply D].
        rewrite Keep by exact Nk. now apply find_erase_same.
Qed.

Lemma force_candidates_keys g :
  map fst (force_candidates g)
    = map fst (filter (fun e => force_eligible g (snd e)) (tracked_textures_ g)).
Proof.
  unfold force_candidates. rewrite map_map. reflexivity.
Qed.

Lemma sorted_candidates g :
  let cands := sort (fun a b : ImageId * Z => snd b <? snd a) (force_candidates g) in
  unique_keys (tracked_textures_ g) ->
  NoDup (map fst cands)
  /\ (forall id, In id (map fst cands) <->
        exists info, find id (tracked_textures_ g) = Some info
                     /\ force_eligible g info = true).
Proof.
  intros cands U.
  assert (P : Permutation (map fst cands)
                (map fst (filter (fun e => force_eligible g (snd e))
                                 (tracked_textures_ g)))).
  { rewrite <- force_candidates_keys. apply Permutation_map. apply sort_perm. }
  split.
  - apply (Permutation_NoDup (Permutation_sym P)). now apply NoDup_keys_filter.
  - intros id. split.
    + intros I. apply (Permutation_in _ P) in I.
      apply in_map_iff in I. destruct I as ([k info] & E & I). simpl in E. subst k.
      apply filter_In in I. destruct I as [I El].
      exists info. split; [now apply in_find_some|exact El].
    + intros (info & F & El). apply (Permutation_in _ (Permutation_sym P)).
      apply in_map_iff. exists (id, info). split; [reflexivity|].
      apply filter_In. split; [now apply find_some_in|exact El].
Qed.

(** X28.  [ForceCleanup] never unregisters a render target or a texture unused for
    ten frames or less, whatever the target; the records that survive are
    unchanged; and what it unregisters is not added to the purge counters. *)
Theorem force_cleanup_spares_protected_textures
    (target_free_mb : Z) (g : TextureGarbageCollector) :
  unique_keys (tracked_textures_ g) ->
  let g' := ForceCleanup target_free_mb g in
  (forall id info, find id (tracked_textures_ g) = Some info ->
     force_eligible g info = false ->
     find id (tracked_textures_ g') = Some info)
  /\ (forall id info, find id (tracked_textures_ g') = Some info ->
        find id (tracked_textures_ g) = Some info)
  /\ total_textures_purged_ g' = total_textures_purged_ g
  /\ total_vram_freed_ g' = total_vram_freed_ g.
Proof.
  intros U g'. unfold g', ForceCleanup.
  destruct (sorted_candidates g U) as [N M].
  assert (T : forall id,
            In id (map fst (sort (fun a b : ImageId * Z => snd b <? snd a)
                              (force_candidates g))) ->
            In id (map fst (tracked_textures_ g))).
  { intros id I. apply M in I. destruct I as (info & F & _).
    now apply (find_in_keys id info). }
  destruct (force_loop_effect _ 0 (u64 (target_free_mb * 1024 * 1024)) g U N T)
    as (_ & _ & P & Fd & Keep & Old & _).
  repeat split; try assumption.
  intros id info F El. rewrite Keep; [exact F|].
  intros I. apply M in I. destruct I as (info' & F' & El').
  rewrite F in F'. injection F' as <-. congruence.
Qed.

(** X28, on an instance. *)
Lemma force_cleanup_spares_protected_textures_witness :
  let g := mixed_textures in
  unique_keys (tracked_textures_ g)
  /\ (let g' := ForceCleanup 5 g in
      (forall id info, find id (tracked_textures_ g) = Some info ->
         force_eligible g info = false ->
         find id (tracked_textures_ g') = Some info)
      /\ (forall id info, find id (tracked_textures_ g') = Some info ->
            find id (tracked_textures_ g) = Some info)
      /\ total_textures_purged_ g' = total_textures_purged_ g
      /\ total_vram_freed_ g' = total_vram_freed_ g).
Proof.
  intros g.
  assert (U : unique_keys (tracked_textures_ g)).
  { unfold unique_keys. change (map fst (tracked_textures_ g)) with [3; 2; 1].
    repeat constructor; simpl; intuition discriminate. }
  split; [exact U|].
  exact (force_cleanup_spares_protected_textures 5 g U).
Defined.

Lemma find_size_bounds id info r :
  Forall (fun e => 0 <= size_bytes (snd e)) r ->
  find id r = Some info ->
  0 <= size_bytes info <= tracked_bytes r.
Proof.
  unfold tracked_bytes.
  induction 1 as [|[k v] r Hv Hr IH]; simpl; [discriminate|].
  assert (0 <= fold_right (fun e acc => size_bytes (snd e) + acc) 0 r).
  { clear IH. induction Hr as [|e r He Hr IH]; simpl; lia. }
  simpl in Hv.
  destruct (k =? id).
  - intros [= ->]. lia.
  - intros F. specialize (IH F). lia.
Qed.

Lemma sizes_erase id r :
  Forall (fun e => 0 <= size_bytes (snd e)) r ->
  Forall (fun e => 0 <= size_bytes (snd e)) (erase id r).
Proof.
  induction 1 as [|[k v] r Hv Hr IH]; simpl; [constructor|].
  destruct (k =? id); [exact Hr|now constructor].
Qed.

Lemma force_loop_bytes cands : forall freed target g,
  Forall (fun e => 0 <= size_bytes (snd e)) (tracked_textures_ g) ->
  0 <= freed ->
  freed + tracked_bytes (tracked_textures_ g) < 2 ^ 64 ->
  let out := force_loop cands freed target g in
  fst out = freed + (tracked_bytes (tracked_textures_ g)
                     - tracked_bytes (tracked_textures_ (snd out)))
  /\ u64 (current_vram_usage_ (snd out))
     = u64 (current_vram_usage_ g
            - (tracked_bytes (tracked_textures_ g)
               - tracked_bytes (tracked_textures_ (snd out)))).
Proof.
  induction cands as [|[k fu] rest IH]; intros freed target g S B W.
  - cbn [force_loop fst snd]. split; [lia|]. f_equal. lia.
  - cbn [force_loop]. cbv zeta.
    destruct (Z.leb_spec target freed) as [L|L].
    + cbn [fst snd]. split; [lia|]. f_equal. lia.
    + destruct (find k (tracked_textures_ g)) as [info|] eqn:F.
      * assert (E : UnregisterTexture k g
                    = with_tracked (u64 (current_vram_usage_ g - size_bytes info))
                        (erase k (tracked_textures_ g)) g)
          by (unfold UnregisterTexture; now rewrite F).
        rewrite E.
        set (g1 := with_tracked (u64 (current_vram_usage_ g - size_bytes info))
                     (erase k (tracked_textures_ g)) g).
        pose proof (find_size_bounds _ _ _ S F) as Bi.
        assert (T1 : tracked_bytes (tracked_textures_ g1)
                     = tracked_bytes (tracked_textures_ g) - size_bytes info)
          by (apply tracked_bytes_erase; exact F).
        assert (E64 : u64 (freed + size_bytes info) = freed + size_bytes info)
          by (unfold u64; apply Z.mod_small; lia).
        rewrite E64.
        destruct (IH (freed + size_bytes info) target g1) as [A1 A2].
        { apply sizes_erase. exact S. }
        { lia. }
        { rewrite T1. lia. }
        split.
        { rewrite A1, T1. lia. }
        { rewrite A2. change (current_vram_usage_ g1)
            with (u64 (current_vram_usage_ g - size_bytes info)).
          unfold u64. rewrite Zminus_mod_idemp_l. f_equal. rewrite T1. lia. }
      * now apply IH.
Qed.

Lemma force_loop_usage_range cands : forall freed target g,
  is_u64 (current_vram_usage_ g) ->
  is_u64 (current_vram_usage_ (snd (force_loop cands freed target g))).
Proof.
  induction cands as [|[k fu] rest IH]; intros freed target g B; simpl; [exact B|].
  destruct (target <=? freed); [exact B|].
  destruct (find k (tracked_textures_ g)) as [info|] eqn:F; [|now apply IH].
  apply IH. unfold UnregisterTexture. rewrite F. apply u64_range.
Qed.

(** X29.  [ForceCleanup] stops only when enough is freed or nothing eligible is
    left: with sizes that add up below 2^64, either the sizes of the
    unregistered textures reach the target in bytes, or no tracked texture
    remains that is neither a render target nor used within the last ten
    frames.  The estimate goes down by what was unregistered. *)
Theorem force_cleanup_frees_target_or_exhausts
    (target_free_mb : Z) (g : TextureGarbageCollector) :
  unique_keys (tracked_textures_ g) ->
  Forall (fun e => 0 <= size_bytes (snd e)) (tracked_textures_ g) ->
  tracked_bytes (tracked_textures_ g) < 2 ^ 64 ->
  is_u64 (current_vram_usage_ g) ->
  let g' := ForceCleanup target_free_mb g in
  let removed := tracked_bytes (tracked_textures_ g)
                 - tracked_bytes (tracked_textures_ g') in
  current_vram_usage_ g' = u64 (current_vram_usage_ g - removed)
  /\ (u64 (target_free_mb * 1024 * 1024) <= removed
      \/ forall id info, find id (tracked_textures_ g') = Some info ->
           force_eligible g info = false).
Proof.
  intros U S W B g' removed. unfold removed, g', ForceCleanup.
  destruct (sorted_candidates g U) as [N M].
  assert (T : forall id,
            In id (map fst (sort (fun a b : ImageId * Z => snd b <? snd a)
                              (force_candidates g))) ->
            In id (map fst (tracked_textures_ g))).
  { intros id I. apply M in I. destruct I as (info & F & _).
    now apply (find_in_keys id info). }
  destruct (force_loop_effect _ 0 (u64 (target_free_mb * 1024 * 1024)) g U N T)
    as (_ & _ & _ & _ & _ & Old & Done).
  destruct (force_loop_bytes
              (sort (fun a b : ImageId * Z => snd b <? snd a) (force_candidates g))
              0 (u64 (target_free_mb * 1024 * 1024)) g S (Z.le_refl 0))
    as [A1 A2]; [lia|].
  split.
  { rewrite <- A2. unfold u64. symmetry. apply Z.mod_small.
    apply force_loop_usage_range. exact B. }
  destruct Done as [D|D].
  - left. rewrite A1 in D. lia.
  - right. intros id info F.
    destruct (force_eligible g info) eqn:El; [|reflexivity].
    assert (I : In id (map fst (sort (fun a b : ImageId * Z => snd b <? snd a)
                                  (force_candidates g)))).
    { apply M. exists info. split; [now apply Old|exact El]. }
    apply D in I. congruence.
Qed.

(** X29, on an instance. *)
Lemma force_cleanup_frees_target_or_exhausts_witness :
  let g := mixed_textures in
  unique_keys (tracked_textures_ g)
  /\ Forall (fun e => 0 <= size_bytes (snd e)) (tracked_textures_ g)
  /\ tracked_bytes (tracked_textures_ g) < 2 ^ 64
  /\ is_u64 (current_vram_usage_ g)
  /\ (let g' := ForceCleanup 3 g in
      let removed := tracked_bytes (tracked_textures_ g)
                     - tracked_bytes (tracked_textures_ g') in
      current_vram_usage_ g' = u64 (current_vram_usage_ g - removed)
      /\ (u64 (3 * 1024 * 1024) <= removed
          \/ forall id info, find id (tracked_textures_ g') = Some info ->
               force_eligible g info = false)).
Proof.
  intros g.
  assert (U : unique_keys (tracked_textures_ g)).
  { unfold unique_keys. change (map fst (tracked_textures_ g)) with [3; 2; 1].
    repeat constructor; simpl; intuition discriminate. }
  assert (S : Forall (fun e => 0 <= size_bytes (snd e)) (tracked_textures_ g))
    by (repeat constructor; vm_compute; discriminate).
  assert (W : tracked_bytes (tracked_textures_ g) < 2 ^ 64) by reflexivity.
  assert (B : is_u64 (current_vram_usage_ g))
    by (vm_compute; split; [discriminate|reflexivity]).
  split; [exact U|]. split; [exact S|]. split; [exact W|]. split; [exact B|].
  exact (force_cleanup_frees_target_or_exhausts 3 g U S W B).
Defined.

(** *** Oldest first *)

Lemma StronglySorted_across {A : Type} (R : A -> A -> Prop) l1 : forall l2 x y,
  StronglySorted R (l1 ++ l2) -> In x l1 -> In y l2 -> R x y.
Proof.
  induction l1 as [|a l1 IH]; intros l2 x y S Ix Iy; [contradiction|].
  cbn [app] in S. inversion S as [|? ? S' F]; subst.
  destruct Ix as [<-|Ix].
  - apply (proj1 (Forall_forall _ _) F). apply in_or_app. now right.
  - now apply (IH l2).
Qed.

Lemma force_loop_prefix cands : forall freed target g,
  unique_keys (tracked_textures_ g) ->
  NoDup (map fst cands) ->
  (forall id, In id (map fst cands) -> In id (map fst (tracked_textures_ g))) ->
  exists done rest,
    cands = done ++ rest
    /\ (forall id, In id (map fst done) ->
          find id (tracked_textures_ (snd (force_loop cands freed target g))) = None)
    /\ (forall id, ~ In id (map fst done) ->
          find id (tracked_textures_ (snd (force_loop cands freed target g)))
            = find id (tracked_textures_ g)).
Proof.
  induction cands as [|[k fu] rest IH]; intros freed target g U N T.
  - exists [], []. cbn. repeat split; tauto.
  - cbn [force_loop].
    destruct (Z.leb_spec target freed) as [L|L].
    + exists [], ((k, fu) :: rest). cbn. repeat split; tauto.
    + destruct (in_keys_find k _ (T k (or_introl eq_refl))) as [info F].
      rewrite F. cbn [map fst] in N. inversion N as [|? ? Nk Nr]; subst.
      assert (E : UnregisterTexture k g
                  = with_tracked (u64 (current_vram_usage_ g - size_bytes info))
                      (erase k (tracked_textures_ g)) g)
        by (unfold UnregisterTexture; now rewrite F).
      rewrite E.
      set (g1 := with_tracked (u64 (current_vram_usage_ g - size_bytes info))
                   (erase k (tracked_textures_ g)) g).
      assert (U1 : unique_keys (tracked_textures_ g1))
        by (apply unique_keys_erase; exact U).
      assert (T1 : forall id, In id (map fst rest) ->
                     In id (map fst (tracked_textures_ g1))).
      { intros id I. apply keys_erase_other.
        - intros ->. contradiction.
        - apply T. now right. }
      destruct (IH (u64 (freed + size_bytes info)) target g1 U1 Nr T1)
        as (done & rest' & E' & Gone & Kept).
      exists ((k, fu) :: done), rest'. split; [cbn; now rewrite E'|]. split.
      * cbn [map fst]. intros id [<-|I]; [|now apply Gone].
        destruct (in_dec Z.eq_dec k (map fst done)) as [I|NI]; [now apply Gone|].
        rewrite (Kept _ NI). now apply find_erase_same.
      * cbn [map fst]. intros id NI. rewrite Kept by (intros I; apply NI; now right).
        apply find_erase_other. intros ->. apply NI. now left.
Qed.

Lemma candidate_age g id fu :
  unique_keys (tracked_textures_ g) ->
  In (id, fu) (force_candidates g) ->
  exists info, find id (tracked_textures_ g) = Some info
               /\ fu = frames_unused_of g info.
Proof.
  intros U I. unfold force_candidates in I. apply in_map_iff in I.
  destruct I as ([k info] & E & I). cbn [fst snd] in E. injection E as -> <-.
  apply filter_In in I. destruct I as [I _].
  exists info. split; [now apply in_find_some|reflexivity].
Qed.

(** X30.  [ForceCleanup] takes the oldest first: when it unregisters a texture, it
    has also unregistered every eligible texture (no render target, unused
    for more than ten frames) that had been unused for strictly longer,
    however the sort orders textures of equal age. *)
Theorem force_cleanup_takes_older_textures_first
    (target_free_mb : Z) (g : TextureGarbageCollector)
    (older younger : ImageId) (info_older info_younger : TextureInfo) :
  unique_keys (tracked_textures_ g) ->
  find older (tracked_textures_ g) = Some info_older ->
  find younger (tracked_textures_ g) = Some info_younger ->
  force_eligible g info_older = true ->
  frames_unused_of g info_younger < frames_unused_of g info_older ->
  find younger (tracked_textures_ (ForceCleanup target_free_mb g)) = None ->
  find older (tracked_textures_ (ForceCleanup target_free_mb g)) = None.
Proof.
  intros U Fo Fy El Age Gy. unfold ForceCleanup in *.
  set (before := fun a b : ImageId * Z => snd b <? snd a) in *.
  destruct (sorted_candidates g U) as [N M]. fold before in N, M.
  assert (T : forall id, In id (map fst (sort before (force_candidates g))) ->
                In id (map fst (tracked_textures_ g))).
  { intros id I. apply M in I. destruct I as (info & F & _).
    now apply (find_in_keys id info). }
  destruct (force_loop_prefix _ 0 (u64 (target_free_mb * 1024 * 1024)) g U N T)
    as (done & rest & E & Gone & Kept).
  destruct (in_dec Z.eq_dec older (map fst done)) as [Io|No]; [now apply Gone|].
  exfalso.
  assert (Iy : In younger (map fst done)).
  { destruct (in_dec Z.eq_dec younger (map fst done)) as [I|NI]; [exact I|].
    rewrite (Kept _ NI) in Gy. congruence. }
  assert (Io : In older (map fst (sort before (force_candidates g))))
    by (apply M; exists info_older; split; assumption).
  rewrite E, map_app in Io. apply in_app_or in Io.
  destruct Io as [Io|Io]; [contradiction|].
  apply in_map_iff in Iy. destruct Iy as ([y fy] & Ey & Iy). cbn [fst] in Ey. subst y.
  apply in_map_iff in Io. destruct Io as ([o fo] & Eo & Io). cbn [fst] in Eo. subst o.
  assert (S : StronglySorted (fun a b => before b a = false)
                (sort before (force_candidates g))).
  { apply sort_sorted.
    - intros a b. unfold before. rewrite Z.ltb_lt, Z.ltb_ge. lia.
    - intros a b c. unfold before. rewrite !Z.ltb_ge. lia. }
  rewrite E in S.
  pose proof (StronglySorted_across _ _ _ _ _ S Iy Io) as R.
  unfold before in R. cbn [snd] in R. apply Z.ltb_ge in R.
  assert (Cy : In (younger, fy) (force_candidates g)).
  { apply (Permutation_in _ (sort_perm before _)). rewrite E.
    apply in_or_app. now left. }
  assert (Co : In (older, fo) (force_candidates g)).
  { apply (Permutation_in _ (sort_perm before _)). rewrite E.
    apply in_or_app. now right. }
  destruct (candidate_age g _ _ U Cy) as (iy & Fy' & ->).
  destruct (candidate_age g _ _ U Co) as (io & Fo' & ->).
  rewrite Fy in Fy'. rewrite Fo in Fo'. injection Fy' as <-. injection Fo' as <-.
  lia.
Qed.

(** X30, on an instance. *)
Lemma force_cleanup_takes_older_textures_first_witness :
  let g := MarkTextureUsed 2 (Nat.iter 150 TickFrame
             (RegisterTexture 2 (2 * MiB) false
                (RegisterTexture 1 (4 * MiB) false (construct default_config)))) in
  let g := Nat.iter 50 TickFrame g in
  let i1 := {| size_bytes := 4 * MiB; last_used_frame := 0;
               is_render_target := false; usage_count := 1 |} in
  let i2 := {| size_bytes := 2 * MiB; last_used_frame := 150;
               is_render_target := false; usage_count := 2 |} in
  unique_keys (tracked_textures_ g)
  /\ find 1 (tracked_textures_ g) = Some i1
  /\ find 2 (tracked_textures_ g) = Some i2
  /\ force_eligible g i1 = true
  /\ frames_unused_of g i2 < frames_unused_of g i1
  /\ find 2 (tracked_textures_ (ForceCleanup 5 g)) = None
  /\ find 1 (tracked_textures_ (ForceCleanup 5 g)) = None.
Proof.
  intros g0 g i1 i2.
  assert (U : unique_keys (tracked_textures_ g)).
  { unfold unique_keys. change (map fst (tracked_textures_ g)) with [2; 1].
    repeat constructor; simpl; intuition discriminate. }
  assert (F1 : find 1 (tracked_textures_ g) = Some i1) by reflexivity.
  assert (F2 : find 2 (tracked_textures_ g) = Some i2) by reflexivity.
  assert (El : force_eligible g i1 = true) by reflexivity.
  assert (Age : frames_unused_of g i2 < frames_unused_of g i1) by reflexivity.
  assert (G2 : find 2 (tracked_textures_ (ForceCleanup 5 g)) = None) by reflexivity.
  split; [exact U|]. split; [exact F1|]. split; [exact F2|]. split; [exact El|].
  split; [exact Age|]. split; [exact G2|].
  exact (force_cleanup_takes_older_textures_first 5 g 1 2 i1 i2 U F1 F2 El Age G2).
Defined.

(** *** Pressure and the age test *)

(** X27.  Memory pressure never protects a texture: with thresholds between 1 and
    2^31 and the aggressive threshold not above the normal one, a record
    that passes [ShouldPurgeTexture] at some age while the pressure predicate
    is false passes it at the same age once the predicate is true. *)
Theorem pressure_never_protects_a_texture
    (g g' : TextureGarbageCollector) (info : TextureInfo) (age : Z) :
  config_ g' = config_ g ->
  IsMemoryPressureHigh g = false ->
  IsMemoryPressureHigh g' = true ->
  0 < aggressive_threshold (config_ g) <= unused_frame_threshold (config_ g) ->
  unused_frame_threshold (config_ g) < 2 ^ 31 ->
  ShouldPurgeTexture g info age = true ->
  ShouldPurgeTexture g' info age = true.
Proof.
  intros C P P' T B. unfold ShouldPurgeTexture, GetEffectiveThreshold.
  rewrite P, P', C, andb_false_r, andb_true_r.
  set (t := unused_frame_threshold (config_ g)) in *.
  set (a := aggressive_threshold (config_ g)) in *.
  assert (Et2 : u32 (t * 2) = t * 2) by (apply VRAMScenario.u32_small; lia).
  assert (Ea2 : u32 (a * 2) = a * 2) by (apply VRAMScenario.u32_small; lia).
  assert (Et3 : u32 (t + 30) = t + 30) by (apply VRAMScenario.u32_small; lia).
  assert (Ea3 : u32 (a + 30) = a + 30) by (apply VRAMScenario.u32_small; lia).
  assert (Ha : a / 2 < a) by (apply Z.div_lt; lia).
  assert (Ht : t / 2 < t) by (apply Z.div_lt; lia).
  destruct (Z.ltb_spec age t); [discriminate|].
  destruct (aggressive_mode (config_ g)).
  - destruct (Z.ltb_spec age a); [lia|].
    rewrite Et2, Ea2, Et3, Ea3.
    destruct (is_render_target info); [rewrite !Z.ltb_lt; lia|].
    destruct (100 <? usage_count info); [rewrite !Z.ltb_lt; lia|].
    intros _. apply Z.ltb_lt. lia.
  - destruct (Z.ltb_spec age t); [lia|].
    destruct (is_render_target info); [auto|].
    destruct (100 <? usage_count info); [auto|].
    intros _. apply Z.ltb_lt. lia.
Qed.

(** X27, on an instance. *)
Lemma pressure_never_protects_a_texture_witness :
  let g := mixed_textures in
  let g' := UpdateMemoryUsage (600 * MiB) g in
  let info := plain_texture (4 * MiB) 0 1 in
  config_ g' = config_ g
  /\ IsMemoryPressureHigh g = false
  /\ IsMemoryPressureHigh g' = true
  /\ 0 < aggressive_threshold (config_ g) <= unused_frame_threshold (config_ g)
  /\ unused_frame_threshold (config_ g) < 2 ^ 31
  /\ ShouldPurgeTexture g info 200 = true
  /\ ShouldPurgeTexture g' info 200 = true.
Proof.
  intros g g' info.
  assert (C : config_ g' = config_ g) by reflexivity.
  assert (P : IsMemoryPressureHigh g = false) by reflexivity.
  assert (P' : IsMemoryPressureHigh g' = true) by reflexivity.
  assert (T : 0 < aggressive_threshold (config_ g) <= unused_frame_threshold (config_ g))
    by (split; [reflexivity|discriminate]).
  assert (B : unused_frame_threshold (config_ g) < 2 ^ 31) by reflexivity.
  assert (S : ShouldPurgeTexture g info 200 = true) by reflexivity.
  split; [exact C|]. split; [exact P|]. split; [exact P'|]. split; [exact T|].
  split; [exact B|]. split; [exact S|].
  exact (pressure_never_protects_a_texture g g' info 200 C P P' T B S).
Defined.

End TextureGCMore.
